(** * Real-time trade-stream processor: ingress ring, sliding window,
      VWAP history, minute scheduler and lagged Pearson search.

    The C sources are embedded shallowly.  Integers of the program are [Z]
    with the wrap-around of their C type written out; [double] is the
    primitive binary64 type of the kernel, reached through the [Scalar]
    interface, which names the operations the sources use on it. *)

From Stdlib Require Import ZArith List Lia Bool String Ascii Floats.
From stdpp Require Import base list.
Import ListNotations.
Local Open Scope Z_scope.

(* ===================================================================== *)
(** * Part I.  The embedding                                              *)
(* ===================================================================== *)

(** ** Machine integers *)

(** [uint32_t] arithmetic wraps modulo 2^32. *)
Definition wrap32 (z : Z) : Z := z mod 2 ^ 32.

(** [int64_t] arithmetic, two's complement. *)
Definition wrap64s (z : Z) : Z := (z + 2 ^ 63) mod 2 ^ 64 - 2 ^ 63.

Definition INT64_MIN : Z := - 2 ^ 63.
Definition INT64_MAX : Z := 2 ^ 63 - 1.

Definition in_int64 (z : Z) : Prop := INT64_MIN <= z <= INT64_MAX.

(** ** Constants of include/common.h *)

Definition NUM_SYMBOLS : Z := 8.
Definition WINDOW_MINUTES : Z := 15.
Definition WINDOW_MS : Z := WINDOW_MINUTES * 60 * 1000.
Definition WINDOW_CAPACITY : Z := 50000.
Definition MOVING_AVG_POINTS : Z := 8.
Definition MAX_LAG_MINUTES : Z := 60.
Definition VWAP_HISTORY_SIZE_MINUTES : Z := MAX_LAG_MINUTES + MOVING_AVG_POINTS.
Definition RAW_TRADE_QUEUE_SIZE : Z := 1024.
Definition NS_PER_MS : Z := 1000000.
Definition NS_PER_SEC : Z := 1000000000.
Definition MS_PER_MINUTE : Z := 60000.

(** src/config.h *)
Definition SYMBOLS : list string :=
  ["BTC-USDT"; "ADA-USDT"; "ETH-USDT"; "DOGE-USDT";
   "XRP-USDT"; "SOL-USDT"; "LTC-USDT"; "BNB-USDT"]%string.

(** ** The arithmetic of [double] as an interface *)

Class Scalar (F : Type) := {
  sc_of_int : Z -> F;          (* conversion of an [int] operand *)
  sc_add : F -> F -> F;
  sc_sub : F -> F -> F;
  sc_mul : F -> F -> F;
  sc_div : F -> F -> F;
  sc_sqrt : F -> F;
  sc_abs : F -> F;             (* fabs *)
  sc_eqb : F -> F -> bool;     (* == *)
  sc_ltb : F -> F -> bool;     (* <  *)
  sc_nan : F;                  (* NAN *)
  sc_isnan : F -> bool         (* isnan *)
}.

(** [(double) n] for an [int] n. *)
Definition double_of_int (n : Z) : float :=
  if n <? 0 then PrimFloat.opp (PrimFloat.of_uint63 (Uint63.of_Z (- n)))
  else PrimFloat.of_uint63 (Uint63.of_Z n).

(** The program's instance: IEEE-754 binary64. *)
#[export] Instance double_scalar : Scalar float := {|
  sc_of_int := double_of_int;
  sc_add := PrimFloat.add;
  sc_sub := PrimFloat.sub;
  sc_mul := PrimFloat.mul;
  sc_div := PrimFloat.div;
  sc_sqrt := PrimFloat.sqrt;
  sc_abs := PrimFloat.abs;
  sc_eqb := PrimFloat.eqb;
  sc_ltb := PrimFloat.ltb;
  sc_nan := PrimFloat.nan;
  sc_isnan := PrimFloat.is_nan
|}.

(** [a > b] of C. *)
Definition sc_gtb {F} `{Scalar F} (a b : F) : bool := sc_ltb b a.

(** ** Ring buffers: the entries read from [head] onwards *)

(** [for_range lo n] is the index sequence of [for (i = lo; i < lo + n; ++i)]. *)
Definition for_range (lo : Z) (n : nat) : list Z :=
  map (fun k => lo + Z.of_nat k) (seq 0 n).

(** The [n] slots of a ring of capacity [cap] starting at slot [head]. *)
Definition ring_slice {A} (d : A) (buf : list A) (cap head : Z) (n : nat) : list A :=
  map (fun i => nth (Z.to_nat ((head + Z.of_nat i) mod cap)) buf d) (seq 0 n).

(** ** include/common.h: raw_trade_message and raw_trade_queue *)

Record raw_trade_message := mk_raw_trade_message {
  msg_symbol_index : Z;
  msg_exchange_ts_ms : Z;
  msg_price : float;
  msg_size : float;
  msg_raw_json : string;
  msg_receive_ts_ms : Z
}.

(** A slot as [calloc] leaves it. *)
Definition zero_message : raw_trade_message :=
  mk_raw_trade_message 0 0 0%float 0%float EmptyString 0.

Record raw_trade_queue := mk_raw_trade_queue {
  rq_buffer : list raw_trade_message;
  rq_capacity : Z;
  rq_head_idx : Z;
  rq_tail_idx : Z
}.

Module Queue.

(** src/data/queue.c, raw_queue_init *)
Definition raw_queue_init (capacity : Z) : raw_trade_queue :=
  {| rq_buffer := replicate (Z.to_nat capacity) zero_message;
     rq_capacity := capacity;
     rq_head_idx := 0;
     rq_tail_idx := 0 |}.

(** The test of the [while] of raw_queue_push: the ring is full. *)
Definition rq_full (queue : raw_trade_queue) : bool :=
  wrap32 (rq_tail_idx queue + 1) mod rq_capacity queue =? rq_head_idx queue.

Definition rq_advance_head (queue : raw_trade_queue) : raw_trade_queue :=
  {| rq_buffer := rq_buffer queue;
     rq_capacity := rq_capacity queue;
     rq_head_idx := wrap32 (rq_head_idx queue + 1) mod rq_capacity queue;
     rq_tail_idx := rq_tail_idx queue |}.

(** The [while] loop of raw_queue_push; [None] when the fuel runs out before
    the loop exits. *)
Fixpoint raw_queue_drop_oldest (fuel : nat) (queue : raw_trade_queue)
  : option raw_trade_queue :=
  if rq_full queue then
    match fuel with
    | O => None
    | S fuel' => raw_queue_drop_oldest fuel' (rq_advance_head queue)
    end
  else Some queue.

(** src/data/queue.c, raw_queue_push (the lock is held throughout). *)
Definition raw_queue_push (fuel : nat) (queue : raw_trade_queue)
    (msg_in : raw_trade_message) : option raw_trade_queue :=
  match raw_queue_drop_oldest fuel queue with
  | None => None
  | Some q =>
      Some {| rq_buffer := <[Z.to_nat (rq_tail_idx q) := msg_in]> (rq_buffer q);
              rq_capacity := rq_capacity q;
              rq_head_idx := rq_head_idx q;
              rq_tail_idx := wrap32 (rq_tail_idx q + 1) mod rq_capacity q |}
  end.

(** Outcome of raw_queue_pop: a message, 0 on shutdown with an empty ring, or
    the caller parked on the condition variable. *)
Inductive pop_result :=
| PopGot (msg_out : raw_trade_message) (queue' : raw_trade_queue)
| PopShutdownEmpty
| PopWait.

(** src/data/queue.c, raw_queue_pop *)
Definition raw_queue_pop (shutdown_requested : bool) (queue : raw_trade_queue)
  : pop_result :=
  if rq_head_idx queue =? rq_tail_idx queue then
    if shutdown_requested then PopShutdownEmpty else PopWait
  else
    PopGot (nth (Z.to_nat (rq_head_idx queue)) (rq_buffer queue) zero_message)
           {| rq_buffer := rq_buffer queue;
              rq_capacity := rq_capacity queue;
              rq_head_idx := wrap32 (rq_head_idx queue + 1) mod rq_capacity queue;
              rq_tail_idx := rq_tail_idx queue |}.

(** Data-model invariants of the ring. *)
Definition rq_wf (queue : raw_trade_queue) : Prop :=
  0 < rq_capacity queue < 2 ^ 32 /\
  length (rq_buffer queue) = Z.to_nat (rq_capacity queue) /\
  0 <= rq_head_idx queue < rq_capacity queue /\
  0 <= rq_tail_idx queue < rq_capacity queue.

(** [size = (tail - head) mod Q] *)
Definition rq_size (queue : raw_trade_queue) : Z :=
  (rq_tail_idx queue - rq_head_idx queue) mod rq_capacity queue.

(** The queued messages, oldest first. *)
Definition rq_contents (queue : raw_trade_queue) : list raw_trade_message :=
  ring_slice zero_message (rq_buffer queue) (rq_capacity queue)
             (rq_head_idx queue) (Z.to_nat (rq_size queue)).

(** Pushing a list of messages one after the other. *)
Fixpoint push_all (fuel : nat) (queue : raw_trade_queue)
    (msgs : list raw_trade_message) : option raw_trade_queue :=
  match msgs with
  | [] => Some queue
  | m :: rest =>
      match raw_queue_push fuel queue m with
      | None => None
      | Some q => push_all fuel q rest
      end
  end.

(** Message number [k] of scenario S3. *)
Definition numbered (k : Z) : raw_trade_message :=
  mk_raw_trade_message 0 k 1%float 1%float EmptyString k.

(** Scenario S3: a ring of Q = 4 slots, messages #1..#5 pushed while the
    consumer is stalled, then four pops. *)
Definition scenario_S3 (fuel : nat) : Prop :=
  exists q5 q6 q7 q8,
    push_all fuel (raw_queue_init 4)
      [numbered 1; numbered 2; numbered 3; numbered 4; numbered 5] = Some q5 /\
    rq_contents q5 = [numbered 3; numbered 4; numbered 5] /\
    raw_queue_pop false q5 = PopGot (numbered 3) q6 /\
    raw_queue_pop false q6 = PopGot (numbered 4) q7 /\
    raw_queue_pop false q7 = PopGot (numbered 5) q8 /\
    raw_queue_pop false q8 = PopWait.

End Queue.

(** ** src/scheduler/scheduler.c: minute alignment *)

Module Scheduler.

Definition PERIOD_NS : Z := 60000 * NS_PER_MS.

(** [int64_t scheduled_time_ns = ((now_ns / PERIOD_NS) + 1) * PERIOD_NS;]
    C division truncates towards zero. *)
Definition initial_scheduled_time_ns (now_ns : Z) : Z :=
  wrap64s (wrap64s (Z.quot now_ns PERIOD_NS + 1) * PERIOD_NS).

(** The smallest multiple of the period that is [>= now]. *)
Definition next_multiple_ge (now s : Z) : Prop :=
  s mod PERIOD_NS = 0 /\ now <= s /\
  forall m, m mod PERIOD_NS = 0 -> now <= m -> s <= m.

(** The smallest multiple of the period that is [> now]. *)
Definition next_multiple_gt (now s : Z) : Prop :=
  s mod PERIOD_NS = 0 /\ now < s /\
  forall m, m mod PERIOD_NS = 0 -> now < m -> s <= m.

End Scheduler.

(** ** Magnitudes of doubles

    The order that [fabs(a) > fabs(b)] tests, read off the IEEE-754 fields:
    zero, then the finite values by exponent and mantissa, then infinity.
    NaN has no place in it. *)

Module Magnitude.

Definition key : Type := Z * Z * Z.

Definition sf_key (x : spec_float) : key :=
  match x with
  | S754_zero _ => (0, 0, 0)
  | S754_finite _ m e => (1, e, Zpos m)
  | S754_infinity _ => (2, 0, 0)
  | S754_nan => (3, 0, 0)
  end.

Definition key_lt (a b : key) : Prop :=
  let '(a1, a2, a3) := a in
  let '(b1, b2, b3) := b in
  a1 < b1 \/ (a1 = b1 /\ (a2 < b2 \/ (a2 = b2 /\ a3 < b3))).

Definition key_le (a b : key) : Prop :=
  let '(a1, a2, a3) := a in
  let '(b1, b2, b3) := b in
  a1 < b1 \/ (a1 = b1 /\ (a2 < b2 \/ (a2 = b2 /\ a3 <= b3))).

(** Magnitude of a double. *)
Definition mag (x : float) : key := sf_key (Prim2SF x).

(** [|a| <= |b|] as the program's comparisons see it. *)
Definition abs_le (a b : float) : Prop :=
  PrimFloat.leb (PrimFloat.abs a) (PrimFloat.abs b) = true.

(** [|a| < |b|] *)
Definition abs_lt (a b : float) : Prop :=
  PrimFloat.ltb (PrimFloat.abs a) (PrimFloat.abs b) = true.

End Magnitude.

(** ** include/common.h: processed_trade, sliding_window *)

Record processed_trade (F : Type) := mk_processed_trade {
  trade_ts_ms : Z;
  pt_price : F;
  pt_size : F
}.
Arguments mk_processed_trade {F}.
Arguments trade_ts_ms {F}.
Arguments pt_price {F}.
Arguments pt_size {F}.

Record sliding_window (F : Type) := mk_sliding_window {
  sw_buffer : list (processed_trade F);
  sw_capacity : Z;
  sw_head_idx : Z;
  sw_tail_idx : Z;
  sw_size : Z;
  sw_sum_price_volume : F;
  sw_sum_volume : F
}.
Arguments mk_sliding_window {F}.
Arguments sw_buffer {F}.
Arguments sw_capacity {F}.
Arguments sw_head_idx {F}.
Arguments sw_tail_idx {F}.
Arguments sw_size {F}.
Arguments sw_sum_price_volume {F}.
Arguments sw_sum_volume {F}.

Module Window.
Section Model.
Context {F : Type} `{Scalar F}.

(** A slot as [calloc] leaves it. *)
Definition zero_trade : processed_trade F :=
  mk_processed_trade 0 (sc_of_int 0) (sc_of_int 0).

(** src/data/sliding_window.c, sliding_window_init *)
Definition sliding_window_init : sliding_window F :=
  {| sw_buffer := replicate (Z.to_nat WINDOW_CAPACITY) zero_trade;
     sw_capacity := WINDOW_CAPACITY;
     sw_head_idx := 0;
     sw_tail_idx := 0;
     sw_size := 0;
     sw_sum_price_volume := sc_of_int 0;
     sw_sum_volume := sc_of_int 0 |}.

(** [w->buffer[w->head_idx]] *)
Definition sw_head (w : sliding_window F) : processed_trade F :=
  nth (Z.to_nat (sw_head_idx w)) (sw_buffer w) zero_trade.

(** [price * size] of an entry. *)
Definition trade_pv (t : processed_trade F) : F := sc_mul (pt_price t) (pt_size t).

(** The body shared by the prune loop and the overflow branch: subtract the
    head entry from the running sums and advance the head. *)
Definition sw_evict_head (w : sliding_window F) : sliding_window F :=
  {| sw_buffer := sw_buffer w;
     sw_capacity := sw_capacity w;
     sw_head_idx := wrap32 (sw_head_idx w + 1) mod sw_capacity w;
     sw_tail_idx := sw_tail_idx w;
     sw_size := wrap32 (sw_size w - 1);
     sw_sum_price_volume := sc_sub (sw_sum_price_volume w) (trade_pv (sw_head w));
     sw_sum_volume := sc_sub (sw_sum_volume w) (pt_size (sw_head w)) |}.

(** Step 1 of sliding_window_add_trade, the prune loop. *)
Fixpoint sw_prune (fuel : nat) (expiry_cutoff_ms : Z) (w : sliding_window F)
  : option (sliding_window F) :=
  if (0 <? sw_size w) && (trade_ts_ms (sw_head w) <? expiry_cutoff_ms) then
    match fuel with
    | O => None
    | S fuel' => sw_prune fuel' expiry_cutoff_ms (sw_evict_head w)
    end
  else Some w.

(** src/data/sliding_window.c, sliding_window_add_trade *)
Definition sliding_window_add_trade (fuel : nat) (w : sliding_window F)
    (ts_ms : Z) (price size : F) : option (sliding_window F) :=
  let expiry_cutoff_ms := wrap64s (ts_ms - WINDOW_MS) in
  match sw_prune fuel expiry_cutoff_ms w with
  | None => None
  | Some w1 =>
      let w2 := if sw_size w1 =? sw_capacity w1 then sw_evict_head w1 else w1 in
      Some {| sw_buffer :=
                <[Z.to_nat (sw_tail_idx w2) := mk_processed_trade ts_ms price size]>
                  (sw_buffer w2);
              sw_capacity := sw_capacity w2;
              sw_head_idx := sw_head_idx w2;
              sw_tail_idx := wrap32 (sw_tail_idx w2 + 1) mod sw_capacity w2;
              sw_size := wrap32 (sw_size w2 + 1);
              sw_sum_price_volume :=
                sc_add (sw_sum_price_volume w2) (sc_mul price size);
              sw_sum_volume := sc_add (sw_sum_volume w2) size |}
  end.

(** src/data/sliding_window.c, sliding_window_snapshot_vwap *)
Definition sliding_window_snapshot_vwap (w : sliding_window F) : F :=
  if sc_gtb (sw_sum_volume w) (sc_of_int 0)
  then sc_div (sw_sum_price_volume w) (sw_sum_volume w)
  else sc_nan.

(** A sequence of add_trade calls. *)
Fixpoint add_trades (fuel : nat) (w : sliding_window F)
    (trades : list (processed_trade F)) : option (sliding_window F) :=
  match trades with
  | [] => Some w
  | t :: rest =>
      match sliding_window_add_trade fuel w (trade_ts_ms t) (pt_price t) (pt_size t) with
      | None => None
      | Some w' => add_trades fuel w' rest
      end
  end.

(** Data-model invariants of the window's ring. *)
Definition sw_wf (w : sliding_window F) : Prop :=
  0 < sw_capacity w < 2 ^ 32 /\
  length (sw_buffer w) = Z.to_nat (sw_capacity w) /\
  0 <= sw_head_idx w < sw_capacity w /\
  0 <= sw_size w <= sw_capacity w /\
  sw_tail_idx w = (sw_head_idx w + sw_size w) mod sw_capacity w.

(** The [size] live entries, oldest first. *)
Definition sw_live (w : sliding_window F) : list (processed_trade F) :=
  ring_slice zero_trade (sw_buffer w) (sw_capacity w) (sw_head_idx w)
             (Z.to_nat (sw_size w)).

(** Naive recomputation of the two sums over the live entries. *)
Definition naive_sum_price_volume (w : sliding_window F) : F :=
  fold_left (fun acc t => sc_add acc (trade_pv t)) (sw_live w) (sc_of_int 0).

Definition naive_sum_volume (w : sliding_window F) : F :=
  fold_left (fun acc t => sc_add acc (pt_size t)) (sw_live w) (sc_of_int 0).

(** Number of leading entries older than the cutoff: what the prune loop
    removes. *)
Fixpoint expired_prefix (cutoff : Z) (l : list (processed_trade F)) : nat :=
  match l with
  | t :: rest =>
      if trade_ts_ms t <? cutoff then S (expired_prefix cutoff rest) else O
  | [] => O
  end.

(** Number of entries one add_trade call evicts: the expired prefix, plus the
    head when the ring is still full afterwards. *)
Definition evicted_count (w : sliding_window F) (ts_ms : Z) : nat :=
  let k := expired_prefix (wrap64s (ts_ms - WINDOW_MS)) (sw_live w) in
  if sw_size w - Z.of_nat k =? sw_capacity w then S k else k.

(** Every live entry is at most [WINDOW_MS] older than the newest one. *)
Definition within_window (l : list (processed_trade F)) : Prop :=
  match last l with
  | None => True
  | Some newest =>
      forall t, In t l -> trade_ts_ms newest - WINDOW_MS <= trade_ts_ms t
  end.

(** Timestamps arrive in non-decreasing order, after whatever is already in
    the window. *)
Fixpoint time_ordered (prev : Z) (trades : list (processed_trade F)) : Prop :=
  match trades with
  | [] => True
  | t :: rest => prev <= trade_ts_ms t /\ in_int64 (trade_ts_ms t) /\
                 time_ordered (trade_ts_ms t) rest
  end.

(** Live entries in non-decreasing timestamp order. *)
Fixpoint ts_sorted (l : list (processed_trade F)) : Prop :=
  match l with
  | [] => True
  | t :: rest =>
      Forall (fun u => trade_ts_ms t <= trade_ts_ms u) rest /\ ts_sorted rest
  end.

(** State of a window fed in timestamp order, [prev] being the latest
    timestamp seen so far. *)
Definition sw_time_inv (prev : Z) (w : sliding_window F) : Prop :=
  sw_wf w /\ ts_sorted (sw_live w) /\
  Forall (fun t => trade_ts_ms t <= prev) (sw_live w) /\
  within_window (sw_live w).

(** The stored sums are the naive sums. *)
Definition sums_exact (w : sliding_window F) : Prop :=
  sw_sum_price_volume w = naive_sum_price_volume w /\
  sw_sum_volume w = naive_sum_volume w.

(** No trade of the list expires an entry stamped [lo] or later: every
    timestamp is at least [lo] and every expiry cutoff at most [lo]. *)
Definition within_span (lo : Z) (trades : list (processed_trade F)) : Prop :=
  Forall (fun t => lo <= trade_ts_ms t /\ wrap64s (trade_ts_ms t - WINDOW_MS) <= lo)
         trades.

End Model.

(** Three trades in timestamp order: a large one, a tiny one a millisecond
    later, and a tiny one that expires the large one. *)
Definition cancelling_trades : list (processed_trade float) :=
  [ mk_processed_trade 0 27340.75%float 1024%float;
    mk_processed_trade 1 27340.75%float 0x1p-27%float;
    mk_processed_trade (WINDOW_MS + 1) 27340.75%float 0x1p-27%float ].

(** The three trades of scenario S1, a second apart. *)
Definition steady_trades : list (processed_trade float) :=
  [ mk_processed_trade 1000 100%float 1%float;
    mk_processed_trade 2000 200%float 1%float;
    mk_processed_trade 3000 300%float 2%float ].

(** Three trades of which the second is a late print. *)
Definition late_print_trades : list (processed_trade float) :=
  [ mk_processed_trade 100 1%float 1%float;
    mk_processed_trade 0 1%float 1%float;
    mk_processed_trade (WINDOW_MS + 50) 1%float 1%float ].

(** [|stored - naive| <= 1e-9 * |naive|] in double arithmetic; the constant is
    the double nearest to 1e-9. *)
Definition within_1e9_relative (stored naive : float) : bool :=
  PrimFloat.leb (PrimFloat.abs (PrimFloat.sub stored naive))
                (PrimFloat.mul 0x1.12e0be826d695p-30%float (PrimFloat.abs naive)).

End Window.
(** ** include/common.h: vwap_point, vwap_history, symbol_data *)

Record vwap_point (F : Type) := mk_vwap_point {
  minute_ts_ms : Z;
  vwap : F
}.
Arguments mk_vwap_point {F}.
Arguments minute_ts_ms {F}.
Arguments vwap {F}.

Record vwap_history (F : Type) := mk_vwap_history {
  vh_buffer : list (vwap_point F);
  vh_capacity : Z;
  vh_head_idx : Z;
  vh_tail_idx : Z;
  vh_size : Z
}.
Arguments mk_vwap_history {F}.
Arguments vh_buffer {F}.
Arguments vh_capacity {F}.
Arguments vh_head_idx {F}.
Arguments vh_tail_idx {F}.
Arguments vh_size {F}.

Record symbol_data (F : Type) := mk_symbol_data {
  sd_symbol : string;
  sd_trade_window : sliding_window F;
  sd_vwap_hist : vwap_history F;
  sd_trade_log_fd : Z
}.
Arguments mk_symbol_data {F}.
Arguments sd_symbol {F}.
Arguments sd_trade_window {F}.
Arguments sd_vwap_hist {F}.
Arguments sd_trade_log_fd {F}.

(** The arguments of one call of correlation_log_append_csv. *)
Record correlation_row (F : Type) := mk_correlation_row {
  row_symbol_idx : Z;
  row_minute_ts_ms : Z;
  row_other_symbol : string;
  row_corr : F;
  row_lag_minute_ts_ms : Z
}.
Arguments mk_correlation_row {F}.
Arguments row_symbol_idx {F}.
Arguments row_minute_ts_ms {F}.
Arguments row_other_symbol {F}.
Arguments row_corr {F}.
Arguments row_lag_minute_ts_ms {F}.

(** The history indices are C [int]s; [%] on them is the truncating remainder
    [Z.rem].  Signed overflow is undefined in C and does not arise for the
    histories considered (capacity below 2^30), so [+] and [-] are those of
    [Z]. *)
Module History.
Section Model.
Context {F : Type} `{Scalar F}.

Definition zero_point : vwap_point F := mk_vwap_point 0 (sc_of_int 0).

(** src/data/vwap_history.c, vwap_history_init *)
Definition vwap_history_init (capacity : Z) : vwap_history F :=
  {| vh_buffer := replicate (Z.to_nat capacity) zero_point;
     vh_capacity := capacity;
     vh_head_idx := 0;
     vh_tail_idx := 0;
     vh_size := 0 |}.

(** src/data/vwap_history.c, vwap_history_append *)
Definition vwap_history_append (h : vwap_history F) (minute_ts : Z) (v : F)
  : vwap_history F :=
  let h1 :=
    if vh_size h =? vh_capacity h then
      {| vh_buffer := vh_buffer h;
         vh_capacity := vh_capacity h;
         vh_head_idx := Z.rem (vh_head_idx h + 1) (vh_capacity h);
         vh_tail_idx := vh_tail_idx h;
         vh_size := vh_size h - 1 |}
    else h in
  {| vh_buffer :=
       <[Z.to_nat (vh_tail_idx h1) := mk_vwap_point minute_ts v]> (vh_buffer h1);
     vh_capacity := vh_capacity h1;
     vh_head_idx := vh_head_idx h1;
     vh_tail_idx := Z.rem (vh_tail_idx h1 + 1) (vh_capacity h1);
     vh_size := vh_size h1 + 1 |}.

(** [h->buffer[idx]] *)
Definition vh_at (h : vwap_history F) (idx : Z) : vwap_point F :=
  nth (Z.to_nat idx) (vh_buffer h) zero_point.

(** src/data/vwap_history.c, vwap_history_get_recent: [None] is the return
    value 0, [Some out] the return value 1 with the [n] points copied. *)
Definition vwap_history_get_recent (h : vwap_history F) (n : Z)
  : option (list (vwap_point F)) :=
  if vh_size h <? n then None
  else
    let start_idx_from_tail := Z.rem (vh_tail_idx h - n + vh_capacity h) (vh_capacity h) in
    Some (map (fun i => vh_at h (Z.rem (start_idx_from_tail + i) (vh_capacity h)))
              (for_range 0 (Z.to_nat n))).

Definition vh_wf (h : vwap_history F) : Prop :=
  0 < vh_capacity h < 2 ^ 30 /\
  length (vh_buffer h) = Z.to_nat (vh_capacity h) /\
  0 <= vh_head_idx h < vh_capacity h /\
  0 <= vh_size h <= vh_capacity h /\
  vh_tail_idx h = (vh_head_idx h + vh_size h) mod vh_capacity h.

(** The [size] stored points, oldest first. *)
Definition vh_live (h : vwap_history F) : list (vwap_point F) :=
  ring_slice zero_point (vh_buffer h) (vh_capacity h) (vh_head_idx h)
             (Z.to_nat (vh_size h)).

(** Appending a list of points, oldest first. *)
Definition append_all (h : vwap_history F) (pts : list (vwap_point F))
  : vwap_history F :=
  fold_left (fun h p => vwap_history_append h (minute_ts_ms p) (vwap p)) pts h.

(** A history of the given capacity holding the given points. *)
Definition history_of (capacity : Z) (pts : list (vwap_point F)) : vwap_history F :=
  append_all (vwap_history_init capacity) pts.

(** What the minute-driven writer produces: stamps are whole minutes, each
    later than the one before, none after [current_minute]. *)
Fixpoint minute_driven (current_minute : Z) (l : list (vwap_point F)) : Prop :=
  match l with
  | [] => True
  | p :: rest =>
      minute_ts_ms p mod MS_PER_MINUTE = 0 /\
      minute_ts_ms p <= current_minute /\
      match rest with
      | [] => True
      | q :: _ => minute_ts_ms p < minute_ts_ms q
      end /\
      minute_driven current_minute rest
  end.

End Model.
End History.
(** ** src/compute/correlation.c *)

Module Correlation.
Import History.
Section Model.
Context {F : Type} `{Scalar F}.

(** [x[i]] of a [double] array. *)
Definition vec_at (x : list F) (i : Z) : F := nth (Z.to_nat i) x (sc_of_int 0).

(** The five running sums of pearson_correlation. *)
Record pearson_sums := mk_pearson_sums {
  sum_x : F; sum_y : F; sum_xx : F; sum_yy : F; sum_xy : F
}.

(** One iteration of the summation loop. *)
Definition pearson_step (x y : list F) (s : pearson_sums) (i : Z) : pearson_sums :=
  {| sum_x := sc_add (sum_x s) (vec_at x i);
     sum_y := sc_add (sum_y s) (vec_at y i);
     sum_xx := sc_add (sum_xx s) (sc_mul (vec_at x i) (vec_at x i));
     sum_yy := sc_add (sum_yy s) (sc_mul (vec_at y i) (vec_at y i));
     sum_xy := sc_add (sum_xy s) (sc_mul (vec_at x i) (vec_at y i)) |}.

Definition pearson_loop (x y : list F) (n : Z) : pearson_sums :=
  fold_left (pearson_step x y) (for_range 0 (Z.to_nat n))
    (mk_pearson_sums (sc_of_int 0) (sc_of_int 0) (sc_of_int 0) (sc_of_int 0)
                     (sc_of_int 0)).

(** [n * sum_xy - sum_x * sum_y] *)
Definition pearson_numerator (n : Z) (s : pearson_sums) : F :=
  sc_sub (sc_mul (sc_of_int n) (sum_xy s)) (sc_mul (sum_x s) (sum_y s)).

(** [sqrt((n * sum_xx - sum_x * sum_x) * (n * sum_yy - sum_y * sum_y))] *)
Definition pearson_denominator (n : Z) (s : pearson_sums) : F :=
  sc_sqrt
    (sc_mul (sc_sub (sc_mul (sc_of_int n) (sum_xx s)) (sc_mul (sum_x s) (sum_x s)))
            (sc_sub (sc_mul (sc_of_int n) (sum_yy s)) (sc_mul (sum_y s) (sum_y s)))).

(** src/compute/correlation.c, pearson_correlation *)
Definition pearson_correlation (x y : list F) (n : Z) : F :=
  let s := pearson_loop x y n in
  let numerator := pearson_numerator n s in
  let denominator := pearson_denominator n s in
  if sc_eqb denominator (sc_of_int 0) then sc_nan
  else sc_div numerator denominator.

(** [window_start_idx] of the search loop. *)
Definition lag_window_start (h : vwap_history F) (window_len offset : Z) : Z :=
  Z.rem (vh_head_idx h + vh_size h - window_len - offset) (vh_capacity h).

(** [target_vec], filled by the inner loop. *)
Definition lag_target_vec (h : vwap_history F) (window_len offset : Z) : list F :=
  map (fun i => vwap (vh_at h (Z.rem (lag_window_start h window_len offset + i)
                                     (vh_capacity h))))
      (for_range 0 (Z.to_nat window_len)).

(** [target_hist->buffer[end_idx].minute_ts_ms] *)
Definition lag_end_minute (h : vwap_history F) (window_len offset : Z) : Z :=
  minute_ts_ms
    (vh_at h (Z.rem (lag_window_start h window_len offset + window_len - 1)
                    (vh_capacity h))).

(** The correlation computed for one offset. *)
Definition lag_corr (src_vec : list F) (h : vwap_history F)
    (window_len offset : Z) : F :=
  pearson_correlation src_vec (lag_target_vec h window_len offset) window_len.

(** [best_corr_val], [best_end_minute_ms], [found_match]. *)
Definition lag_state : Type := F * Z * bool.

(** Body of the search loop for one [offset]. *)
Definition lag_step (src_vec : list F) (h : vwap_history F) (window_len : Z)
    (st : lag_state) (offset : Z) : lag_state :=
  let '(best_corr_val, best_end_minute_ms, found_match) := st in
  let corr := lag_corr src_vec h window_len offset in
  if negb (sc_isnan corr) then
    if negb found_match || sc_gtb (sc_abs corr) (sc_abs best_corr_val) then
      (corr, lag_end_minute h window_len offset, true)
    else st
  else st.

(** The offsets visited by [for (offset = lo; offset <= hi; ++offset)]. *)
Definition offsets (lo hi : Z) : list Z := for_range lo (Z.to_nat (hi - lo + 1)).

(** [max_search_offset] *)
Definition max_search_offset (h : vwap_history F) (window_len max_lag_min : Z) : Z :=
  let max_offset_min := vh_size h - window_len in
  if max_lag_min <? max_offset_min then max_lag_min else max_offset_min.

(** src/compute/correlation.c, find_best_lagged_correlation: the pair
    [( *out_corr, *out_minute_ts_ms )]. *)
Definition find_best_lagged_correlation (src_vec : list F) (target_hist : vwap_history F)
    (window_len min_offset_min max_lag_min : Z) : F * Z :=
  let hist_len := vh_size target_hist in
  if hist_len <? window_len + min_offset_min then (sc_nan, 0)
  else
    let '(best_corr_val, best_end_minute_ms, found_match) :=
      fold_left (lag_step src_vec target_hist window_len)
                (offsets min_offset_min
                         (max_search_offset target_hist window_len max_lag_min))
                (sc_of_int 0, 0, false) in
    if found_match then (best_corr_val, best_end_minute_ms) else (sc_nan, 0).

(** [symbols[j]] *)
Definition symbol_at (symbols : list (symbol_data F)) (j : Z) : symbol_data F :=
  nth (Z.to_nat j) symbols
      (mk_symbol_data EmptyString Window.sliding_window_init (vwap_history_init 0) (-1)).

(** [min_offset_min] chosen for target [j] when the source is [i]. *)
Definition self_min_offset (i j : Z) : Z :=
  if i =? j then MOVING_AVG_POINTS else 0.

(** [best_corr_for_symbol], [best_ts_for_symbol], [best_j], [found_any]. *)
Definition target_state : Type := F * Z * Z * bool.

(** Body of the loop over target symbols [j]. *)
Definition target_step (symbols : list (symbol_data F)) (src_vwap_vec : list F)
    (i : Z) (st : target_state) (j : Z) : target_state :=
  let '(best_corr_for_symbol, best_ts_for_symbol, best_j, found_any) := st in
  let '(current_best_corr, current_best_ts) :=
    find_best_lagged_correlation src_vwap_vec (sd_vwap_hist (symbol_at symbols j))
      MOVING_AVG_POINTS (self_min_offset i j) MAX_LAG_MINUTES in
  if negb (sc_isnan current_best_corr) then
    if negb found_any
       || sc_gtb (sc_abs current_best_corr) (sc_abs best_corr_for_symbol) then
      (current_best_corr, current_best_ts, j, true)
    else st
  else st.

(** Body of the loop over source symbols [i] in correlation_worker_fn: the
    index [best_j] and the row handed to correlation_log_append_csv, if any. *)
Definition correlation_for_symbol (symbols : list (symbol_data F))
    (current_minute_ms : Z) (i : Z) : option (Z * correlation_row F) :=
  match vwap_history_get_recent (sd_vwap_hist (symbol_at symbols i)) MOVING_AVG_POINTS with
  | None => None
  | Some src_points_buf =>
      let src_vwap_vec := map vwap src_points_buf in
      let '(best_corr_for_symbol, best_ts_for_symbol, best_j, found_any) :=
        fold_left (target_step symbols src_vwap_vec i)
                  (for_range 0 (Z.to_nat NUM_SYMBOLS))
                  (sc_of_int 0, 0, -1, false) in
      if found_any then
        Some (best_j,
              mk_correlation_row i current_minute_ms
                (sd_symbol (symbol_at symbols best_j))
                best_corr_for_symbol best_ts_for_symbol)
      else None
  end.

(** One tick of correlation_worker_fn: the rows appended, in order. *)
Definition correlation_worker_tick (symbols : list (symbol_data F))
    (current_minute_ms : Z) : list (correlation_row F) :=
  flat_map (fun i => match correlation_for_symbol symbols current_minute_ms i with
                     | Some (_, row) => [row]
                     | None => []
                     end)
           (for_range 0 (Z.to_nat NUM_SYMBOLS)).

(** src/compute/vwap_calculator.c, one tick of vwap_worker_fn: each symbol's
    snapshot is appended to its history as it is. *)
Definition vwap_worker_tick (symbols : list (symbol_data F))
    (current_minute_ms : Z) : list (symbol_data F) :=
  map (fun s =>
         let v := Window.sliding_window_snapshot_vwap (sd_trade_window s) in
         mk_symbol_data (sd_symbol s) (sd_trade_window s)
           (vwap_history_append (sd_vwap_hist s) current_minute_ms v)
           (sd_trade_log_fd s))
      symbols.

(** The window of [window_len] points that ends [offset] points before the
    newest one, read off the chronological list of points. *)
Definition window_at (pts : list (vwap_point F)) (window_len offset : Z)
  : list (vwap_point F) :=
  take (Z.to_nat window_len)
       (drop (Z.to_nat (Z.of_nat (length pts) - window_len - offset)) pts).

End Model.
End Correlation.
(** ** The lagged search as the specification words it *)

Module CorrelationSpec.
Import History Correlation Magnitude.

(** [res] is the best of the candidates [corr o], [lo <= o <= hi]: NaN and no
    timestamp when every candidate is NaN; otherwise the candidate of largest
    magnitude among those that are not NaN, the smallest such offset on ties,
    paired with the end timestamp of its window. *)
Definition is_best_lag (corr : Z -> float) (ends : Z -> Z) (lo hi : Z)
    (res : float * Z) : Prop :=
  ((forall o, lo <= o <= hi -> PrimFloat.is_nan (corr o) = true) /\
   res = (PrimFloat.nan, 0))
  \/
  (exists o, lo <= o <= hi /\ PrimFloat.is_nan (corr o) = false /\
     res = (corr o, ends o) /\
     (forall o', lo <= o' <= hi -> PrimFloat.is_nan (corr o') = false ->
                 abs_le (corr o') (corr o)) /\
     (forall o', lo <= o' < o -> PrimFloat.is_nan (corr o') = false ->
                 abs_lt (corr o') (corr o))).

(** [minute_ts_ms] of the last point of a window. *)
Definition window_end_minute (win : list (vwap_point float)) : Z :=
  match last win with
  | Some p => minute_ts_ms p
  | None => 0
  end.

(** The sum of [f 0 .. f (n - 1)], accumulated from 0 in index order. *)
Fixpoint sigma (n : nat) (f : nat -> float) : float :=
  match n with
  | O => 0%float
  | S k => PrimFloat.add (sigma k f) (f k)
  end.

(** Entry [k] of a vector. *)
Definition entry (x : list float) (k : nat) : float := nth k x 0%float.

(** The Pearson coefficient as the specification writes it:
    num = n * Sxy - Sx * Sy,
    den = sqrt((n * Sxx - Sx^2) * (n * Syy - Sy^2)),
    c = num / den, or NaN if den == 0. *)
Definition pearson_formula (x y : list float) (n : Z) : float :=
  let m := Z.to_nat n in
  let nd := double_of_int n in
  let Sx := sigma m (fun k => entry x k) in
  let Sy := sigma m (fun k => entry y k) in
  let Sxx := sigma m (fun k => PrimFloat.mul (entry x k) (entry x k)) in
  let Syy := sigma m (fun k => PrimFloat.mul (entry y k) (entry y k)) in
  let Sxy := sigma m (fun k => PrimFloat.mul (entry x k) (entry y k)) in
  let num := PrimFloat.sub (PrimFloat.mul nd Sxy) (PrimFloat.mul Sx Sy) in
  let den :=
    PrimFloat.sqrt
      (PrimFloat.mul (PrimFloat.sub (PrimFloat.mul nd Sxx) (PrimFloat.mul Sx Sx))
                     (PrimFloat.sub (PrimFloat.mul nd Syy) (PrimFloat.mul Sy Sy))) in
  if PrimFloat.eqb den 0%float then PrimFloat.nan else PrimFloat.div num den.

(** best_lagged(src, hist, P, min_off, max_off_cap) over the chronological
    list of the history's points, each candidate being the Pearson
    coefficient of the formula above. *)
Definition best_lagged_spec (src : list float) (pts : list (vwap_point float))
    (P min_off max_off_cap : Z) (res : float * Z) : Prop :=
  let size := Z.of_nat (length pts) in
  if size <? P + min_off then res = (PrimFloat.nan, 0)
  else
    is_best_lag
      (fun o => pearson_formula src (map vwap (window_at pts P o)) P)
      (fun o => window_end_minute (window_at pts P o))
      min_off (Z.min (size - P) max_off_cap) res.

(** The variance term [n * Sxx - Sx^2] of a vector, in doubles. *)
Definition variance_term (x : list float) (n : Z) : float :=
  let m := Z.to_nat n in
  PrimFloat.sub
    (PrimFloat.mul (double_of_int n)
       (sigma m (fun k => PrimFloat.mul (entry x k) (entry x k))))
    (PrimFloat.mul (sigma m (fun k => entry x k)) (sigma m (fun k => entry x k))).

(** What the coefficient of a vector with itself comes to: [V / sqrt(V * V)],
    NaN when [sqrt(V * V)] is zero. *)
Definition self_ratio (V : float) : float :=
  if PrimFloat.eqb (PrimFloat.sqrt (PrimFloat.mul V V)) 0%float then PrimFloat.nan
  else PrimFloat.div V (PrimFloat.sqrt (PrimFloat.mul V V)).

(** The history contains a NaN point in the window at [offset]. *)
Definition window_has_nan (pts : list (vwap_point float)) (P offset : Z) : Prop :=
  exists p, In p (window_at pts P offset) /\ PrimFloat.is_nan (vwap p) = true.

(** *** Loop invariants of the two searches *)

(** State of the search after the offsets [lo .. lo + n - 1]. *)
Definition search_inv (src : list float) (h : vwap_history float) (P : Z)
    (lo : Z) (n : nat) (st : lag_state (F := float)) : Prop :=
  let '(b, ts, found) := st in
  if found then
    exists o, lo <= o < lo + Z.of_nat n /\
      PrimFloat.is_nan (lag_corr src h P o) = false /\
      b = lag_corr src h P o /\ ts = lag_end_minute h P o /\
      (forall o', lo <= o' < lo + Z.of_nat n ->
                  PrimFloat.is_nan (lag_corr src h P o') = false ->
                  abs_le (lag_corr src h P o') (lag_corr src h P o)) /\
      (forall o', lo <= o' < o ->
                  PrimFloat.is_nan (lag_corr src h P o') = false ->
                  abs_lt (lag_corr src h P o') (lag_corr src h P o))
  else
    forall o, lo <= o < lo + Z.of_nat n ->
              PrimFloat.is_nan (lag_corr src h P o) = true.

(** The search result for target [j]. *)
Definition target_result (symbols : list (symbol_data float)) (src : list float)
    (i j : Z) : float * Z :=
  find_best_lagged_correlation src (sd_vwap_hist (symbol_at symbols j))
    MOVING_AVG_POINTS (self_min_offset i j) MAX_LAG_MINUTES.

(** State of the loop over targets after [j = 0 .. n - 1]. *)
Definition target_inv (symbols : list (symbol_data float)) (src : list float)
    (i : Z) (n : nat) (st : target_state (F := float)) : Prop :=
  let '(b, ts, best_j, found) := st in
  if found then
    0 <= best_j < Z.of_nat n /\ target_result symbols src i best_j = (b, ts) /\
    PrimFloat.is_nan b = false
  else
    forall j, 0 <= j < Z.of_nat n -> PrimFloat.is_nan (fst (target_result symbols src i j)) = true.

(** *** Example data *)

Definition points_of (vs : list float) : list (vwap_point float) :=
  map (fun '(k, v) => mk_vwap_point (Z.of_nat (S k) * MS_PER_MINUTE) v)
      (zip (seq 0 (length vs)) vs).

Definition symbol_with (name : string) (vs : list float) : symbol_data float :=
  mk_symbol_data name Window.sliding_window_init
    (history_of VWAP_HISTORY_SIZE_MINUTES (points_of vs)) 3.

(** The double nearest to 0.1. *)
Definition tenth : float := 0x1.999999999999ap-4%float.

(** Eight minutes of a flat VWAP for BTC-USDT next to eight minutes of a
    moving one for ADA-USDT; the other symbols have no history yet. *)
Definition flat_source_symbols : list (symbol_data float) :=
  [ symbol_with "BTC-USDT" [tenth; tenth; tenth; tenth; tenth; tenth; tenth; tenth];
    symbol_with "ADA-USDT" [1; 2; 3; 4; 5; 6; 7; 9]%float;
    symbol_with "ETH-USDT" []; symbol_with "DOGE-USDT" [];
    symbol_with "XRP-USDT" []; symbol_with "SOL-USDT" [];
    symbol_with "LTC-USDT" []; symbol_with "BNB-USDT" [] ].

(** Sixteen minutes of history for BTC-USDT alone (scenario S4). *)
Definition sixteen_minutes : list float :=
  [1; 3; 2; 5; 4; 7; 6; 9; 2; 4; 3; 6; 5; 8; 7; 11]%float.

Definition self_only_symbols : list (symbol_data float) :=
  [ symbol_with "BTC-USDT" sixteen_minutes;
    symbol_with "ADA-USDT" []; symbol_with "ETH-USDT" [];
    symbol_with "DOGE-USDT" []; symbol_with "XRP-USDT" [];
    symbol_with "SOL-USDT" []; symbol_with "LTC-USDT" [];
    symbol_with "BNB-USDT" [] ].

(** The row written for BTC-USDT at minute 16 of [self_only_symbols]. *)
Definition self_only_row : correlation_row float :=
  match correlation_for_symbol self_only_symbols (16 * MS_PER_MINUTE) 0 with
  | Some (_, row) => row
  | None => mk_correlation_row 0 0 EmptyString PrimFloat.nan 0
  end.

(** A symbol whose window is still empty, with two earlier minutes of
    history. *)
Definition idle_symbol : symbol_data float :=
  symbol_with "BNB-USDT" [1; 2]%float.

(** The last eight minutes of BTC-USDT contain a minute without trades. *)
Definition gap_symbols : list (symbol_data float) :=
  [ symbol_with "BTC-USDT" [1; 3; 2; 5; PrimFloat.nan; 7; 6; 9]%float;
    symbol_with "ADA-USDT" [1; 2; 3; 4; 5; 6; 7; 9]%float;
    symbol_with "ETH-USDT" []; symbol_with "DOGE-USDT" [];
    symbol_with "XRP-USDT" []; symbol_with "SOL-USDT" [];
    symbol_with "LTC-USDT" []; symbol_with "BNB-USDT" [] ].

(** A vector that is not constant: its last entry is one unit in the last
    place above 100. *)
Definition nearly_flat : list float :=
  [100; 100; 100; 100; 100; 100; 100; 0x1.9000000000001p+6]%float.

(** The sums of pearson_correlation with the roles of x and y exchanged. *)
Definition swap_sums {F : Type} (s : pearson_sums (F := F)) : pearson_sums (F := F) :=
  mk_pearson_sums (sum_y s) (sum_x s) (sum_yy s) (sum_xx s) (sum_xy s).

(** A vector that is not constant: its first entry is one unit in the last
    place above 0.3, the others are the double nearest to 0.3. *)
Definition just_above_flat : list float :=
  [0x1.3333333333334p-2; 0x1.3333333333333p-2; 0x1.3333333333333p-2;
   0x1.3333333333333p-2; 0x1.3333333333333p-2; 0x1.3333333333333p-2;
   0x1.3333333333333p-2; 0x1.3333333333333p-2]%float.

(** Sixteen minutes of a VWAP that repeats every four minutes. *)
Definition four_minute_cycle : list float :=
  [1; 3; 2; 5; 1; 3; 2; 5; 1; 3; 2; 5; 1; 3; 2; 5]%float.

End CorrelationSpec.
(** ** src/network/okx_parser.c *)

Module Parser.

(** C strings are [string]s without their terminator; a [char *] into a
    string is the suffix it points at, [NULL] is [None]. *)

Definition dquote : ascii := "034"%char.

(** The key literals of the parser: a name between double quotes. *)
Definition quoted (s : string) : string :=
  String dquote (s ++ String dquote EmptyString).

(** strstr(3) *)
Fixpoint strstr (haystack needle : string) : option string :=
  if String.prefix needle haystack then Some haystack
  else match haystack with
       | EmptyString => None
       | String _ rest => strstr rest needle
       end.

(** strchr(3), for a character other than the terminator *)
Fixpoint strchr (s : string) (c : ascii) : option string :=
  match s with
  | EmptyString => None
  | String a rest => if Ascii.eqb a c then Some s else strchr rest c
  end.

(** [p++] *)
Definition advance (p : string) : string :=
  match p with
  | EmptyString => EmptyString
  | String _ rest => rest
  end.

(** [*p == ' ' || *p == '\t' || *p == '\n' || *p == '\r'] *)
Definition is_json_space (a : ascii) : bool :=
  Ascii.eqb a " "%char || Ascii.eqb a "009"%char
  || Ascii.eqb a "010"%char || Ascii.eqb a "013"%char.

Fixpoint skip_spaces (p : string) : string :=
  match p with
  | String a rest => if is_json_space a then skip_spaces rest else p
  | EmptyString => p
  end.

(** json_extract_string: the value copied to [out] and the returned cursor
    just after the closing quote. *)
Definition json_extract_string (json key : string) (outsz : nat)
  : option (string * string) :=
  match strstr json key with
  | None => None
  | Some p =>
      match strchr p ":"%char with
      | None => None
      | Some p =>
          match skip_spaces (advance p) with
          | EmptyString => None
          | String a p =>
              if negb (Ascii.eqb a dquote) then None
              else
                match strchr p dquote with
                | None => None
                | Some end_ =>
                    let len := (String.length p - String.length end_)%nat in
                    let len := if (outsz <=? len)%nat then (outsz - 1)%nat else len in
                    Some (substring 0 len p, advance end_)
                end
          end
      end
  end.

(** The loop mapping [inst_id] to its index in [SYMBOLS]. *)
Fixpoint find_symbol (inst_id : string) (syms : list string) (i : Z) : option Z :=
  match syms with
  | [] => None
  | s :: rest => if String.eqb inst_id s then Some i else find_symbol inst_id rest (i + 1)
  end.

(** [*endp != '\0'] *)
Definition not_at_end (endp : string) : bool :=
  match endp with
  | EmptyString => false
  | String _ _ => true
  end.

Section Libc.
(** strtod(3) and strtoll(3, base 10) of the C library: the value, the
    unparsed rest [endp] and whether [errno] was set. *)
Variable strtod : string -> float * string * bool.
Variable strtoll : string -> Z * string * bool.

(** parse_okx_trade up to and including the size (lines 96-168): the symbol
    index, price, size and the cursor after the size field. *)
Definition parse_trade_head (json : string) : option (Z * float * float * string) :=
  match strstr json (quoted "data") with
  | None => None
  | Some data_arr_start =>
  match strchr data_arr_start "["%char with
  | None => None
  | Some data_arr_start =>
  match strchr (advance data_arr_start) "{"%char with
  | None => None
  | Some trade_obj_start =>
  match json_extract_string trade_obj_start (quoted "instId") 32 with
  | None => None
  | Some (inst_id, cursor) =>
  match find_symbol inst_id SYMBOLS 0 with
  | None => None
  | Some symbol_idx =>
  match json_extract_string cursor (quoted "px") 32 with
  | None => None
  | Some (price_str, cursor) =>
  let '(price, endp, err) := strtod price_str in
  if err || not_at_end endp || PrimFloat.leb price 0 then None
  else
  match json_extract_string cursor (quoted "sz") 32 with
  | None => None
  | Some (size_str, cursor) =>
  let '(size, endp, err) := strtod size_str in
  if err || not_at_end endp || PrimFloat.leb size 0 then None
  else Some (symbol_idx, price, size, cursor)
  end end end end end end end.

(** The timestamp stage (lines 170-188); [now] is what now_ms() returns. *)
Definition parse_trade_timestamp (now : Z) (cursor : string) : Z :=
  match json_extract_string cursor (quoted "ts") 32 with
  | Some (ts_str, _) =>
      let '(ts_ms, endp, err) := strtoll ts_str in
      if err || not_at_end endp || (ts_ms <=? 0) then now else ts_ms
  | None => now
  end.

(** src/network/okx_parser.c, parse_okx_trade: [None] is the return value 0,
    [Some msg'] the return value 1 with the message populated. *)
Definition parse_okx_trade (now : Z) (json : string) (msg : raw_trade_message)
  : option raw_trade_message :=
  match parse_trade_head json with
  | None => None
  | Some (symbol_idx, price, size, cursor) =>
      Some {| msg_symbol_index := symbol_idx;
              msg_exchange_ts_ms := parse_trade_timestamp now cursor;
              msg_price := price;
              msg_size := size;
              msg_raw_json := msg_raw_json msg;
              msg_receive_ts_ms := msg_receive_ts_ms msg |}
  end.

(** The "ts" field after [cursor] is missing or fails the integer
    validation. *)
Definition ts_missing_or_invalid (cursor : string) : Prop :=
  match json_extract_string cursor (quoted "ts") 32 with
  | None => True
  | Some (ts_str, _) =>
      let '(ts_ms, endp, err) := strtoll ts_str in
      err = true \/ not_at_end endp = true \/ ts_ms <= 0
  end.

End Libc.

(** *** Readers of plain decimal literals, for the examples

    They agree with strtod and strtoll on unsigned decimal literals that are
    short enough not to round or overflow (digits, at most one point). *)

Definition digit_of (a : ascii) : option Z :=
  let n := Z.of_nat (nat_of_ascii a) in
  if (48 <=? n) && (n <=? 57) then Some (n - 48) else None.

Fixpoint read_digits (s : string) (acc : Z) (count : nat) : Z * nat * string :=
  match s with
  | String a rest =>
      match digit_of a with
      | Some d => read_digits rest (acc * 10 + d) (S count)
      | None => (acc, count, s)
      end
  | EmptyString => (acc, count, s)
  end.

Definition decimal_strtoll (s : string) : Z * string * bool :=
  let '(v, n, rest) := read_digits s 0 0 in
  if (n =? 0)%nat then (0, s, false)
  else if INT64_MAX <? v then (INT64_MAX, rest, true)
  else (v, rest, false).

Definition decimal_strtod (s : string) : float * string * bool :=
  let '(ip, n1, rest) := read_digits s 0 0 in
  match rest with
  | String "."%char frac =>
      let '(all, n2, rest') := read_digits frac ip 0 in
      if (n1 + n2 =? 0)%nat then (0%float, s, false)
      else (PrimFloat.div (double_of_int all) (double_of_int (10 ^ Z.of_nat n2)),
            rest', false)
  | _ => if (n1 =? 0)%nat then (0%float, s, false)
         else (double_of_int ip, rest, false)
  end.

(** A trade message of the exchange, with or without its "ts" field. *)
Definition field (k v : string) : string := quoted k ++ ":" ++ quoted v.

Definition trade_json (with_ts : option string) : string :=
  "{" ++ quoted "arg" ++ ":{" ++ field "channel" "trades" ++ ","
      ++ field "instId" "BTC-USDT" ++ "}," ++ quoted "data" ++ ":[{"
      ++ field "instId" "BTC-USDT" ++ "," ++ field "px" "27340.8" ++ ","
      ++ field "sz" "0.0005" ++ "," ++ field "side" "sell"
      ++ match with_ts with
         | Some ts => "," ++ field "ts" ts
         | None => EmptyString
         end
      ++ "}]}".

(** What follows the size field in [trade_json None]. *)
Definition after_size : string := "," ++ field "side" "sell" ++ "}]}".

(** The doubles nearest to 27340.8 and 0.0005. *)
Definition px_27340_8 : float := 0x1.ab33333333333p+14%float.
Definition sz_0_0005 : float := 0x1.0624dd2f1a9fcp-11%float.

(** The message slot handed to the parser by the trade processor. *)
Definition received (json : string) (receive_ts : Z) : raw_trade_message :=
  mk_raw_trade_message 0 0 0%float 0%float json receive_ts.

End Parser.
(** ** Further operations of the pipeline *)

(** The last [n] elements of a list: what a ring of [n] usable slots keeps. *)
Definition keep_last {A} (n : nat) (l : list A) : list A :=
  drop (length l - n) l.

Module QueueDrain.
Import Queue.

(** [n] calls of raw_queue_pop by the consumer: the messages obtained, in
    order, and the ring left behind; it stops at the first call that does not
    return a message. *)
Fixpoint pop_n (n : nat) (shutdown_requested : bool) (queue : raw_trade_queue)
  : list raw_trade_message * raw_trade_queue :=
  match n with
  | O => ([], queue)
  | S n' =>
      match raw_queue_pop shutdown_requested queue with
      | PopGot m q' =>
          let '(ms, q'') := pop_n n' shutdown_requested q' in (m :: ms, q'')
      | _ => ([], queue)
      end
  end.

(** A ring of four slots holding messages #1 and #2. *)
Definition two_queued : raw_trade_queue :=
  mk_raw_trade_queue [numbered 1; numbered 2; zero_message; zero_message] 4 0 2.

End QueueDrain.

(** ** src/utils/time_utils.c and the timing arithmetic of the scheduler *)

Module Tick.
Import Scheduler.

(** [struct timespec] *)
Record timespec := mk_timespec {
  tv_sec : Z;
  tv_nsec : Z
}.

(** What clock_gettime guarantees about its result. *)
Definition timespec_valid (ts : timespec) : Prop :=
  0 <= tv_sec ts /\ 0 <= tv_nsec ts < NS_PER_SEC.

(** src/utils/time_utils.c, now_ms, as a function of the clock reading:
    [(int64_t)ts.tv_sec * 1000 + ts.tv_nsec / 1000000] *)
Definition now_ms_of (ts : timespec) : Z :=
  wrap64s (wrap64s (tv_sec ts * 1000) + Z.quot (tv_nsec ts) 1000000).

(** src/utils/time_utils.c, now_monotonic_ns, as a function of the clock
    reading: [(int64_t)ts.tv_sec * NS_PER_SEC + ts.tv_nsec] *)
Definition now_monotonic_ns_of (ts : timespec) : Z :=
  wrap64s (wrap64s (tv_sec ts * NS_PER_SEC) + tv_nsec ts).

(** src/scheduler/scheduler.c, the catch-up loop
    [while (scheduled_time_ns <= now_ns) scheduled_time_ns += PERIOD_NS;] *)
Fixpoint catch_up (fuel : nat) (scheduled_time_ns now_ns : Z) : option Z :=
  if scheduled_time_ns <=? now_ns then
    match fuel with
    | O => None
    | S fuel' => catch_up fuel' (wrap64s (scheduled_time_ns + PERIOD_NS)) now_ns
    end
  else Some scheduled_time_ns.

(** Number of periods the loop adds. *)
Definition periods_behind (scheduled_time_ns now_ns : Z) : Z :=
  if scheduled_time_ns <=? now_ns
  then (now_ns - scheduled_time_ns) / PERIOD_NS + 1
  else 0.

(** src/scheduler/scheduler.c, the wake target: [scheduled - predicted],
    replaced by [now] when that is not in the future. *)
Definition target_wakeup_ns (scheduled_time_ns now_ns predicted_duration_ns : Z) : Z :=
  let target := wrap64s (scheduled_time_ns - predicted_duration_ns) in
  if target <=? now_ns then now_ns else target.

(** [wake_ts.tv_sec = target / NS_PER_SEC; wake_ts.tv_nsec = target % NS_PER_SEC] *)
Definition wake_ts (target_wakeup : Z) : timespec :=
  {| tv_sec := Z.quot target_wakeup NS_PER_SEC;
     tv_nsec := Z.rem target_wakeup NS_PER_SEC |}.

(** [current_minute_ms = (now_ms() / MS_PER_MINUTE) * MS_PER_MINUTE] *)
Definition minute_stamp (now_ms : Z) : Z :=
  wrap64s (Z.quot now_ms MS_PER_MINUTE * MS_PER_MINUTE).

(** The largest predicted duration the scheduler uses: EMA_MAX_NS, 100 ms. *)
Definition EMA_MAX_NS : Z := 100 * NS_PER_MS.

(** Wall-clock readings of successive ticks, each falling in a later minute
    than the one before and than [cm]. *)
Fixpoint ticks_in_new_minutes (cm : Z) (nows : list Z) : Prop :=
  match nows with
  | [] => True
  | now :: rest =>
      0 <= now <= INT64_MAX /\ cm < minute_stamp now /\
      ticks_in_new_minutes (minute_stamp now) rest
  end.

(** Every history is a well-formed ring whose points are minute-stamped, in
    increasing order, none after [cm]. *)
Definition histories_driven (cm : Z) (symbols : list (symbol_data float)) : Prop :=
  Forall (fun s => History.vh_wf (sd_vwap_hist s) /\
                   History.minute_driven cm (History.vh_live (sd_vwap_hist s)))
         symbols.

(** The ticks of the VWAP worker for a sequence of wall-clock readings, each
    stamped with its minute as the scheduler does. *)
Definition run_vwap_ticks (symbols : list (symbol_data float)) (nows : list Z)
  : list (symbol_data float) :=
  fold_left (fun s now => Correlation.vwap_worker_tick s (minute_stamp now))
            nows symbols.

End Tick.

(** ** src/network/websocket.c *)

Module Websocket.

(** [sizeof(msg.raw_json)] *)
Definition RAW_JSON_SIZE : nat := 1024.

(** LWS_CALLBACK_CLIENT_RECEIVE: the message built from a frame of [len]
    characters received at [recv_ts_ms].  The frame is taken to hold no NUL
    character, so that [raw_json] as a C string is the whole copy. *)
Definition receive_message (recv_ts_ms : Z) (payload : string) : raw_trade_message :=
  let len := String.length payload in
  let copy_len := if (len <? RAW_JSON_SIZE - 1)%nat then len else (RAW_JSON_SIZE - 1)%nat in
  mk_raw_trade_message 0 0 0%float 0%float (substring 0 copy_len payload) recv_ts_ms.

(** LWS_CALLBACK_CLIENT_RECEIVE: build the message and push it. *)
Definition on_client_receive (fuel : nat) (recv_ts_ms : Z) (payload : string)
    (queue : raw_trade_queue) : option raw_trade_queue :=
  Queue.raw_queue_push fuel queue (receive_message recv_ts_ms payload).

(** [const int MAX_RETRY_ATTEMPTS = 8;] *)
Definition MAX_RETRY_ATTEMPTS : Z := 8.

(** The globals [reconnect_attempts] and [reconnect_backoff_s]. *)
Record reconnect_state := mk_reconnect_state {
  reconnect_attempts : Z;
  reconnect_backoff_s : Z
}.

(** The globals as the loader leaves them, before any connection. *)
Definition never_connected : reconnect_state := mk_reconnect_state 0 0.

(** LWS_CALLBACK_CLIENT_ESTABLISHED resets the two counters. *)
Definition on_established : reconnect_state := mk_reconnect_state 0 2.

Inductive reconnect_action :=
| GiveUp                      (* raise(SIGINT) *)
| RetryAfter (sleep_s : Z).   (* sleep(reconnect_backoff_s) *)

(** websocket_thread_fn, the branch taken when the connection failed or was
    lost ([int] arithmetic; the values stay far below 2^31). *)
Definition on_connection_lost (st : reconnect_state)
  : reconnect_action * reconnect_state :=
  let attempts := reconnect_attempts st + 1 in
  if MAX_RETRY_ATTEMPTS <? attempts then
    (GiveUp, mk_reconnect_state attempts (reconnect_backoff_s st))
  else
    (RetryAfter (reconnect_backoff_s st),
     mk_reconnect_state attempts (reconnect_backoff_s st * 2)).

(** [n] consecutive losses: the actions taken, in order. *)
Fixpoint losses (n : nat) (st : reconnect_state) : list reconnect_action :=
  match n with
  | O => []
  | S n' => let '(a, st') := on_connection_lost st in a :: losses n' st'
  end.

(** Seconds slept over a run of actions. *)
Definition total_sleep_s (actions : list reconnect_action) : Z :=
  fold_right (fun a acc => match a with
                           | RetryAfter s => s + acc
                           | GiveUp => acc
                           end) 0 actions.

End Websocket.

(** ** src/main.c: the trade processor *)

Module Processor.
Import Parser.

(** The seven columns of one line of performance/latency.csv. *)
Record latency_row := mk_latency_row {
  lat_symbol_index : Z;
  lat_exchange_ts_ms : Z;
  lat_recv_ts_ms : Z;
  lat_process_ts_ms : Z;
  lat_network : Z;
  lat_processing : Z;
  lat_total : Z
}.

(** src/logging/logger.c, log_latency_metrics: the line written, none when
    the descriptor is not open. *)
Definition log_latency_metrics (latency_log_fd symbol_index exchange_ts_ms
    recv_ts_ms process_ts_ms : Z) : option latency_row :=
  if latency_log_fd <? 0 then None
  else
    Some (mk_latency_row symbol_index exchange_ts_ms recv_ts_ms process_ts_ms
            (wrap64s (recv_ts_ms - exchange_ts_ms))
            (wrap64s (process_ts_ms - recv_ts_ms))
            (wrap64s (process_ts_ms - exchange_ts_ms))).

(** src/logging/logger.c, trade_log_append: the descriptor and the line
    written ([raw_json] and a newline), none when the descriptor is not
    open.  [raw_json] holds at most 1023 characters, so the 2048-byte line
    buffer never truncates. *)
Definition trade_log_append (symbols : list (symbol_data float))
    (symbol_index : Z) (msg : raw_trade_message) : option (Z * string) :=
  let fd := sd_trade_log_fd (Correlation.symbol_at symbols symbol_index) in
  if fd <? 0 then None
  else Some (fd, String.append (msg_raw_json msg) (String "010"%char EmptyString)).

(** What one iteration of the processor loop leaves behind. *)
Record processed := mk_processed {
  pr_symbols : list (symbol_data float);
  pr_trade_line : option (Z * string);
  pr_latency : option latency_row
}.

Section Libc.
Variable strtod : string -> float * string * bool.
Variable strtoll : string -> Z * string * bool.

(** src/main.c, trade_processor_thread_fn: the body of the loop for a popped
    message.  [now_parse] and [now_process] are the two readings of now_ms()
    the iteration may take. *)
Definition process_message (fuel : nat) (now_parse now_process latency_log_fd : Z)
    (symbols : list (symbol_data float)) (msg : raw_trade_message)
  : option processed :=
  match parse_okx_trade strtod strtoll now_parse (msg_raw_json msg) msg with
  | None => Some (mk_processed symbols None None)
  | Some msg =>
      let idx := msg_symbol_index msg in
      let line := trade_log_append symbols idx msg in
      let lat := log_latency_metrics latency_log_fd idx (msg_exchange_ts_ms msg)
                   (msg_receive_ts_ms msg) now_process in
      let s := Correlation.symbol_at symbols idx in
      match Window.sliding_window_add_trade fuel (sd_trade_window s)
              (msg_exchange_ts_ms msg) (msg_price msg) (msg_size msg) with
      | None => None
      | Some w =>
          Some (mk_processed
                  (<[Z.to_nat idx :=
                       mk_symbol_data (sd_symbol s) w (sd_vwap_hist s)
                                      (sd_trade_log_fd s)]> symbols)
                  line lat)
      end
  end.

End Libc.

End Processor.

(** ** What the window and the history are expected to hold *)

Module Recent.
Section Model.
Context {F : Type}.

(** The trades whose timestamp is within the window length of [newest]. *)
Definition recent_trades (newest : Z) (l : list (processed_trade F))
  : list (processed_trade F) :=
  List.filter (fun t => newest - WINDOW_MS <=? trade_ts_ms t) l.

(** Timestamp of the last trade fed, [prev] when none was. *)
Definition newest_ts (prev : Z) (trades : list (processed_trade F)) : Z :=
  default prev (trade_ts_ms <$> last trades).

End Model.

Section Naive.
Context {F : Type} `{Scalar F}.

(** The volume-weighted average price of a list of trades recomputed from
    scratch: the sums of price * size and of size, accumulated from 0 in
    arrival order, and their quotient; NaN when the volume is not positive. *)
Definition arrival_vwap (trades : list (processed_trade F)) : F :=
  let pv := fold_left (fun acc t => sc_add acc (sc_mul (pt_price t) (pt_size t)))
                      trades (sc_of_int 0) in
  let v := fold_left (fun acc t => sc_add acc (pt_size t)) trades (sc_of_int 0) in
  if sc_gtb v (sc_of_int 0) then sc_div pv v else sc_nan.

End Naive.

(** A ring of two slots, both taken. *)
Definition full_window : sliding_window float :=
  mk_sliding_window
    [mk_processed_trade 0 1%float 1%float; mk_processed_trade 1 2%float 1%float]
    2 0 0 2 3%float 2%float.

(** Three trades about a minute apart, at prices 0.1, 0.2, 0.3 and sizes 0.3,
    0.7, 1.1 (the nearest doubles). *)
Definition three_close_trades : list (processed_trade float) :=
  [ mk_processed_trade 1000 0x1.999999999999ap-4%float 0x1.3333333333333p-2%float;
    mk_processed_trade 2000 0x1.999999999999ap-3%float 0x1.6666666666666p-1%float;
    mk_processed_trade 61000 0x1.3333333333333p-2%float 0x1.199999999999ap+0%float ].

End Recent.

(** ** Messages for the parser *)

Module Wire.
Import Parser.

(** [c] occurs in [s]. *)
Fixpoint contains (c : ascii) (s : string) : bool :=
  match s with
  | EmptyString => false
  | String a rest => Ascii.eqb a c || contains c rest
  end.

(** [s] consists of the blanks the parser skips. *)
Fixpoint all_json_space (s : string) : bool :=
  match s with
  | EmptyString => true
  | String a rest => is_json_space a && all_json_space rest
  end.

(** A trade message in the layout documented above parse_okx_trade
    (okx_parser.c, lines 72-88), written compactly: no blanks and no instType
    entry; for the given instrument and field texts. *)
Definition okx_trade_message (inst px sz ts : string) : string :=
  "{" ++ quoted "arg" ++ ":{" ++ field "channel" "trades" ++ ","
      ++ field "instId" inst ++ "}," ++ quoted "data" ++ ":[{"
      ++ field "instId" inst ++ "," ++ field "px" px ++ ","
      ++ field "sz" sz ++ "," ++ field "side" "sell" ++ ","
      ++ field "ts" ts ++ "}]}".

End Wire.

(** ** The choice among target symbols *)

Module Strongest.
Import History Correlation CorrelationSpec Magnitude.

(** The best correlation found against target [j]. *)
Definition target_corr (symbols : list (symbol_data float)) (src : list float)
    (i j : Z) : float :=
  fst (target_result symbols src i j).

(** State of the loop over targets after [j = 0 .. n - 1]: the target kept is
    the one of largest magnitude so far, the first such on ties. *)
Definition strongest_inv (symbols : list (symbol_data float)) (src : list float)
    (i : Z) (n : nat) (st : target_state (F := float)) : Prop :=
  let '(b, ts, best_j, found) := st in
  if found then
    0 <= best_j < Z.of_nat n /\
    PrimFloat.is_nan (target_corr symbols src i best_j) = false /\
    target_result symbols src i best_j = (b, ts) /\
    (forall j, 0 <= j < Z.of_nat n ->
               PrimFloat.is_nan (target_corr symbols src i j) = false ->
               abs_le (target_corr symbols src i j) (target_corr symbols src i best_j)) /\
    (forall j, 0 <= j < best_j ->
               PrimFloat.is_nan (target_corr symbols src i j) = false ->
               abs_lt (target_corr symbols src i j) (target_corr symbols src i best_j))
  else
    forall j, 0 <= j < Z.of_nat n ->
              PrimFloat.is_nan (target_corr symbols src i j) = true.

End Strongest.
(* ===================================================================== *)
(** * Part II.  Properties                                                *)
(* ===================================================================== *)

(** ** Modular arithmetic of ring indices *)

Lemma mod_wrap (a c : Z) :
  0 < c -> 0 <= a < 2 * c -> a mod c = if a <? c then a else a - c.
Proof.
  intros Hc Ha. destruct (Z.ltb_spec a c).
  - apply Z.mod_small; lia.
  - symmetry. apply (Z.mod_unique_pos _ _ 1); lia.
Qed.

Lemma wrap32_small (z : Z) : 0 <= z < 2 ^ 32 -> wrap32 z = z.
Proof. intros; unfold wrap32; apply Z.mod_small; lia. Qed.

Lemma wrap64s_small (z : Z) : in_int64 z -> wrap64s z = z.
Proof.
  unfold in_int64, INT64_MIN, INT64_MAX, wrap64s; intros.
  rewrite Z.mod_small; lia.
Qed.

(** ** Ring slices *)

Section RingSlice.
Context {A : Type} (d : A).
Implicit Types (buf : list A) (cap head : Z) (n : nat).

Lemma ring_slice_length buf cap head n :
  length (ring_slice d buf cap head n) = n.
Proof. unfold ring_slice. rewrite length_map, length_seq. reflexivity. Qed.

Lemma ring_slice_S buf cap head n :
  ring_slice d buf cap head (S n) =
  ring_slice d buf cap head n
    ++ [nth (Z.to_nat ((head + Z.of_nat n) mod cap)) buf d].
Proof. unfold ring_slice. rewrite seq_S, map_app. reflexivity. Qed.

Lemma ring_slice_lookup buf cap head n (i : nat) :
  (i < n)%nat ->
  ring_slice d buf cap head n !! i =
  Some (nth (Z.to_nat ((head + Z.of_nat i) mod cap)) buf d).
Proof.
  intros Hi. unfold ring_slice.
  rewrite list_lookup_fmap, lookup_seq_lt by lia. reflexivity.
Qed.

Lemma ring_slice_ext buf buf' cap head n :
  (forall i, (i < n)%nat ->
     nth (Z.to_nat ((head + Z.of_nat i) mod cap)) buf d =
     nth (Z.to_nat ((head + Z.of_nat i) mod cap)) buf' d) ->
  ring_slice d buf cap head n = ring_slice d buf' cap head n.
Proof.
  intros H. unfold ring_slice. apply map_ext_in.
  intros i Hi. apply in_seq in Hi. apply H. lia.
Qed.

Lemma nth_insert_eq buf (i : nat) (v : A) :
  (i < length buf)%nat -> nth i (<[i := v]> buf) d = v.
Proof.
  intros. rewrite nth_lookup, list_lookup_insert_eq by assumption. reflexivity.
Qed.

Lemma nth_insert_ne buf (i j : nat) (v : A) :
  i <> j -> nth j (<[i := v]> buf) d = nth j buf d.
Proof.
  intros. rewrite !nth_lookup, list_lookup_insert_ne by assumption. reflexivity.
Qed.

(** Writing the slot just past the slice appends to it. *)
Lemma ring_slice_snoc buf cap head n (v : A) :
  0 < cap -> 0 <= head < cap -> (Z.of_nat n < cap) ->
  length buf = Z.to_nat cap ->
  ring_slice d (<[Z.to_nat ((head + Z.of_nat n) mod cap) := v]> buf) cap head (S n)
  = ring_slice d buf cap head n ++ [v].
Proof.
  intros Hc Hh Hn Hlen. rewrite ring_slice_S. f_equal.
  - apply ring_slice_ext. intros i Hi. apply nth_insert_ne.
    rewrite !mod_wrap by lia.
    repeat match goal with |- context [?a <? ?b] => destruct (Z.ltb_spec a b) end; lia.
  - f_equal. apply nth_insert_eq.
    pose proof (Z.mod_pos_bound (head + Z.of_nat n) cap Hc). lia.
Qed.

(** Advancing the head by one slot drops the first entry. *)
Lemma ring_slice_advance buf cap head n :
  0 < cap ->
  ring_slice d buf cap ((head + 1) mod cap) n
  = tail (ring_slice d buf cap head (S n)).
Proof.
  intros Hc. unfold ring_slice. simpl. rewrite <- seq_shift, map_map.
  apply map_ext. intros i. do 2 f_equal.
  rewrite Zplus_mod_idemp_l. f_equal. lia.
Qed.

Lemma ring_slice_cons buf cap head n :
  0 < cap -> 0 <= head < cap ->
  ring_slice d buf cap head (S n)
  = nth (Z.to_nat head) buf d :: ring_slice d buf cap ((head + 1) mod cap) n.
Proof.
  intros Hc Hh. rewrite ring_slice_advance by assumption.
  unfold ring_slice. simpl. rewrite Z.add_0_r, Z.mod_small by lia. reflexivity.
Qed.

End RingSlice.

Lemma mod_wrap3 (a c : Z) :
  0 < c -> - c <= a < 2 * c ->
  a mod c = if a <? 0 then a + c else if a <? c then a else a - c.
Proof.
  intros Hc Ha. destruct (Z.ltb_spec a 0).
  - symmetry. apply (Z.mod_unique_pos _ _ (-1)); lia.
  - apply mod_wrap; lia.
Qed.

(** Turns goals about ring indices into linear arithmetic: every [mod] whose
    argument is within one period of the range is replaced by a case split. *)
Ltac ring_idx_step :=
  first
    [ rewrite wrap32_small by lia
    | rewrite Z2Nat.id by lia
    | match goal with
      | |- context [?a mod ?c] =>
          lazymatch a with
          | context [_ mod _] => fail
          | _ => rewrite (mod_wrap3 a c) by lia
          end
      | |- context [if ?a <? ?b then _ else _] => destruct (Z.ltb_spec a b)
      | |- context [?a =? ?b] => destruct (Z.eqb_spec a b)
      end ].
Ltac ring_idx := repeat ring_idx_step; try lia; try congruence.

(** Splits the conjunctions that are written in the goal, without unfolding. *)
Ltac split_ands := repeat match goal with |- _ /\ _ => split end.

(** ** C3: the ingress ring *)

Module QueueProps.
Import Queue.

Lemma rq_full_size (queue : raw_trade_queue) :
  rq_wf queue ->
  rq_full queue = (rq_size queue =? rq_capacity queue - 1).
Proof.
  destruct queue as [buf cap h t]. unfold rq_wf, rq_full, rq_size; simpl.
  intros (Hc & _ & Hh & Ht). ring_idx.
Qed.

Lemma rq_advance_not_full (queue : raw_trade_queue) :
  rq_wf queue -> 2 <= rq_capacity queue ->
  rq_full queue = true -> rq_full (rq_advance_head queue) = false.
Proof.
  destruct queue as [buf cap h t]. unfold rq_wf, rq_full, rq_advance_head; simpl.
  intros (Hc & _ & Hh & Ht) H2.
  destruct (Z.eqb_spec (wrap32 (t + 1) mod cap) h) as [E|]; [|discriminate].
  intros _. apply Z.eqb_neq. revert E. ring_idx.
Qed.

(** The drop loop runs its body at most once. *)
Lemma raw_queue_drop_oldest_spec (fuel : nat) (queue : raw_trade_queue) :
  rq_wf queue -> 2 <= rq_capacity queue -> (1 <= fuel)%nat ->
  raw_queue_drop_oldest fuel queue =
  Some (if rq_full queue then rq_advance_head queue else queue).
Proof.
  intros Hwf H2 Hf. destruct fuel as [|fuel]; [lia|].
  simpl. destruct (rq_full queue) eqn:Efull; [|reflexivity].
  pose proof (rq_advance_not_full queue Hwf H2 Efull) as Hnf.
  destruct fuel; simpl; rewrite Hnf; reflexivity.
Qed.

(** With a single slot the ring is always full and the loop never exits. *)
Lemma raw_queue_drop_oldest_capacity_one (fuel : nat) (queue : raw_trade_queue) :
  rq_wf queue -> rq_capacity queue = 1 ->
  raw_queue_drop_oldest fuel queue = None.
Proof.
  revert queue. induction fuel as [|fuel IH]; intros [buf cap h t];
    unfold rq_wf; simpl; intros (Hc & Hl & Hh & Ht) ->; simpl in *.
  - unfold rq_full; simpl. rewrite Z.mod_1_r.
    destruct (Z.eqb_spec 0 h); [reflexivity|lia].
  - unfold rq_full at 1; simpl. rewrite Z.mod_1_r.
    destruct (Z.eqb_spec 0 h); [|lia].
    apply IH; [|reflexivity].
    unfold rq_wf, rq_advance_head; simpl. rewrite Z.mod_1_r. repeat split; lia || assumption.
Qed.

Lemma raw_queue_push_spec (fuel : nat) (queue : raw_trade_queue)
    (msg : raw_trade_message) :
  rq_wf queue -> 2 <= rq_capacity queue -> (1 <= fuel)%nat ->
  exists queue',
    raw_queue_push fuel queue msg = Some queue' /\
    rq_wf queue' /\
    rq_capacity queue' = rq_capacity queue /\
    rq_head_idx queue' =
      (if rq_full queue then (rq_head_idx queue + 1) mod rq_capacity queue
       else rq_head_idx queue) /\
    rq_tail_idx queue' = (rq_tail_idx queue + 1) mod rq_capacity queue /\
    rq_contents queue' =
      (if rq_full queue then tail (rq_contents queue) else rq_contents queue)
      ++ [msg].
Proof.
  intros Hwf H2 Hf. unfold raw_queue_push.
  rewrite (raw_queue_drop_oldest_spec fuel queue Hwf H2 Hf).
  pose proof (rq_full_size queue Hwf) as Hfs.
  destruct queue as [buf cap h t]. unfold rq_wf, rq_size, rq_contents in *; simpl in *.
  destruct Hwf as (Hc & Hl & Hh & Ht).
  pose proof (Z.mod_pos_bound (h + 1) cap ltac:(lia)) as Hb1.
  pose proof (Z.mod_pos_bound (t + 1) cap ltac:(lia)) as Hb2.
  destruct (rq_full _) eqn:Efull; simpl; eexists; (split; [reflexivity|]); simpl;
    unfold rq_size; simpl; rewrite ?wrap32_small by lia.
  - (* full: the oldest entry is dropped *)
    symmetry in Hfs. apply Z.eqb_eq in Hfs.
    repeat split; rewrite ?length_insert; try lia.
    assert (Hs' : ((t + 1) mod cap - (h + 1) mod cap) mod cap = cap - 1)
      by (revert Hfs; ring_idx).
    rewrite Hs', Hfs.
    replace (Z.to_nat (cap - 1)) with (S (Z.to_nat (cap - 2))) by lia.
    rewrite <- ring_slice_advance by lia.
    replace (Z.to_nat t)
      with (Z.to_nat (((h + 1) mod cap + Z.of_nat (Z.to_nat (cap - 2))) mod cap))
      by (f_equal; revert Hfs; ring_idx).
    apply ring_slice_snoc; lia.
  - (* room left *)
    symmetry in Hfs. apply Z.eqb_neq in Hfs.
    repeat split; rewrite ?length_insert; try lia.
    assert (Hs' : ((t + 1) mod cap - h) mod cap = (t - h) mod cap + 1)
      by (revert Hfs; ring_idx).
    rewrite Hs'.
    pose proof (Z.mod_pos_bound (t - h) cap ltac:(lia)) as Hb3.
    replace (Z.to_nat ((t - h) mod cap + 1)) with (S (Z.to_nat ((t - h) mod cap))) by lia.
    replace (Z.to_nat t)
      with (Z.to_nat ((h + Z.of_nat (Z.to_nat ((t - h) mod cap))) mod cap))
      by (f_equal; ring_idx).
    apply ring_slice_snoc; lia.
Qed.

Lemma raw_queue_pop_spec (shutdown : bool) (queue : raw_trade_queue) :
  rq_wf queue ->
  match rq_contents queue with
  | [] => raw_queue_pop shutdown queue =
          if shutdown then PopShutdownEmpty else PopWait
  | m :: rest =>
      exists queue', raw_queue_pop shutdown queue = PopGot m queue' /\
                     rq_wf queue' /\ rq_contents queue' = rest
  end.
Proof.
  destruct queue as [buf cap h t].
  unfold rq_wf, rq_contents, rq_size, raw_queue_pop; simpl.
  intros (Hc & Hl & Hh & Ht).
  pose proof (Z.mod_pos_bound (t - h) cap ltac:(lia)) as Hb.
  destruct (Z.eqb_spec h t) as [->|Hne].
  - rewrite Z.sub_diag, Z.mod_0_l by lia. reflexivity.
  - assert (Hpos : 0 < (t - h) mod cap) by ring_idx.
    replace (Z.to_nat ((t - h) mod cap))
      with (S (Z.to_nat ((t - h) mod cap - 1))) by lia.
    rewrite ring_slice_cons by lia.
    eexists; split; [reflexivity|]. simpl. rewrite wrap32_small by lia.
    pose proof (Z.mod_pos_bound (h + 1) cap ltac:(lia)).
    split; [repeat split; lia|].
    f_equal. f_equal. ring_idx.
Qed.

Lemma scenario_S3_holds (fuel : nat) : (1 <= fuel)%nat -> scenario_S3 fuel.
Proof.
  intros Hf. destruct fuel as [|fuel]; [lia|].
  unfold scenario_S3. do 4 eexists.
  split; [destruct fuel; vm_compute; reflexivity|].
  repeat split; vm_compute; reflexivity.
Qed.

(** C3.  raw_queue_push always returns (one unit of fuel is enough for its
    loop) and never fails: on a full ring it advances the head by one slot,
    which drops the oldest message, and then stores the new message at the
    tail.  In scenario S3 (Q = 4, pushes #1..#5, stalled consumer) the ring
    ends up holding #3, #4, #5, which are then popped in that order. *)
Theorem raw_queue_push_drop_oldest (fuel : nat) (queue : raw_trade_queue)
    (msg : raw_trade_message) :
  rq_wf queue -> 2 <= rq_capacity queue -> (1 <= fuel)%nat ->
  (exists queue',
     raw_queue_push fuel queue msg = Some queue' /\
     rq_wf queue' /\
     rq_head_idx queue' =
       (if rq_full queue then (rq_head_idx queue + 1) mod rq_capacity queue
        else rq_head_idx queue) /\
     rq_contents queue' =
       (if rq_full queue then tail (rq_contents queue) else rq_contents queue)
       ++ [msg] /\
     (forall shutdown,
        match rq_contents queue' with
        | [] => False
        | m :: rest =>
            exists queue'', raw_queue_pop shutdown queue' = PopGot m queue'' /\
                            rq_contents queue'' = rest
        end)) /\
  scenario_S3 fuel.
Proof.
  intros Hwf H2 Hf. split; [|apply scenario_S3_holds; assumption].
  destruct (raw_queue_push_spec fuel queue msg Hwf H2 Hf)
    as (q' & Hpush & Hwf' & Hcap & Hhead & Htail & Hcont).
  exists q'. do 4 (split; [assumption|]).
  intros shutdown. pose proof (raw_queue_pop_spec shutdown q' Hwf') as Hpop.
  destruct (rq_contents q') as [|m rest] eqn:E.
  - destruct (rq_full queue); [destruct (tail _)|destruct (rq_contents queue)];
      discriminate.
  - destruct Hpop as (q'' & Hp & _ & Hr). exists q''. split; assumption.
Qed.

Lemma raw_queue_push_drop_oldest_witness :
  exists queue',
    raw_queue_push 1 (raw_queue_init 4) (numbered 1) = Some queue' /\
    rq_contents queue' = [numbered 1].
Proof.
  destruct (raw_queue_push_drop_oldest 1 (raw_queue_init 4) (numbered 1))
    as [(q' & Hpush & _ & _ & Hcont & _) _].
  - unfold rq_wf; simpl; repeat split; lia.
  - simpl; lia.
  - lia.
  - exists q'. split; [exact Hpush | exact Hcont].
Defined.

End QueueProps.

(** ** C4: the scheduler's first minute boundary *)

Module SchedulerProps.
Import Scheduler.

Lemma initial_scheduled_time_ns_eq (now_ns : Z) :
  0 <= now_ns <= INT64_MAX - PERIOD_NS ->
  initial_scheduled_time_ns now_ns = (now_ns / PERIOD_NS + 1) * PERIOD_NS.
Proof.
  unfold initial_scheduled_time_ns, INT64_MAX, PERIOD_NS, NS_PER_MS. intros H.
  rewrite Z.quot_div_nonneg by lia.
  rewrite (wrap64s_small (_ + 1)), wrap64s_small; [reflexivity| |];
    unfold in_int64, INT64_MIN, INT64_MAX; Z.div_mod_to_equations; lia.
Qed.

(** C4 as the code has it.  For every reading of the monotonic clock the first
    [scheduled_time_ns] is the smallest multiple of the 60 s period that is
    strictly greater than the reading; a reading that lies exactly on a minute
    multiple is scheduled one whole period later. *)
Theorem initial_schedule_next_minute (now_ns : Z) :
  0 <= now_ns <= INT64_MAX - PERIOD_NS ->
  next_multiple_gt now_ns (initial_scheduled_time_ns now_ns) /\
  (now_ns mod PERIOD_NS = 0 ->
   initial_scheduled_time_ns now_ns = now_ns + PERIOD_NS).
Proof.
  intros H. rewrite initial_scheduled_time_ns_eq by assumption.
  unfold next_multiple_gt, INT64_MAX, PERIOD_NS, NS_PER_MS in *.
  repeat split.
  - apply Z.mod_mul. lia.
  - Z.div_mod_to_equations; lia.
  - intros m Hm Hlt. Z.div_mod_to_equations; lia.
  - intros Hm. Z.div_mod_to_equations; lia.
Qed.

Lemma initial_schedule_next_minute_witness :
  next_multiple_gt 90000000000 (initial_scheduled_time_ns 90000000000).
Proof.
  apply (initial_schedule_next_minute 90000000000).
  unfold INT64_MAX, PERIOD_NS, NS_PER_MS. lia.
Defined.

(** At a clock reading that is itself a minute multiple the first schedule is
    not the smallest multiple at or after the reading: the code schedules one
    period later. *)
Lemma initial_schedule_on_boundary_counterexample :
  initial_scheduled_time_ns 60000000000 = 120000000000 /\
  ~ next_multiple_ge 60000000000 (initial_scheduled_time_ns 60000000000).
Proof.
  split; [vm_compute; reflexivity|].
  intros (_ & _ & Hmin).
  specialize (Hmin 60000000000 eq_refl ltac:(lia)).
  vm_compute in Hmin. apply Hmin. reflexivity.
Qed.

End SchedulerProps.

(** ** Facts about binary64 arithmetic *)

Module DoubleFacts.
Import Magnitude.

Lemma SFcompare_refl (x : spec_float) :
  x <> S754_nan -> SFcompare x x = Some Eq.
Proof.
  destruct x as [s|s| |s m e]; simpl; intros Hx; try congruence.
  - destruct s; reflexivity.
  - rewrite Z.compare_refl.
    change (Pos.compare_cont Eq m m) with (Pos.compare m m).
    rewrite Pos.compare_refl. destruct s; reflexivity.
Qed.

Lemma is_nan_spec (x : float) :
  PrimFloat.is_nan x = true <-> Prim2SF x = S754_nan.
Proof.
  unfold PrimFloat.is_nan. rewrite FloatAxioms.eqb_spec. unfold SFeqb. split.
  - intros Hn. destruct (Prim2SF x) eqn:E; try reflexivity;
      rewrite SFcompare_refl in Hn by congruence; discriminate.
  - intros ->. reflexivity.
Qed.

Lemma is_nan_false_spec (x : float) :
  PrimFloat.is_nan x = false <-> Prim2SF x <> S754_nan.
Proof.
  rewrite <- is_nan_spec. destruct (PrimFloat.is_nan x); split; congruence.
Qed.

Lemma is_nan_nan : PrimFloat.is_nan nan = true.
Proof. reflexivity. Qed.

(** NaN is absorbing for every arithmetic operation of the program. *)
Lemma add_nan_l (a b : float) : is_nan a = true -> is_nan (a + b) = true.
Proof.
  rewrite !is_nan_spec, FloatAxioms.add_spec. intros ->. reflexivity.
Qed.

Lemma add_nan_r (a b : float) : is_nan b = true -> is_nan (a + b) = true.
Proof.
  rewrite !is_nan_spec, FloatAxioms.add_spec. intros ->.
  destruct (Prim2SF a); reflexivity.
Qed.

Lemma sub_nan_l (a b : float) : is_nan a = true -> is_nan (a - b) = true.
Proof.
  rewrite !is_nan_spec, FloatAxioms.sub_spec. intros ->. reflexivity.
Qed.

Lemma sub_nan_r (a b : float) : is_nan b = true -> is_nan (a - b) = true.
Proof.
  rewrite !is_nan_spec, FloatAxioms.sub_spec. intros ->.
  destruct (Prim2SF a); reflexivity.
Qed.

Lemma mul_nan_l (a b : float) : is_nan a = true -> is_nan (a * b) = true.
Proof.
  rewrite !is_nan_spec, FloatAxioms.mul_spec. intros ->. reflexivity.
Qed.

Lemma mul_nan_r (a b : float) : is_nan b = true -> is_nan (a * b) = true.
Proof.
  rewrite !is_nan_spec, FloatAxioms.mul_spec. intros ->.
  destruct (Prim2SF a); reflexivity.
Qed.

Lemma div_nan_r (a b : float) : is_nan b = true -> is_nan (a / b) = true.
Proof.
  rewrite !is_nan_spec, FloatAxioms.div_spec. intros ->.
  destruct (Prim2SF a); reflexivity.
Qed.

Lemma sqrt_nan (a : float) : is_nan a = true -> PrimFloat.is_nan (PrimFloat.sqrt a) = true.
Proof.
  rewrite !is_nan_spec, FloatAxioms.sqrt_spec. intros ->. reflexivity.
Qed.

Lemma eqb_nan_l (a b : float) : is_nan a = true -> (a =? b)%float = false.
Proof.
  rewrite is_nan_spec, FloatAxioms.eqb_spec. intros ->. reflexivity.
Qed.

(** Multiplication of doubles is commutative, bit for bit. *)
Lemma mul_comm (a b : float) : (a * b = b * a)%float.
Proof.
  apply Prim2SF_inj. rewrite !FloatAxioms.mul_spec. unfold SF64mul, SFmul.
  destruct (Prim2SF a) as [sa|sa| |sa ma ea], (Prim2SF b) as [sb|sb| |sb mb eb];
    try reflexivity; rewrite ?(xorb_comm sa sb); try reflexivity.
  now rewrite (Pos.mul_comm ma mb), (Z.add_comm ea eb).
Qed.

(** The comparisons of magnitudes are those of the keys. *)
Lemma SFltb_abs_key (x y : spec_float) :
  x <> S754_nan -> y <> S754_nan ->
  (SFltb (SFabs x) (SFabs y) = true <-> key_lt (sf_key x) (sf_key y)).
Proof.
  intros Hx Hy. unfold SFltb.
  destruct x as [sx|sx| |sx mx ex], y as [sy|sy| |sy my ey];
    try congruence; simpl; try (split; [discriminate | lia]); try (split; [lia | reflexivity]).
  change (Pos.compare_cont Eq mx my) with (Pos.compare mx my).
  destruct (Z.compare_spec ex ey); [destruct (Pos.compare_spec mx my)| |];
    split; intros; try discriminate; try reflexivity; try lia.
Qed.

Lemma SFleb_abs_key (x y : spec_float) :
  x <> S754_nan -> y <> S754_nan ->
  (SFleb (SFabs x) (SFabs y) = true <-> key_le (sf_key x) (sf_key y)).
Proof.
  intros Hx Hy. unfold SFleb.
  destruct x as [sx|sx| |sx mx ex], y as [sy|sy| |sy my ey];
    try congruence; simpl; try (split; [discriminate | lia]); try (split; [lia | reflexivity]).
  change (Pos.compare_cont Eq mx my) with (Pos.compare mx my).
  destruct (Z.compare_spec ex ey); [destruct (Pos.compare_spec mx my)| |];
    split; intros; try discriminate; try reflexivity; try lia.
Qed.

Lemma abs_lt_key (a b : float) :
  is_nan a = false -> is_nan b = false ->
  (abs_lt a b <-> key_lt (mag a) (mag b)).
Proof.
  rewrite !is_nan_false_spec. intros Ha Hb.
  unfold abs_lt, mag. rewrite FloatAxioms.ltb_spec, !FloatAxioms.abs_spec.
  apply SFltb_abs_key; assumption.
Qed.

Lemma abs_le_key (a b : float) :
  is_nan a = false -> is_nan b = false ->
  (abs_le a b <-> key_le (mag a) (mag b)).
Proof.
  rewrite !is_nan_false_spec. intros Ha Hb.
  unfold abs_le, mag. rewrite FloatAxioms.leb_spec, !FloatAxioms.abs_spec.
  apply SFleb_abs_key; assumption.
Qed.

(** [fabs(a) > fabs(b)] is false exactly when [|a| <= |b|]. *)
Lemma abs_gt_false_le (a b : float) :
  is_nan a = false -> is_nan b = false ->
  (PrimFloat.ltb (PrimFloat.abs b) (PrimFloat.abs a) = false <-> abs_le a b).
Proof.
  intros Ha Hb. rewrite (abs_le_key a b Ha Hb).
  pose proof (abs_lt_key b a Hb Ha) as Hlt. unfold abs_lt in Hlt.
  destruct (PrimFloat.ltb (PrimFloat.abs b) (PrimFloat.abs a));
    destruct (mag a) as [[a1 a2] a3], (mag b) as [[b1 b2] b3];
    unfold key_lt, key_le in *; split; intros; try discriminate; try reflexivity.
  - exfalso. assert (Hk : b1 < a1 \/ b1 = a1 /\ (b2 < a2 \/ b2 = a2 /\ b3 < a3))
      by (apply Hlt; reflexivity). lia.
  - assert (Hk : ~ (b1 < a1 \/ b1 = a1 /\ (b2 < a2 \/ b2 = a2 /\ b3 < a3)))
      by (intros Hk; apply Hlt in Hk; discriminate).
    lia.
Qed.

Lemma abs_le_refl (a : float) : is_nan a = false -> abs_le a a.
Proof.
  intros Ha. rewrite (abs_le_key a a Ha Ha).
  destruct (mag a) as [[a1 a2] a3]. unfold key_le. lia.
Qed.

Lemma abs_lt_le (a b : float) :
  is_nan a = false -> is_nan b = false -> abs_lt a b -> abs_le a b.
Proof.
  intros Ha Hb. rewrite (abs_lt_key a b Ha Hb), (abs_le_key a b Ha Hb).
  destruct (mag a) as [[a1 a2] a3], (mag b) as [[b1 b2] b3].
  unfold key_lt, key_le. lia.
Qed.

Lemma abs_le_trans (a b c : float) :
  is_nan a = false -> is_nan b = false -> is_nan c = false ->
  abs_le a b -> abs_le b c -> abs_le a c.
Proof.
  intros Ha Hb Hc.
  rewrite (abs_le_key a b Ha Hb), (abs_le_key b c Hb Hc), (abs_le_key a c Ha Hc).
  destruct (mag a) as [[a1 a2] a3], (mag b) as [[b1 b2] b3], (mag c) as [[c1 c2] c3].
  unfold key_le. lia.
Qed.

Lemma abs_le_lt_trans (a b c : float) :
  is_nan a = false -> is_nan b = false -> is_nan c = false ->
  abs_le a b -> abs_lt b c -> abs_lt a c.
Proof.
  intros Ha Hb Hc.
  rewrite (abs_le_key a b Ha Hb), (abs_lt_key b c Hb Hc), (abs_lt_key a c Ha Hc).
  destruct (mag a) as [[a1 a2] a3], (mag b) as [[b1 b2] b3], (mag c) as [[c1 c2] c3].
  unfold key_le, key_lt. lia.
Qed.

End DoubleFacts.

(** ** C1: the sliding window *)

Module WindowProps.
Import Window.

Section Generic.
Context {F : Type} `{Scalar F}.
Implicit Types (w : sliding_window F) (l : list (processed_trade F)).

Lemma sliding_window_init_wf : sw_wf (sliding_window_init (F := F)).
Proof.
  unfold sw_wf, sliding_window_init.
  cbn [sw_capacity sw_buffer sw_head_idx sw_size sw_tail_idx].
  rewrite length_replicate. unfold WINDOW_CAPACITY.
  repeat split; lia || reflexivity.
Qed.

Lemma sliding_window_init_live : sw_live (sliding_window_init (F := F)) = [].
Proof.
  unfold sw_live, sliding_window_init.
  cbn [sw_capacity sw_buffer sw_head_idx sw_size sw_tail_idx]. reflexivity.
Qed.

(** Evicting the head removes the first live entry. *)
Lemma sw_evict_head_spec w :
  sw_wf w -> 0 < sw_size w ->
  sw_wf (sw_evict_head w) /\
  sw_live w = sw_head w :: sw_live (sw_evict_head w) /\
  sw_size (sw_evict_head w) = sw_size w - 1 /\
  sw_capacity (sw_evict_head w) = sw_capacity w.
Proof.
  destruct w as [buf cap h t n spv sv].
  unfold sw_wf, sw_live, sw_evict_head, sw_head; simpl.
  intros (Hc & Hl & Hh & Hn & Ht) Hpos.
  rewrite !wrap32_small by lia.
  pose proof (Z.mod_pos_bound (h + 1) cap ltac:(lia)) as Hb.
  repeat split; try lia.
  - subst t. rewrite Zplus_mod_idemp_l. f_equal. lia.
  - replace (Z.to_nat n) with (S (Z.to_nat (n - 1))) by lia.
    apply ring_slice_cons; lia.
Qed.

(** The prune loop removes exactly the expired prefix; fuel equal to the
    number of live entries is enough. *)
Lemma sw_prune_spec (fuel : nat) (cutoff : Z) w :
  sw_wf w -> (Z.to_nat (sw_size w) <= fuel)%nat ->
  exists w1,
    sw_prune fuel cutoff w = Some w1 /\ sw_wf w1 /\
    sw_capacity w1 = sw_capacity w /\
    sw_size w1 = sw_size w - Z.of_nat (expired_prefix cutoff (sw_live w)) /\
    sw_live w1 = drop (expired_prefix cutoff (sw_live w)) (sw_live w) /\
    sw_sum_price_volume w1 =
      fold_left (fun acc t => sc_sub acc (trade_pv t))
                (take (expired_prefix cutoff (sw_live w)) (sw_live w))
                (sw_sum_price_volume w) /\
    sw_sum_volume w1 =
      fold_left (fun acc t => sc_sub acc (pt_size t))
                (take (expired_prefix cutoff (sw_live w)) (sw_live w))
                (sw_sum_volume w).
Proof.
  revert w. induction fuel as [|fuel IH]; intros w Hwf Hfuel.
  - assert (Hz : sw_size w = 0) by (destruct Hwf as (_ & _ & _ & ? & _); lia).
    simpl. rewrite Hz. simpl. exists w.
    unfold sw_live. rewrite Hz. simpl. split_ands; first [assumption | reflexivity | lia].
  - simpl.
    destruct (Z.ltb_spec 0 (sw_size w)) as [Hpos|Hz]; simpl.
    + destruct (sw_evict_head_spec w Hwf Hpos) as (Hwf' & Hlive & Hsz & Hcap).
      destruct (Z.ltb_spec (trade_ts_ms (sw_head w)) cutoff) as [Hexp|Hkeep].
      * destruct (IH (sw_evict_head w) Hwf' ltac:(lia))
          as (w1 & Hp & Hwf1 & Hcap1 & Hsz1 & Hl1 & Hpv1 & Hv1).
        exists w1. rewrite Hlive. simpl.
        destruct (Z.ltb_spec (trade_ts_ms (sw_head w)) cutoff); [|lia].
        simpl. split_ands; first [assumption | reflexivity | congruence | lia].
      * exists w. rewrite Hlive. simpl.
        destruct (Z.ltb_spec (trade_ts_ms (sw_head w)) cutoff); [lia|].
        simpl. split_ands; first [assumption | reflexivity | lia].
    + assert (Hz' : sw_size w = 0) by (destruct Hwf as (_ & _ & _ & ? & _); lia).
      exists w. unfold sw_live. rewrite Hz'. simpl.
      split_ands; first [assumption | reflexivity | lia].
Qed.

Lemma expired_prefix_le cutoff l : (expired_prefix cutoff l <= length l)%nat.
Proof.
  induction l as [|t l IH]; simpl; [lia|].
  destruct (trade_ts_ms t <? cutoff); simpl; lia.
Qed.

Lemma sw_live_length w : length (sw_live w) = Z.to_nat (sw_size w).
Proof. apply ring_slice_length. Qed.

(** One call of add_trade on the live entries and the running sums. *)
Lemma sliding_window_add_trade_spec (fuel : nat) w (ts_ms : Z) (price size : F) :
  sw_wf w -> (Z.to_nat (sw_size w) <= fuel)%nat ->
  exists w',
    sliding_window_add_trade fuel w ts_ms price size = Some w' /\
    sw_wf w' /\
    sw_capacity w' = sw_capacity w /\
    sw_live w' = drop (evicted_count w ts_ms) (sw_live w)
                 ++ [mk_processed_trade ts_ms price size] /\
    sw_sum_price_volume w' =
      sc_add (fold_left (fun acc t => sc_sub acc (trade_pv t))
                        (take (evicted_count w ts_ms) (sw_live w))
                        (sw_sum_price_volume w))
             (sc_mul price size) /\
    sw_sum_volume w' =
      sc_add (fold_left (fun acc t => sc_sub acc (pt_size t))
                        (take (evicted_count w ts_ms) (sw_live w))
                        (sw_sum_volume w))
             size.
Proof.
  intros Hwf Hfuel. unfold sliding_window_add_trade, evicted_count.
  set (cutoff := wrap64s (ts_ms - WINDOW_MS)).
  destruct (sw_prune_spec fuel cutoff w Hwf Hfuel)
    as (w1 & -> & Hwf1 & Hcap1 & Hsz1 & Hl1 & Hpv1 & Hv1).
  set (k := expired_prefix cutoff (sw_live w)) in *.
  pose proof (expired_prefix_le cutoff (sw_live w)) as Hk. fold k in Hk.
  rewrite sw_live_length in Hk.
  rewrite <- Hsz1, <- Hcap1.
  (* the state after the overflow branch *)
  assert (Hw2 : exists w2,
    (if sw_size w1 =? sw_capacity w1 then sw_evict_head w1 else w1) = w2 /\
    sw_wf w2 /\ sw_capacity w2 = sw_capacity w1 /\ sw_size w2 < sw_capacity w2 /\
    sw_live w2 =
      drop (if sw_size w1 =? sw_capacity w1 then S k else k) (sw_live w) /\
    sw_sum_price_volume w2 =
      fold_left (fun acc t => sc_sub acc (trade_pv t))
        (take (if sw_size w1 =? sw_capacity w1 then S k else k) (sw_live w))
        (sw_sum_price_volume w) /\
    sw_sum_volume w2 =
      fold_left (fun acc t => sc_sub acc (pt_size t))
        (take (if sw_size w1 =? sw_capacity w1 then S k else k) (sw_live w))
        (sw_sum_volume w)).
  { destruct (Z.eqb_spec (sw_size w1) (sw_capacity w1)) as [Hfull|Hroom].
    - assert (Hpos : 0 < sw_size w1) by (destruct Hwf1 as (? & _); lia).
      destruct (sw_evict_head_spec w1 Hwf1 Hpos) as (Hwf2 & Hlive2 & Hsz2 & Hcap2).
      eexists; split; [reflexivity|]. split; [assumption|].
      split; [assumption|]. split; [lia|].
      assert (Hdrop : drop k (sw_live w) = sw_head w1 :: sw_live (sw_evict_head w1))
        by congruence.
      assert (Htake : take (S k) (sw_live w) = take k (sw_live w) ++ [sw_head w1]).
      { rewrite <- (take_drop k (sw_live w)) at 1. rewrite Hdrop.
        rewrite take_app_ge by (rewrite length_take, sw_live_length; lia).
        rewrite length_take, sw_live_length.
        replace (S k - (k `min` Z.to_nat (sw_size w)))%nat with 1%nat by lia.
        reflexivity. }
      split_ands.
      + replace (S k) with (k + 1)%nat by lia.
        rewrite <- drop_drop, Hdrop. reflexivity.
      + rewrite Htake, fold_left_app. simpl. rewrite <- Hpv1. reflexivity.
      + rewrite Htake, fold_left_app. simpl. rewrite <- Hv1. reflexivity.
    - exists w1. split_ands; try assumption; try reflexivity.
      destruct Hwf1 as (_ & _ & _ & ? & _); lia. }
  destruct Hw2 as (w2 & -> & Hwf2 & Hcap2 & Hroom & Hl2 & Hpv2 & Hv2).
  eexists; split; [reflexivity|]. simpl.
  rewrite Hpv2, Hv2, <- Hl2.
  destruct w2 as [buf cap h t n spv sv].
  unfold sw_wf, sw_live in *; simpl in *.
  destruct Hwf2 as (Hc & Hlen & Hh & Hn & Ht).
  pose proof (Z.mod_pos_bound (h + n) cap ltac:(lia)) as Hb.
  rewrite !wrap32_small by lia.
  repeat split; rewrite ?length_insert; try lia.
  - subst t. rewrite Zplus_mod_idemp_l. f_equal. lia.
  - replace (Z.to_nat (n + 1)) with (S (Z.to_nat n)) by lia.
    subst t.
    replace (Z.to_nat ((h + n) mod cap))
      with (Z.to_nat ((h + Z.of_nat (Z.to_nat n)) mod cap))
      by (rewrite Z2Nat.id by lia; reflexivity).
    apply ring_slice_snoc; lia.
Qed.

(** *** Timestamps *)

Lemma ts_sorted_drop (k : nat) l : ts_sorted l -> ts_sorted (drop k l).
Proof.
  revert k. induction l as [|t l IH]; intros [|k] Hs; simpl; try exact I; try exact Hs.
  apply IH. apply Hs.
Qed.

Lemma ts_sorted_snoc l (t : processed_trade F) :
  ts_sorted l -> Forall (fun u => trade_ts_ms u <= trade_ts_ms t) l ->
  ts_sorted (l ++ [t]).
Proof.
  induction l as [|u l IH]; simpl; intros Hs Hall.
  - split; [constructor | exact I].
  - destruct Hs as [Hu Hs]. inversion Hall as [|? ? Hut Hall']; subst.
    split; [|apply IH; assumption].
    apply Forall_app. split; [assumption|]. constructor; [assumption|constructor].
Qed.

Lemma Forall_drop_more {A} (P : A -> Prop) (k k' : nat) (l : list A) :
  (k <= k')%nat -> Forall P (drop k l) -> Forall P (drop k' l).
Proof.
  intros Hk Hall. replace k' with (k + (k' - k))%nat by lia.
  rewrite <- drop_drop. apply Forall_drop. exact Hall.
Qed.

(** In a sorted window everything behind the expired prefix is recent. *)
Lemma expired_prefix_sorted (cutoff : Z) l :
  ts_sorted l ->
  Forall (fun t => cutoff <= trade_ts_ms t) (drop (expired_prefix cutoff l) l).
Proof.
  induction l as [|t l IH]; simpl; intros Hs; [constructor|].
  destruct Hs as [Ht Hs].
  destruct (Z.ltb_spec (trade_ts_ms t) cutoff) as [Hlt|Hge]; simpl.
  - apply IH. exact Hs.
  - constructor; [assumption|].
    eapply Forall_impl; [exact Ht|]. simpl. intros; lia.
Qed.

Lemma wrap64s_cutoff_ge (ts_ms : Z) :
  in_int64 ts_ms -> ts_ms - WINDOW_MS <= wrap64s (ts_ms - WINDOW_MS).
Proof.
  unfold in_int64, INT64_MIN, INT64_MAX, wrap64s, WINDOW_MS, WINDOW_MINUTES.
  intros Hr. Z.div_mod_to_equations. lia.
Qed.

Lemma evicted_count_ge w (ts_ms : Z) :
  (expired_prefix (wrap64s (ts_ms - WINDOW_MS)) (sw_live w)
   <= evicted_count w ts_ms)%nat.
Proof. unfold evicted_count. destruct (_ =? _); lia. Qed.

Lemma sw_time_inv_step (fuel : nat) (prev : Z) w (t : processed_trade F) :
  sw_time_inv prev w -> prev <= trade_ts_ms t -> in_int64 (trade_ts_ms t) ->
  (Z.to_nat (sw_capacity w) <= fuel)%nat ->
  exists w',
    sliding_window_add_trade fuel w (trade_ts_ms t) (pt_price t) (pt_size t) = Some w' /\
    sw_time_inv (trade_ts_ms t) w' /\ sw_capacity w' = sw_capacity w.
Proof.
  intros (Hwf & Hs & Hprev & _) Hle Hrange Hfuel.
  assert (Hsz : (Z.to_nat (sw_size w) <= fuel)%nat)
    by (destruct Hwf as (_ & _ & _ & ? & _); lia).
  destruct (sliding_window_add_trade_spec fuel w (trade_ts_ms t) (pt_price t)
              (pt_size t) Hwf Hsz) as (w' & Hadd & Hwf' & Hcap & Hlive & _).
  exists w'. split; [exact Hadd|]. split; [|exact Hcap].
  set (new := mk_processed_trade (trade_ts_ms t) (pt_price t) (pt_size t)) in *.
  set (k := evicted_count w (trade_ts_ms t)) in *.
  assert (Hold : Forall (fun u => trade_ts_ms u <= trade_ts_ms new) (drop k (sw_live w))).
  { apply Forall_drop. eapply Forall_impl; [exact Hprev|]. simpl. intros; lia. }
  unfold sw_time_inv. rewrite Hlive. split_ands.
  - exact Hwf'.
  - apply ts_sorted_snoc; [apply ts_sorted_drop; exact Hs | exact Hold].
  - apply Forall_app. split; [exact Hold|]. constructor; [simpl; lia|constructor].
  - unfold within_window. rewrite last_snoc. intros u Hu.
    apply in_app_or in Hu. destruct Hu as [Hu|[<-|[]]].
    + pose proof (expired_prefix_sorted (wrap64s (trade_ts_ms t - WINDOW_MS))
                    (sw_live w) Hs) as Hrecent.
      apply (Forall_drop_more _ _ k) in Hrecent; [|apply evicted_count_ge].
      rewrite Forall_forall in Hrecent. apply list_elem_of_In in Hu.
      specialize (Hrecent u Hu).
      pose proof (wrap64s_cutoff_ge (trade_ts_ms t) Hrange). simpl. lia.
    + unfold WINDOW_MS, WINDOW_MINUTES. lia.
Qed.

Lemma sw_time_inv_add_trades (fuel : nat) (trades : list (processed_trade F)) :
  forall (prev : Z) w,
  sw_time_inv prev w -> time_ordered prev trades ->
  (Z.to_nat (sw_capacity w) <= fuel)%nat ->
  exists w', add_trades fuel w trades = Some w' /\ sw_wf w' /\
             within_window (sw_live w').
Proof.
  induction trades as [|t trades IH]; intros prev w Hinv Hord Hfuel; simpl.
  - exists w. destruct Hinv as (? & _ & _ & ?). auto.
  - destruct Hord as (Hle & Hrange & Hord).
    destruct (sw_time_inv_step fuel prev w t Hinv Hle Hrange Hfuel)
      as (w1 & -> & Hinv1 & Hcap1).
    apply (IH (trade_ts_ms t) w1 Hinv1 Hord). lia.
Qed.

End Generic.

(** *** Running sums while nothing is evicted *)

Section NoEviction.
Context {F : Type} `{Scalar F}.
Implicit Types (w : sliding_window F) (l : list (processed_trade F)).

Lemma expired_prefix_none (cutoff : Z) l :
  Forall (fun t => cutoff <= trade_ts_ms t) l -> expired_prefix cutoff l = 0%nat.
Proof.
  intros Hall. destruct Hall as [|t l Ht _]; [reflexivity|]. simpl.
  destruct (Z.ltb_spec (trade_ts_ms t) cutoff); [lia|reflexivity].
Qed.

Lemma sliding_window_init_sums_exact : sums_exact (sliding_window_init (F := F)).
Proof.
  unfold sums_exact, naive_sum_price_volume, naive_sum_volume.
  rewrite sliding_window_init_live. split; reflexivity.
Qed.

(** A call that evicts nothing appends the trade and keeps the stored sums
    equal to the naive ones. *)
Lemma no_eviction_step (fuel : nat) (lo : Z) w (t : processed_trade F) :
  sw_wf w -> sums_exact w ->
  Forall (fun u => lo <= trade_ts_ms u) (sw_live w) ->
  lo <= trade_ts_ms t -> wrap64s (trade_ts_ms t - WINDOW_MS) <= lo ->
  sw_size w < sw_capacity w -> (Z.to_nat (sw_capacity w) <= fuel)%nat ->
  exists w',
    sliding_window_add_trade fuel w (trade_ts_ms t) (pt_price t) (pt_size t) = Some w' /\
    sw_wf w' /\ sw_capacity w' = sw_capacity w /\ sw_size w' = sw_size w + 1 /\
    sw_live w' = sw_live w ++ [t] /\ sums_exact w'.
Proof.
  intros Hwf [Hpv Hv] Hlo Ht Hcut Hroom Hfuel.
  assert (Hsz : (Z.to_nat (sw_size w) <= fuel)%nat) by lia.
  destruct (sliding_window_add_trade_spec fuel w (trade_ts_ms t) (pt_price t)
              (pt_size t) Hwf Hsz) as (w' & Hadd & Hwf' & Hcap & Hlive & Hpv' & Hv').
  replace (mk_processed_trade (trade_ts_ms t) (pt_price t) (pt_size t)) with t
    in Hlive by (destruct t; reflexivity).
  assert (Hk : expired_prefix (wrap64s (trade_ts_ms t - WINDOW_MS)) (sw_live w) = 0%nat).
  { apply expired_prefix_none. eapply Forall_impl; [exact Hlo|]. simpl. intros; lia. }
  assert (He : evicted_count w (trade_ts_ms t) = 0%nat).
  { unfold evicted_count. rewrite Hk. simpl Z.of_nat. rewrite Z.sub_0_r.
    destruct (Z.eqb_spec (sw_size w) (sw_capacity w)); [lia|reflexivity]. }
  rewrite He in Hlive, Hpv', Hv'. simpl in Hpv', Hv'.
  change (drop 0 (sw_live w)) with (sw_live w) in Hlive.
  exists w'. split_ands; try assumption.
  - pose proof (sw_live_length w') as Hlen. rewrite Hlive, length_app in Hlen.
    rewrite sw_live_length in Hlen. simpl in Hlen.
    destruct Hwf as (_ & _ & _ & Hs & _). destruct Hwf' as (_ & _ & _ & Hs' & _).
    lia.
  - split.
    + unfold naive_sum_price_volume. rewrite Hpv', Hlive, fold_left_app, Hpv.
      reflexivity.
    + unfold naive_sum_volume. rewrite Hv', Hlive, fold_left_app, Hv. reflexivity.
Qed.

Lemma no_eviction_add_trades (fuel : nat) (lo : Z) (trades : list (processed_trade F)) :
  forall w,
  sw_wf w -> sums_exact w ->
  Forall (fun u => lo <= trade_ts_ms u) (sw_live w) ->
  within_span lo trades ->
  sw_size w + Z.of_nat (length trades) <= sw_capacity w ->
  (Z.to_nat (sw_capacity w) <= fuel)%nat ->
  exists w',
    add_trades fuel w trades = Some w' /\ sw_wf w' /\
    sw_live w' = sw_live w ++ trades /\ sums_exact w'.
Proof.
  induction trades as [|t rest IH]; intros w Hwf Hex Hlo Hspan Hfit Hfuel.
  - exists w. simpl. rewrite app_nil_r. auto.
  - apply Forall_cons in Hspan as [[Ht Hcut] Hspan].
    simpl length in Hfit.
    destruct (no_eviction_step fuel lo w t Hwf Hex Hlo Ht Hcut ltac:(lia) Hfuel)
      as (w1 & Hadd & Hwf1 & Hcap1 & Hsz1 & Hlive1 & Hex1).
    destruct (IH w1 Hwf1 Hex1) as (w' & Hrest & Hwf' & Hlive' & Hex'); try assumption.
    + rewrite Hlive1. apply Forall_app. split; [exact Hlo|]. repeat constructor. exact Ht.
    + lia.
    + lia.
    + exists w'. simpl add_trades. rewrite Hadd.
      split_ands; try assumption.
      rewrite Hlive', Hlive1, <- app_assoc. reflexivity.
Qed.

End NoEviction.

Lemma sliding_window_init_time_inv {F : Type} `{Scalar F} (prev : Z) :
  sw_time_inv prev (sliding_window_init (F := F)).
Proof.
  unfold sw_time_inv. rewrite sliding_window_init_live.
  split; [apply sliding_window_init_wf|]. simpl. repeat split; constructor.
Qed.

(** C1 as the code has it, in the program's double arithmetic (the statements
    hold for any arithmetic put behind the [Scalar] operations).
    (a) For every sliding window and every sequence of add_trade calls whose
    timestamps arrive in non-decreasing order, after each call every live
    entry satisfies trade_ts_ms >= newest.trade_ts_ms - W with
    W = 15*60*1000 ms.
    (b) As long as no entry is evicted (every timestamp at or after a bound
    [lo], every expiry cutoff at or before it, and room left in the ring),
    the trades are appended to the live entries and sum_price_volume and
    sum_volume stay equal, as doubles, to the naive sums of price*size and
    size over the live entries.
    (c) Every call leaves as sums the old sums with the evicted entries
    subtracted one by one, oldest first, and the new trade added last; this
    is where the stored sums part from the naive ones. *)
Theorem sliding_window_add_trades_invariants :
  (forall (F : Type) (SF : Scalar F) (fuel : nat) (prev : Z)
          (w : sliding_window F) (trades : list (processed_trade F)),
      sw_time_inv prev w -> time_ordered prev trades ->
      (Z.to_nat (sw_capacity w) <= fuel)%nat ->
      exists w', add_trades fuel w trades = Some w' /\ sw_wf w' /\
                 within_window (sw_live w')) /\
  (forall (F : Type) (SF : Scalar F) (fuel : nat) (lo : Z)
          (w : sliding_window F) (trades : list (processed_trade F)),
      sw_wf w -> sums_exact w ->
      Forall (fun u => lo <= trade_ts_ms u) (sw_live w) ->
      within_span lo trades ->
      sw_size w + Z.of_nat (length trades) <= sw_capacity w ->
      (Z.to_nat (sw_capacity w) <= fuel)%nat ->
      exists w', add_trades fuel w trades = Some w' /\ sw_wf w' /\
                 sw_live w' = sw_live w ++ trades /\
                 sw_sum_price_volume w' = naive_sum_price_volume w' /\
                 sw_sum_volume w' = naive_sum_volume w') /\
  (forall (F : Type) (SF : Scalar F) (fuel : nat) (w : sliding_window F)
          (ts_ms : Z) (price size : F),
      sw_wf w -> (Z.to_nat (sw_size w) <= fuel)%nat ->
      exists w',
        sliding_window_add_trade fuel w ts_ms price size = Some w' /\
        sw_live w' = drop (evicted_count w ts_ms) (sw_live w)
                     ++ [mk_processed_trade ts_ms price size] /\
        sw_sum_price_volume w' =
          sc_add (fold_left (fun acc t => sc_sub acc (trade_pv t))
                            (take (evicted_count w ts_ms) (sw_live w))
                            (sw_sum_price_volume w))
                 (sc_mul price size) /\
        sw_sum_volume w' =
          sc_add (fold_left (fun acc t => sc_sub acc (pt_size t))
                            (take (evicted_count w ts_ms) (sw_live w))
                            (sw_sum_volume w))
                 size).
Proof.
  split; [|split].
  - intros F SF fuel prev w trades Hinv Hord Hfuel.
    exact (sw_time_inv_add_trades fuel trades prev w Hinv Hord Hfuel).
  - intros F SF fuel lo w trades Hwf Hex Hlo Hspan Hfit Hfuel.
    destruct (no_eviction_add_trades fuel lo trades w Hwf Hex Hlo Hspan Hfit Hfuel)
      as (w' & Hadd & Hwf' & Hlive & Hpv & Hv).
    exists w'. auto.
  - intros F SF fuel w ts_ms price size Hwf Hfuel.
    destruct (sliding_window_add_trade_spec fuel w ts_ms price size Hwf Hfuel)
      as (w' & Hadd & _ & _ & Hlive & Hpv & Hv).
    exists w'. auto.
Qed.

Lemma sliding_window_add_trades_invariants_witness :
  (exists w', add_trades (Z.to_nat WINDOW_CAPACITY) sliding_window_init cancelling_trades = Some w' /\
              within_window (sw_live w')) /\
  (exists w', add_trades (Z.to_nat WINDOW_CAPACITY) sliding_window_init steady_trades
                = Some w' /\
              sw_live w' = steady_trades /\
              sw_sum_price_volume w' = naive_sum_price_volume w' /\
              sw_sum_volume w' = naive_sum_volume w').
Proof.
  destruct sliding_window_add_trades_invariants as (Htime & Hsums & _). split.
  - destruct (Htime float double_scalar (Z.to_nat WINDOW_CAPACITY) INT64_MIN sliding_window_init
                cancelling_trades) as (w' & Hadd & _ & Hwin).
    + apply sliding_window_init_time_inv.
    + unfold cancelling_trades; simpl;
        unfold in_int64, INT64_MIN, INT64_MAX, WINDOW_MS, WINDOW_MINUTES; lia.
    + apply Nat.le_refl.
    + exists w'. split; assumption.
  - destruct (Hsums float double_scalar (Z.to_nat WINDOW_CAPACITY) 1000
                sliding_window_init steady_trades)
      as (w' & Hadd & _ & Hlive & Hpv & Hv).
    + apply sliding_window_init_wf.
    + apply sliding_window_init_sums_exact.
    + rewrite sliding_window_init_live. constructor.
    + unfold within_span, steady_trades. repeat constructor; vm_compute; discriminate.
    + vm_compute; discriminate.
    + apply Nat.le_refl.
    + exists w'. rewrite sliding_window_init_live in Hlive.
      split_ands; assumption.
Defined.

(** Where the invariant stops.  With doubles, three trades in
    timestamp order leave a stored sum that is off the naive sum by more than
    1e-9 relative; and with a late print in the middle of the window, a live
    entry is older than the newest entry by more than W. *)
Lemma sliding_window_claim_counterexample :
  (time_ordered INT64_MIN cancelling_trades /\
   match add_trades 3 sliding_window_init cancelling_trades with
   | Some w => within_1e9_relative (sw_sum_price_volume w) (naive_sum_price_volume w)
   | None => true
   end = false) /\
  (exists w, add_trades 3 sliding_window_init late_print_trades = Some w /\
             ~ within_window (sw_live w)).
Proof.
  split; [split|].
  - unfold cancelling_trades; simpl;
      unfold in_int64, INT64_MIN, INT64_MAX, WINDOW_MS, WINDOW_MINUTES; lia.
  - vm_compute. reflexivity.
  - assert (Hlive : option_map sw_live (add_trades 3 sliding_window_init late_print_trades)
                    = Some late_print_trades) by (vm_compute; reflexivity).
    destruct (add_trades 3 sliding_window_init late_print_trades) as [w|];
      [|discriminate].
    exists w. split; [reflexivity|]. simpl in Hlive. injection Hlive as ->.
    unfold within_window, late_print_trades. simpl. intros Hw.
    specialize (Hw (mk_processed_trade 0 1%float 1%float) ltac:(right; left; reflexivity)).
    simpl in Hw. unfold WINDOW_MS, WINDOW_MINUTES in Hw. lia.
Qed.

End WindowProps.

(** ** The VWAP history ring *)

Module HistoryProps.
Import History.

Section Generic.
Context {F : Type} `{Scalar F}.
Implicit Types (h : vwap_history F) (l : list (vwap_point F)).

Lemma vwap_history_init_wf (capacity : Z) :
  0 < capacity < 2 ^ 30 -> vh_wf (vwap_history_init (F := F) capacity).
Proof.
  intros Hc. unfold vh_wf, vwap_history_init; simpl.
  rewrite length_replicate, Z.mod_0_l by lia. repeat split; lia.
Qed.

Lemma vh_live_length h : length (vh_live h) = Z.to_nat (vh_size h).
Proof. apply ring_slice_length. Qed.

(** Reading slot [(head + k) mod capacity] is reading the k-th live point. *)
Lemma vh_at_live h (k : Z) :
  0 <= k < vh_size h ->
  vh_at h ((vh_head_idx h + k) mod vh_capacity h)
  = nth (Z.to_nat k) (vh_live h) zero_point.
Proof.
  intros Hk. unfold vh_live.
  rewrite (nth_lookup (ring_slice _ _ _ _ _)).
  rewrite (ring_slice_lookup zero_point) by lia.
  rewrite Z2Nat.id by lia. reflexivity.
Qed.

(** Appending drops the oldest point of a full ring and adds the new one at
    the end. *)
Lemma vwap_history_append_spec h (minute_ts : Z) (v : F) :
  vh_wf h ->
  vh_wf (vwap_history_append h minute_ts v) /\
  vh_capacity (vwap_history_append h minute_ts v) = vh_capacity h /\
  vh_live (vwap_history_append h minute_ts v) =
    (if vh_size h =? vh_capacity h then tail (vh_live h) else vh_live h)
    ++ [mk_vwap_point minute_ts v].
Proof.
  destruct h as [buf cap hd tl n].
  unfold vh_wf, vh_live, vwap_history_append; simpl.
  intros (Hc & Hlen & Hh & Hn & Ht).
  destruct (Z.eqb_spec n cap) as [Hfull|Hroom]; simpl.
  - subst n.
    assert (Htl : tl = hd) by (subst tl; ring_idx).
    rewrite !Z.rem_mod_nonneg by lia.
    pose proof (Z.mod_pos_bound (hd + 1) cap ltac:(lia)) as Hb.
    pose proof (Z.mod_pos_bound (tl + 1) cap ltac:(lia)) as Hb'.
    repeat split; rewrite ?length_insert; try lia.
    + rewrite Htl. ring_idx.
    + replace (Z.to_nat (cap - 1 + 1)) with (S (Z.to_nat (cap - 1))) by lia.
      replace (Z.to_nat cap) with (S (Z.to_nat (cap - 1))) by lia.
      rewrite <- ring_slice_advance by lia.
      replace (Z.to_nat tl)
        with (Z.to_nat (((hd + 1) mod cap + Z.of_nat (Z.to_nat (cap - 1))) mod cap))
        by (f_equal; rewrite Htl; ring_idx).
      apply ring_slice_snoc; lia.
  - pose proof (Z.mod_pos_bound (hd + n) cap ltac:(lia)) as Hb''.
    rewrite !Z.rem_mod_nonneg by lia.
    pose proof (Z.mod_pos_bound (tl + 1) cap ltac:(lia)) as Hb'.
    repeat split; rewrite ?length_insert; try lia.
    + subst tl. rewrite Zplus_mod_idemp_l. f_equal. lia.
    + replace (Z.to_nat (n + 1)) with (S (Z.to_nat n)) by lia.
      replace (Z.to_nat tl)
        with (Z.to_nat ((hd + Z.of_nat (Z.to_nat n)) mod cap))
        by (rewrite Z2Nat.id by lia; congruence).
      apply ring_slice_snoc; lia.
Qed.

(** Consecutive reads of a list are a slice of it. *)
Lemma map_nth_slice {A} (d : A) (l : list A) (a n : nat) :
  (a + n <= length l)%nat ->
  map (fun i => nth (a + i) l d) (seq 0 n) = take n (drop a l).
Proof.
  intros Hlen. apply list_eq. intros i.
  rewrite list_lookup_fmap, lookup_take.
  destruct (decide (i < n)%nat) as [Hi|Hi].
  - rewrite lookup_seq_lt by lia. simpl. rewrite lookup_drop, nth_lookup.
    destruct (l !! (a + i)%nat) eqn:E; [reflexivity|].
    apply lookup_ge_None in E. lia.
  - rewrite lookup_seq_ge by lia. reflexivity.
Qed.

(** get_recent returns the last [n] points in chronological order. *)
Lemma vwap_history_get_recent_spec h (n : Z) :
  vh_wf h -> 0 <= n ->
  vwap_history_get_recent h n =
  if vh_size h <? n then None
  else Some (drop (Z.to_nat (vh_size h - n)) (vh_live h)).
Proof.
  intros Hwf Hn. unfold vwap_history_get_recent.
  destruct (Z.ltb_spec (vh_size h) n) as [|Hge]; [reflexivity|]. f_equal.
  pose proof Hwf as (Hc & Hlen & Hh & Hsz & Ht).
  assert (Hstart :
    Z.rem (vh_tail_idx h - n + vh_capacity h) (vh_capacity h)
    = (vh_head_idx h + (vh_size h - n)) mod vh_capacity h).
  { rewrite Z.rem_mod_nonneg; [|rewrite Ht;
      pose proof (Z.mod_pos_bound (vh_head_idx h + vh_size h) (vh_capacity h)); lia|lia].
    rewrite Ht. ring_idx. }
  rewrite Hstart. unfold for_range. rewrite map_map.
  rewrite <- (take_ge (drop _ _) (Z.to_nat n))
    by (rewrite length_drop, vh_live_length; lia).
  rewrite <- (map_nth_slice zero_point) by (rewrite vh_live_length; lia).
  apply map_ext_in. intros i Hi. apply in_seq in Hi.
  pose proof (Z.mod_pos_bound (vh_head_idx h + (vh_size h - n)) (vh_capacity h)
                ltac:(lia)) as Hb.
  rewrite Z.rem_mod_nonneg by lia.
  rewrite Zplus_mod_idemp_l.
  replace (vh_head_idx h + (vh_size h - n) + (0 + Z.of_nat i))
    with (vh_head_idx h + (vh_size h - n + Z.of_nat i)) by lia.
  rewrite vh_at_live by lia. f_equal. lia.
Qed.

Lemma append_all_spec (pts : list (vwap_point F)) :
  forall h, vh_wf h ->
  vh_wf (append_all h pts) /\
  vh_capacity (append_all h pts) = vh_capacity h /\
  (vh_size h + Z.of_nat (length pts) <= vh_capacity h ->
   vh_live (append_all h pts) = vh_live h ++ pts).
Proof.
  unfold append_all.
  induction pts as [|p pts IH]; intros h Hwf; simpl.
  - split; [assumption|]. split; [reflexivity|]. intros _. rewrite app_nil_r. reflexivity.
  - destruct (vwap_history_append_spec h (minute_ts_ms p) (vwap p) Hwf)
      as (Hwf1 & Hcap1 & Hlive1).
    destruct (IH _ Hwf1) as (Hwf2 & Hcap2 & Hlive2).
    split; [assumption|]. split; [congruence|]. intros Hroom.
    assert (Hsz1 : vh_size (vwap_history_append h (minute_ts_ms p) (vwap p))
                   = vh_size h + 1).
    { unfold vwap_history_append.
      destruct (Z.eqb_spec (vh_size h) (vh_capacity h)); simpl; lia. }
    rewrite Hlive2 by (rewrite Hsz1, Hcap1; lia).
    rewrite Hlive1. destruct (Z.eqb_spec (vh_size h) (vh_capacity h)); [lia|].
    rewrite <- app_assoc. destruct p; reflexivity.
Qed.

(** A fresh history holds exactly the points appended to it, as long as they
    fit. *)
Lemma history_of_spec (capacity : Z) (pts : list (vwap_point F)) :
  0 < capacity < 2 ^ 30 -> Z.of_nat (length pts) <= capacity ->
  vh_wf (history_of capacity pts) /\ vh_live (history_of capacity pts) = pts.
Proof.
  intros Hc Hfit. unfold history_of.
  destruct (append_all_spec pts (vwap_history_init capacity)
              (vwap_history_init_wf capacity Hc)) as (Hwf & _ & Hlive).
  split; [assumption|]. rewrite Hlive by (simpl; lia). reflexivity.
Qed.

(** *** The minute-driven writer *)

Lemma minute_driven_bound (cm : Z) l (k : nat) (p : vwap_point F) :
  minute_driven cm l -> l !! k = Some p -> minute_ts_ms p <= cm.
Proof.
  revert k. induction l as [|a l IH]; intros k Hd Hk; [discriminate|].
  destruct Hd as (_ & Hle & _ & Hd). destruct k as [|k]; simpl in Hk.
  - injection Hk as <-. exact Hle.
  - eapply IH; eassumption.
Qed.

Lemma minute_driven_succ (cm : Z) l (k : nat) (p q : vwap_point F) :
  minute_driven cm l -> l !! k = Some p -> l !! S k = Some q ->
  minute_ts_ms p + MS_PER_MINUTE <= minute_ts_ms q.
Proof.
  revert k. induction l as [|a l IH]; intros k Hd Hp Hq; [discriminate|].
  destruct Hd as (Ha & _ & Hnext & Hd). destruct k as [|k]; simpl in Hp, Hq.
  - injection Hp as <-. destruct l as [|b l]; [discriminate|].
    simpl in Hq. injection Hq as <-. destruct Hd as (Hb & _).
    revert Ha Hb Hnext. unfold MS_PER_MINUTE. intros. Z.div_mod_to_equations. lia.
  - eapply IH; eassumption.
Qed.

(** Points [d] positions apart are at least [d] minutes apart. *)
Lemma minute_driven_gap (cm : Z) l (d k : nat) (p q : vwap_point F) :
  minute_driven cm l -> l !! k = Some p -> l !! (k + d)%nat = Some q ->
  minute_ts_ms p + MS_PER_MINUTE * Z.of_nat d <= minute_ts_ms q.
Proof.
  intros Hd Hp. revert q. induction d as [|d IH]; intros q Hq.
  - rewrite Nat.add_0_r in Hq. assert (p = q) by congruence. subst q. lia.
  - destruct (l !! (k + d)%nat) as [r|] eqn:Hr.
    + specialize (IH r eq_refl).
      replace (k + S d)%nat with (S (k + d)) in Hq by lia.
      pose proof (minute_driven_succ cm l _ r q Hd Hr Hq). lia.
    + apply lookup_ge_None in Hr. apply lookup_lt_Some in Hq. lia.
Qed.

(** Appending the stamp of a later minute keeps the history minute-driven. *)
Lemma minute_driven_snoc (cm cm' : Z) l (v : F) :
  minute_driven cm l -> cm < cm' -> cm' mod MS_PER_MINUTE = 0 ->
  minute_driven cm' (l ++ [mk_vwap_point cm' v]).
Proof.
  intros Hd Hlt Hmod. induction l as [|a l IH]; simpl.
  - repeat split; try assumption; lia.
  - destruct Hd as (Ha & Hle & Hnext & Hd). split_ands; try assumption; try lia.
    + destruct l as [|b l]; simpl; [lia|exact Hnext].
    + apply IH. exact Hd.
Qed.

Lemma minute_driven_tail (cm : Z) l :
  minute_driven cm l -> minute_driven cm (tail l).
Proof. destruct l as [|a l]; simpl; [auto|]. intros (_ & _ & _ & Hd). exact Hd. Qed.

(** One tick of the writer on a history. *)
Lemma minute_driven_append h (cm cm' : Z) (v : F) :
  vh_wf h -> minute_driven cm (vh_live h) -> cm < cm' ->
  cm' mod MS_PER_MINUTE = 0 ->
  minute_driven cm' (vh_live (vwap_history_append h cm' v)).
Proof.
  intros Hwf Hd Hlt Hmod.
  destruct (vwap_history_append_spec h cm' v Hwf) as (_ & _ & ->).
  apply (minute_driven_snoc cm); try assumption.
  destruct (vh_size h =? vh_capacity h); [apply minute_driven_tail|]; exact Hd.
Qed.

End Generic.
End HistoryProps.

(** ** The lagged Pearson search *)

Module CorrelationProps.
Import History Correlation CorrelationSpec Magnitude HistoryProps DoubleFacts.

Lemma for_range_S (lo : Z) (n : nat) :
  for_range lo (S n) = for_range lo n ++ [lo + Z.of_nat n].
Proof. unfold for_range. rewrite seq_S, map_app. reflexivity. Qed.

Lemma in_for_range (lo : Z) (n : nat) (o : Z) :
  In o (for_range lo n) <-> lo <= o < lo + Z.of_nat n.
Proof.
  unfold for_range. rewrite in_map_iff. split.
  - intros (k & <- & Hk). apply in_seq in Hk. lia.
  - intros Ho. exists (Z.to_nat (o - lo)). split; [lia|]. apply in_seq. lia.
Qed.

Section Windows.
Context {F : Type} `{Scalar F}.
Implicit Types (h : vwap_history F).

(** The start index of the search is slot [size - P - offset] of the live
    points. *)
Lemma lag_slot h (window_len offset i : Z) :
  vh_wf h -> 0 <= offset -> 0 <= i < window_len ->
  window_len + offset <= vh_size h ->
  vh_at h (Z.rem (lag_window_start h window_len offset + i) (vh_capacity h))
  = nth (Z.to_nat (vh_size h - window_len - offset + i)) (vh_live h) zero_point.
Proof.
  intros Hwf Hoff Hi Hfit. pose proof Hwf as (Hc & Hlen & Hh & Hsz & Ht).
  unfold lag_window_start.
  rewrite (Z.rem_mod_nonneg (_ - offset)) by lia.
  pose proof (Z.mod_pos_bound (vh_head_idx h + vh_size h - window_len - offset)
                (vh_capacity h) ltac:(lia)) as Hb.
  rewrite Z.rem_mod_nonneg by lia.
  rewrite Zplus_mod_idemp_l.
  replace (vh_head_idx h + vh_size h - window_len - offset + i)
    with (vh_head_idx h + (vh_size h - window_len - offset + i)) by lia.
  apply vh_at_live. lia.
Qed.

Lemma window_at_eq (pts : list (vwap_point F)) (window_len offset : Z) :
  0 <= offset -> 0 <= window_len ->
  window_len + offset <= Z.of_nat (length pts) ->
  window_at pts window_len offset =
  map (fun i => nth (Z.to_nat (Z.of_nat (length pts) - window_len - offset + i))
                    pts zero_point)
      (for_range 0 (Z.to_nat window_len)).
Proof.
  intros Hoff Hlen Hfit. unfold window_at, for_range. rewrite map_map.
  rewrite <- (map_nth_slice zero_point) by lia.
  apply map_ext. intros k. f_equal. lia.
Qed.

Lemma lag_target_vec_live h (window_len offset : Z) :
  vh_wf h -> 0 <= offset -> 0 <= window_len ->
  window_len + offset <= vh_size h ->
  lag_target_vec h window_len offset
  = map vwap (window_at (vh_live h) window_len offset).
Proof.
  intros Hwf Hoff Hlen Hfit. pose proof Hwf as (Hc & _ & _ & Hsz & _).
  rewrite window_at_eq by (rewrite ?vh_live_length; lia).
  unfold lag_target_vec. rewrite map_map.
  apply map_ext_in. intros i Hi. apply in_for_range in Hi.
  rewrite lag_slot by (assumption || lia). rewrite vh_live_length, Z2Nat.id by lia. reflexivity.
Qed.

Lemma lag_end_minute_nth h (window_len offset : Z) :
  vh_wf h -> 0 <= offset -> 0 < window_len ->
  window_len + offset <= vh_size h ->
  lag_end_minute h window_len offset
  = minute_ts_ms (nth (Z.to_nat (vh_size h - offset - 1)) (vh_live h) zero_point).
Proof.
  intros Hwf Hoff Hlen Hfit. unfold lag_end_minute.
  replace (lag_window_start h window_len offset + window_len - 1)
    with (lag_window_start h window_len offset + (window_len - 1)) by lia.
  rewrite lag_slot by (assumption || lia). do 3 f_equal. lia.
Qed.

Lemma window_at_last (pts : list (vwap_point F)) (window_len offset : Z) :
  0 <= offset -> 0 < window_len ->
  window_len + offset <= Z.of_nat (length pts) ->
  last (window_at pts window_len offset)
  = Some (nth (Z.to_nat (Z.of_nat (length pts) - offset - 1)) pts zero_point).
Proof.
  intros Hoff Hlen Hfit. unfold window_at.
  rewrite last_lookup, length_take, length_drop, lookup_take.
  destruct (decide _) as [_|Hn]; [|lia].
  rewrite lookup_drop, nth_lookup.
  replace (Z.to_nat (Z.of_nat (length pts) - window_len - offset) +
           Init.Nat.pred (Z.to_nat window_len `min`
             (length pts - Z.to_nat (Z.of_nat (length pts) - window_len - offset))))%nat
    with (Z.to_nat (Z.of_nat (length pts) - offset - 1)) by lia.
  destruct (pts !! _) eqn:E; [reflexivity|].
  apply lookup_ge_None in E. lia.
Qed.

End Windows.

(** *** The search loop over doubles *)

Section Search.
Variables (src : list float) (h : vwap_history float) (P : Z).

Lemma search_inv_step (lo : Z) (n : nat) (st : lag_state (F := float)) :
  search_inv src h P lo n st ->
  search_inv src h P lo (S n) (lag_step src h P st (lo + Z.of_nat n)).
Proof.
  destruct st as [[b ts] found]. unfold search_inv, lag_step.
  set (c := lag_corr src h P (lo + Z.of_nat n)).
  assert (Hc : c = lag_corr src h P (lo + Z.of_nat n)) by reflexivity.
  clearbody c. cbn [sc_isnan sc_abs double_scalar]. unfold sc_gtb.
  cbn [sc_ltb double_scalar].
  destruct (PrimFloat.is_nan c) eqn:Hnan; cbn [negb].
  - (* the candidate is NaN: the state is kept *)
    destruct found.
    + intros (o & Ho & Hon & Hb & Hts & Hmax & Hfirst).
      exists o. split_ands; try assumption; try lia.
      intros o' Ho' Hn'. destruct (Z.eq_dec o' (lo + Z.of_nat n)) as [->|Hne].
      * congruence.
      * apply Hmax; [lia|assumption].
    + intros Hall o Ho. destruct (Z.eq_dec o (lo + Z.of_nat n)) as [->|Hne].
      * congruence.
      * apply Hall. lia.
  - destruct found; cbn [negb orb].
    + intros (o & Ho & Hon & Hb & Hts & Hmax & Hfirst). subst b.
      destruct (PrimFloat.ltb (PrimFloat.abs (lag_corr src h P o)) (PrimFloat.abs c))
        eqn:Hgt.
      * (* strictly larger magnitude: the candidate becomes the best *)
        exists (lo + Z.of_nat n). rewrite <- Hc.
        split_ands; try reflexivity; try assumption; try lia.
        -- intros o' Ho' Hn'. destruct (Z.eq_dec o' (lo + Z.of_nat n)) as [->|Hne].
           ++ rewrite <- Hc. apply abs_le_refl. assumption.
           ++ apply abs_lt_le; try assumption.
              apply (abs_le_lt_trans _ (lag_corr src h P o)); try assumption.
              apply Hmax; [lia|assumption].
        -- intros o' Ho' Hn'.
           apply (abs_le_lt_trans _ (lag_corr src h P o)); try assumption.
           apply Hmax; [lia|assumption].
      * (* not larger: the earlier best stays *)
        exists o. split_ands; try reflexivity; try assumption; try lia.
        intros o' Ho' Hn'. destruct (Z.eq_dec o' (lo + Z.of_nat n)) as [->|Hne].
        -- rewrite <- Hc. apply abs_gt_false_le; assumption.
        -- apply Hmax; [lia|assumption].
    + (* first candidate that is not NaN *)
      intros Hall. exists (lo + Z.of_nat n). rewrite <- Hc.
      split_ands; try reflexivity; try assumption; try lia.
      * intros o' Ho' Hn'. destruct (Z.eq_dec o' (lo + Z.of_nat n)) as [->|Hne].
        -- rewrite <- Hc. apply abs_le_refl. assumption.
        -- rewrite Hall in Hn' by lia. discriminate.
      * intros o' Ho' Hn'. rewrite Hall in Hn' by lia. discriminate.
Qed.

Lemma search_inv_fold (lo : Z) (n : nat) :
  search_inv src h P lo n
    (fold_left (lag_step src h P) (for_range lo n) (sc_of_int 0, 0, false)).
Proof.
  induction n as [|n IH].
  - simpl. intros o Ho. lia.
  - rewrite for_range_S, fold_left_app. simpl. apply search_inv_step. exact IH.
Qed.

(** The result of the search is the best candidate of its offset range. *)
Lemma find_best_is_best_lag (min_off cap : Z) :
  P + min_off <= vh_size h ->
  is_best_lag (lag_corr src h P) (lag_end_minute h P) min_off
    (Z.min (vh_size h - P) cap)
    (find_best_lagged_correlation src h P min_off cap).
Proof.
  intros Hfit. unfold find_best_lagged_correlation.
  destruct (Z.ltb_spec (vh_size h) (P + min_off)) as [|_]; [lia|].
  unfold offsets.
  assert (Hhi : max_search_offset h P cap = Z.min (vh_size h - P) cap).
  { unfold max_search_offset. destruct (Z.ltb_spec cap (vh_size h - P)); lia. }
  rewrite Hhi. set (hi := Z.min (vh_size h - P) cap).
  pose proof (search_inv_fold min_off (Z.to_nat (hi - min_off + 1))) as Hinv.
  destruct (fold_left _ _ _) as [[b ts] found]. unfold search_inv in Hinv.
  destruct found.
  - right. destruct Hinv as (o & Ho & Hon & Hb & Hts & Hmax & Hfirst).
    exists o. split_ands; try assumption; try lia.
    + congruence.
    + intros o' Ho'. apply Hmax. lia.
  - left. split; [|reflexivity]. intros o Ho. apply Hinv. lia.
Qed.

End Search.

(** *** The summation loop against the closed formula *)

(** The loop of pearson_correlation accumulates the five sums of the
    formula, term by term in index order. *)
Lemma pearson_loop_sigma (x y : list float) (m : nat) :
  fold_left (pearson_step x y) (for_range 0 m)
    (mk_pearson_sums (sc_of_int 0) (sc_of_int 0) (sc_of_int 0) (sc_of_int 0)
                     (sc_of_int 0))
  = mk_pearson_sums
      (sigma m (fun k => entry x k)) (sigma m (fun k => entry y k))
      (sigma m (fun k => PrimFloat.mul (entry x k) (entry x k)))
      (sigma m (fun k => PrimFloat.mul (entry y k) (entry y k)))
      (sigma m (fun k => PrimFloat.mul (entry x k) (entry y k))).
Proof.
  induction m as [|m IH]; [reflexivity|].
  rewrite for_range_S, fold_left_app, IH. cbn [fold_left].
  unfold pearson_step, vec_at, entry. cbn [sum_x sum_y sum_xx sum_yy sum_xy sigma].
  rewrite Z.add_0_l, Nat2Z.id. reflexivity.
Qed.

(** pearson_correlation computes the coefficient of the formula. *)
Lemma pearson_correlation_formula (x y : list float) (n : Z) :
  pearson_correlation x y n = pearson_formula x y n.
Proof.
  unfold pearson_correlation, pearson_formula, pearson_numerator,
    pearson_denominator, pearson_loop.
  rewrite pearson_loop_sigma. reflexivity.
Qed.

Lemma is_best_lag_ext (corr corr' : Z -> float) (ends ends' : Z -> Z)
    (lo hi : Z) (res : float * Z) :
  (forall o, lo <= o <= hi -> corr o = corr' o /\ ends o = ends' o) ->
  is_best_lag corr ends lo hi res -> is_best_lag corr' ends' lo hi res.
Proof.
  intros Hext [[Hall ->]|(o & Ho & Hon & -> & Hmax & Hfirst)].
  - left. split; [|reflexivity]. intros o Ho.
    destruct (Hext o Ho) as [<- _]. apply Hall. exact Ho.
  - right. exists o. destruct (Hext o Ho) as [Ec Ee].
    split_ands; try assumption; try lia; try congruence.
    + intros o' Ho' Hn'. destruct (Hext o' Ho') as [Ec' _].
      rewrite <- Ec, <- Ec'. apply Hmax; [assumption|congruence].
    + intros o' Ho' Hn'. destruct (Hext o' ltac:(lia)) as [Ec' _].
      rewrite <- Ec, <- Ec'. apply Hfirst; [assumption|congruence].
Qed.

(** C2.  find_best_lagged_correlation returns NaN when the history holds fewer
    than P + min_off points; otherwise it examines every offset in
    [min_off, min(size - P, cap)], the candidate window being the P
    consecutive points that end [offset] positions before the newest one,
    and returns the Pearson correlation (the coefficient
    (n*Sxy - Sx*Sy) / sqrt((n*Sxx - Sx^2) * (n*Syy - Sy^2)) of the source
    vector and the window, NaN when the square root is zero) of largest
    magnitude among the candidates that are not NaN, the smallest such
    offset on ties, together with the minute_ts_ms of the last point of the
    chosen window. *)
Theorem find_best_lagged_correlation_spec (src : list float)
    (h : vwap_history float) (P min_off cap : Z) :
  vh_wf h -> 0 < P <= MOVING_AVG_POINTS -> 0 <= min_off ->
  best_lagged_spec src (vh_live h) P min_off cap
    (find_best_lagged_correlation src h P min_off cap).
Proof.
  intros Hwf HP Hoff. pose proof Hwf as (_ & _ & _ & Hsz & _).
  unfold best_lagged_spec. rewrite vh_live_length, Z2Nat.id by lia.
  destruct (Z.ltb_spec (vh_size h) (P + min_off)) as [Hshort|Hfit].
  - unfold find_best_lagged_correlation.
    destruct (Z.ltb_spec (vh_size h) (P + min_off)); [reflexivity|lia].
  - eapply is_best_lag_ext; [|apply find_best_is_best_lag; exact Hfit].
    intros o Ho. split.
    + unfold lag_corr. rewrite lag_target_vec_live by (assumption || lia).
      apply pearson_correlation_formula.
    + unfold window_end_minute.
      rewrite (window_at_last (H := double_scalar))
        by (rewrite ?vh_live_length; lia).
      rewrite lag_end_minute_nth by (assumption || lia).
      rewrite vh_live_length, Z2Nat.id by lia. reflexivity.
Qed.

(** The history of scenario S4 and its source vector. *)
Lemma sixteen_minutes_history :
  vh_wf (history_of VWAP_HISTORY_SIZE_MINUTES (points_of sixteen_minutes)) /\
  vh_live (history_of VWAP_HISTORY_SIZE_MINUTES (points_of sixteen_minutes))
  = points_of sixteen_minutes.
Proof.
  apply history_of_spec.
  - unfold VWAP_HISTORY_SIZE_MINUTES, MAX_LAG_MINUTES, MOVING_AVG_POINTS. lia.
  - vm_compute. discriminate.
Qed.

(** A history that repeats every four minutes. *)
Lemma four_minute_cycle_history :
  vh_wf (history_of VWAP_HISTORY_SIZE_MINUTES (points_of four_minute_cycle)) /\
  vh_live (history_of VWAP_HISTORY_SIZE_MINUTES (points_of four_minute_cycle))
  = points_of four_minute_cycle.
Proof.
  apply history_of_spec.
  - unfold VWAP_HISTORY_SIZE_MINUTES, MAX_LAG_MINUTES, MOVING_AVG_POINTS. lia.
  - vm_compute. discriminate.
Qed.

(** Offsets 1 to 8 of a sixteen-minute history: the windows ending 4 and 8
    minutes back both correlate perfectly with the newest eight minutes, the
    others less, and the search returns the nearer of the two with the
    timestamp of minute 12. *)
Lemma find_best_lagged_correlation_spec_witness :
  best_lagged_spec (drop 8 four_minute_cycle) (points_of four_minute_cycle)
    MOVING_AVG_POINTS 1 MAX_LAG_MINUTES
    (find_best_lagged_correlation (drop 8 four_minute_cycle)
       (history_of VWAP_HISTORY_SIZE_MINUTES (points_of four_minute_cycle))
       MOVING_AVG_POINTS 1 MAX_LAG_MINUTES) /\
  find_best_lagged_correlation (drop 8 four_minute_cycle)
    (history_of VWAP_HISTORY_SIZE_MINUTES (points_of four_minute_cycle))
    MOVING_AVG_POINTS 1 MAX_LAG_MINUTES
  = (1%float, 12 * MS_PER_MINUTE) /\
  map (fun o => pearson_formula (drop 8 four_minute_cycle)
                  (map vwap (window_at (points_of four_minute_cycle) 8 o)) 8)
      [4; 8]
  = [1%float; 1%float] /\
  forallb (fun o => PrimFloat.ltb
                      (PrimFloat.abs
                         (pearson_formula (drop 8 four_minute_cycle)
                            (map vwap (window_at (points_of four_minute_cycle) 8 o)) 8))
                      1%float)
          [1; 2; 3; 5; 6; 7]
  = true.
Proof.
  split; [|split; [|split]].
  - rewrite <- (proj2 four_minute_cycle_history) at 1.
    apply find_best_lagged_correlation_spec.
    + exact (proj1 four_minute_cycle_history).
    + unfold MOVING_AVG_POINTS. lia.
    + lia.
  - vm_compute. reflexivity.
  - vm_compute. reflexivity.
  - vm_compute. reflexivity.
Defined.

(** C7.  Best-lag monotonicity: for a fixed source vector, history, window
    length and minimum offset, raising the lag cap never lowers the magnitude
    of the best correlation found; when the smaller cap finds a result (not
    NaN), so does the larger, and its magnitude is at least as large. *)
Theorem best_lag_monotone (src : list float) (h : vwap_history float)
    (P min_off cap1 cap2 : Z) :
  cap1 <= cap2 ->
  PrimFloat.is_nan (fst (find_best_lagged_correlation src h P min_off cap1)) = false ->
  PrimFloat.is_nan (fst (find_best_lagged_correlation src h P min_off cap2)) = false /\
  abs_le (fst (find_best_lagged_correlation src h P min_off cap1))
         (fst (find_best_lagged_correlation src h P min_off cap2)).
Proof.
  intros Hcap Hfound.
  destruct (Z.ltb_spec (vh_size h) (P + min_off)) as [Hshort|Hfit].
  - unfold find_best_lagged_correlation in Hfound.
    destruct (Z.ltb_spec (vh_size h) (P + min_off)); [|lia].
    simpl in Hfound. discriminate.
  - pose proof (find_best_is_best_lag src h P min_off cap1 Hfit) as H1.
    pose proof (find_best_is_best_lag src h P min_off cap2 Hfit) as H2.
    destruct H1 as [[_ E1]|(o1 & Ho1 & Hn1 & E1 & _)];
      rewrite E1 in *; [simpl in Hfound; discriminate|].
    destruct H2 as [[Hall _]|(o2 & Ho2 & Hn2 & E2 & Hmax & _)].
    + rewrite Hall in Hn1 by lia. discriminate.
    + rewrite E2. simpl. split; [assumption|]. apply Hmax; [lia|assumption].
Qed.

Lemma best_lag_monotone_witness :
  abs_le
    (fst (find_best_lagged_correlation (drop 8 sixteen_minutes)
            (history_of VWAP_HISTORY_SIZE_MINUTES (points_of sixteen_minutes))
            MOVING_AVG_POINTS 0 2))
    (fst (find_best_lagged_correlation (drop 8 sixteen_minutes)
            (history_of VWAP_HISTORY_SIZE_MINUTES (points_of sixteen_minutes))
            MOVING_AVG_POINTS 0 MAX_LAG_MINUTES)).
Proof.
  apply (best_lag_monotone (drop 8 sixteen_minutes)
           (history_of VWAP_HISTORY_SIZE_MINUTES (points_of sixteen_minutes))
           MOVING_AVG_POINTS 0 2 MAX_LAG_MINUTES).
  - unfold MAX_LAG_MINUTES. lia.
  - vm_compute. reflexivity.
Defined.

(** *** NaN points *)

Section NaN.
Variables (x y : list float).

Lemma pearson_fold_nan_x (l : list Z) (s : pearson_sums) :
  PrimFloat.is_nan (sum_x s) = true \/
  (exists i, In i l /\ PrimFloat.is_nan (vec_at x i) = true) ->
  PrimFloat.is_nan (sum_x (fold_left (pearson_step x y) l s)) = true.
Proof.
  revert s. induction l as [|a l IH]; intros s Hs; simpl.
  - destruct Hs as [Hs|(i & [] & _)]. exact Hs.
  - apply IH. destruct Hs as [Hs|(i & [<-|Hi] & Hn)].
    + left. cbn [pearson_step sum_x sc_add double_scalar]. apply add_nan_l. exact Hs.
    + left. cbn [pearson_step sum_x sc_add double_scalar]. apply add_nan_r. exact Hn.
    + right. exists i. split; assumption.
Qed.

Lemma pearson_fold_nan_y (l : list Z) (s : pearson_sums) :
  PrimFloat.is_nan (sum_y s) = true \/
  (exists i, In i l /\ PrimFloat.is_nan (vec_at y i) = true) ->
  PrimFloat.is_nan (sum_y (fold_left (pearson_step x y) l s)) = true.
Proof.
  revert s. induction l as [|a l IH]; intros s Hs; simpl.
  - destruct Hs as [Hs|(i & [] & _)]. exact Hs.
  - apply IH. destruct Hs as [Hs|(i & [<-|Hi] & Hn)].
    + left. cbn [pearson_step sum_y sc_add double_scalar]. apply add_nan_l. exact Hs.
    + left. cbn [pearson_step sum_y sc_add double_scalar]. apply add_nan_r. exact Hn.
    + right. exists i. split; assumption.
Qed.

End NaN.

(** A NaN among the first [n] entries of either vector makes the Pearson
    correlation NaN. *)
Lemma pearson_correlation_nan (x y : list float) (n i : Z) :
  0 <= i < n ->
  PrimFloat.is_nan (vec_at x i) = true \/ PrimFloat.is_nan (vec_at y i) = true ->
  PrimFloat.is_nan (pearson_correlation x y n) = true.
Proof.
  intros Hi Hnan. unfold pearson_correlation.
  set (s := pearson_loop x y n).
  assert (Hs : PrimFloat.is_nan (sum_x s) = true \/ PrimFloat.is_nan (sum_y s) = true).
  { assert (Hin : In i (for_range 0 (Z.to_nat n))) by (apply in_for_range; lia).
    destruct Hnan as [Hx|Hy].
    - left. apply pearson_fold_nan_x. right. exists i. split; assumption.
    - right. apply pearson_fold_nan_y. right. exists i. split; assumption. }
  assert (Hden : PrimFloat.is_nan (pearson_denominator n s) = true).
  { unfold pearson_denominator. cbn [sc_sqrt sc_mul sc_sub double_scalar].
    apply sqrt_nan. destruct Hs as [Hx|Hy].
    - apply mul_nan_l, sub_nan_r, mul_nan_l. exact Hx.
    - apply mul_nan_r, sub_nan_r, mul_nan_l. exact Hy. }
  cbn [sc_eqb sc_div sc_nan double_scalar].
  rewrite (eqb_nan_l _ _ Hden). apply div_nan_r. exact Hden.
Qed.

Lemma in_nth_index {A} (d : A) (l : list A) (a : A) :
  In a l -> exists k, (k < length l)%nat /\ nth k l d = a.
Proof. intros Hin. destruct (In_nth l a d Hin) as (k & Hk & E). eauto. Qed.

(** A window with a NaN point leaves the search state as it was. *)
Lemma lag_step_nan_window (src : list float) (h : vwap_history float)
    (P offset : Z) (st : lag_state) :
  vh_wf h -> 0 <= offset -> 0 < P -> P + offset <= vh_size h ->
  window_has_nan (vh_live h) P offset ->
  lag_step src h P st offset = st.
Proof.
  intros Hwf Hoff HP Hfit (p & Hin & Hnan). pose proof Hwf as (_ & _ & _ & Hsz & _).
  destruct (in_nth_index zero_point _ _ Hin) as (k & Hk & Hp).
  assert (Hlen : length (window_at (vh_live h) P offset) = Z.to_nat P).
  { unfold window_at. rewrite length_take, length_drop, vh_live_length. lia. }
  assert (Hc : PrimFloat.is_nan (lag_corr src h P offset) = true).
  { unfold lag_corr. apply (pearson_correlation_nan _ _ _ (Z.of_nat k)); [lia|].
    right. rewrite lag_target_vec_live by (assumption || lia).
    unfold vec_at. rewrite Nat2Z.id.
    rewrite (nth_indep _ _ (vwap zero_point)) by (rewrite length_map; lia).
    rewrite (map_nth vwap). rewrite Hp. exact Hnan. }
  destruct st as [[b ts] found]. unfold lag_step.
  cbn [sc_isnan double_scalar]. rewrite Hc. reflexivity.
Qed.

(** A source vector with a NaN entry finds nothing in any history. *)
Lemma find_best_nan_source (src : list float) (h : vwap_history float)
    (P min_off cap i : Z) :
  0 <= i < P -> PrimFloat.is_nan (vec_at src i) = true ->
  find_best_lagged_correlation src h P min_off cap = (PrimFloat.nan, 0).
Proof.
  intros Hi Hnan.
  destruct (Z.ltb_spec (vh_size h) (P + min_off)) as [Hshort|Hfit].
  - unfold find_best_lagged_correlation.
    destruct (Z.ltb_spec (vh_size h) (P + min_off)); [reflexivity|lia].
  - destruct (find_best_is_best_lag src h P min_off cap Hfit)
      as [[_ E]|(o & _ & Hn & _)]; [exact E|].
    unfold lag_corr in Hn.
    rewrite (pearson_correlation_nan _ _ _ i Hi) in Hn by (left; exact Hnan).
    discriminate.
Qed.

End CorrelationProps.

(** ** C6: symmetry of the Pearson correlation *)

Module PearsonProps.
Import History Correlation CorrelationSpec DoubleFacts HistoryProps.

Section Symmetry.
Variables (x y : list float).

Lemma pearson_step_swap (s : pearson_sums) (i : Z) :
  pearson_step y x (swap_sums s) i = swap_sums (pearson_step x y s i).
Proof.
  unfold pearson_step, swap_sums. cbn [sum_x sum_y sum_xx sum_yy sum_xy].
  f_equal. cbn [sc_add sc_mul double_scalar]. f_equal. apply mul_comm.
Qed.

Lemma pearson_fold_swap (l : list Z) (s : pearson_sums) :
  fold_left (pearson_step y x) l (swap_sums s)
  = swap_sums (fold_left (pearson_step x y) l s).
Proof.
  revert s. induction l as [|i l IH]; intros s; simpl; [reflexivity|].
  rewrite pearson_step_swap. apply IH.
Qed.

Lemma pearson_loop_swap (n : Z) :
  pearson_loop y x n = swap_sums (pearson_loop x y n).
Proof. unfold pearson_loop. rewrite <- pearson_fold_swap. reflexivity. Qed.

(** Both argument orders give the same double. *)
Lemma pearson_correlation_sym (n : Z) :
  pearson_correlation x y n = pearson_correlation y x n.
Proof.
  unfold pearson_correlation. rewrite pearson_loop_swap.
  set (s := pearson_loop x y n).
  assert (Hnum : pearson_numerator n (swap_sums s) = pearson_numerator n s).
  { unfold pearson_numerator, swap_sums. cbn [sum_x sum_y sum_xy].
    cbn [sc_sub sc_mul double_scalar]. f_equal. apply mul_comm. }
  assert (Hden : pearson_denominator n (swap_sums s) = pearson_denominator n s).
  { unfold pearson_denominator, swap_sums. cbn [sum_x sum_y sum_xx sum_yy].
    cbn [sc_sqrt sc_sub sc_mul double_scalar]. f_equal. apply mul_comm. }
  rewrite Hnum, Hden. reflexivity.
Qed.

End Symmetry.

(** *** Self-correlation in doubles *)

(** With both arguments the same vector, numerator and denominator are built
    from the one variance term [V = n * Sxx - Sx * Sx]: the result is
    [V / sqrt(V * V)]. *)
Lemma pearson_correlation_self (x : list float) (n : Z) :
  pearson_correlation x x n = self_ratio (variance_term x n).
Proof.
  unfold pearson_correlation, pearson_numerator, pearson_denominator,
    pearson_loop.
  rewrite CorrelationProps.pearson_loop_sigma. reflexivity.
Qed.

(** C6 as the code has it, in double arithmetic.  For all vectors x and y and
    every n, pearson_correlation(x, y, n) and pearson_correlation(y, x, n)
    are the same double (NaN included); and for every vector x,
    pearson_correlation(x, x, n) is V / sqrt(V * V) evaluated in doubles,
    where V = n * Sxx - Sx * Sx is the variance term as the loop rounds it,
    and NaN when sqrt(V * V) == 0.  There are vectors that are not constant
    for which this is 1.0, others for which it is NaN, others for which it
    is -1.0. *)
Theorem pearson_symmetry :
  (forall (x y : list float) (n : Z),
      pearson_correlation x y n = pearson_correlation y x n) /\
  (forall (x : list float) (n : Z),
      pearson_correlation x x n = self_ratio (variance_term x n)).
Proof.
  split.
  - exact pearson_correlation_sym.
  - exact pearson_correlation_self.
Qed.

Lemma pearson_symmetry_witness :
  pearson_correlation [1; 2; 4]%float [4; 1; 2]%float 3
  = pearson_correlation [4; 1; 2]%float [1; 2; 4]%float 3 /\
  variance_term [1; 2; 4]%float 3 = 14%float /\
  pearson_correlation [1; 2; 4]%float [1; 2; 4]%float 3 = 1%float.
Proof.
  split; [|split].
  - apply (proj1 pearson_symmetry).
  - vm_compute. reflexivity.
  - rewrite (proj2 pearson_symmetry). vm_compute. reflexivity.
Defined.

(** In double arithmetic the self-correlation of a vector that is not
    constant need not be 1.0.  For seven entries 100 and one entry one unit
    in the last place above 100 the variance term rounds to zero and the
    result is NaN; for one entry one unit in the last place above 0.3 and
    seven entries 0.3 the variance term rounds to a negative number and the
    result is -1.0. *)
Lemma pearson_self_counterexample :
  ((exists a b, In a nearly_flat /\ In b nearly_flat /\ PrimFloat.eqb a b = false) /\
   PrimFloat.is_nan (pearson_correlation nearly_flat nearly_flat 8) = true /\
   PrimFloat.eqb (pearson_correlation nearly_flat nearly_flat 8) 1%float = false) /\
  ((exists a b, In a just_above_flat /\ In b just_above_flat /\
                PrimFloat.eqb a b = false) /\
   PrimFloat.ltb (variance_term just_above_flat 8) 0%float = true /\
   pearson_correlation just_above_flat just_above_flat 8 = (-1)%float /\
   PrimFloat.eqb (pearson_correlation just_above_flat just_above_flat 8) 1%float
   = false).
Proof.
  split; split.
  - exists 100%float, 0x1.9000000000001p+6%float. unfold nearly_flat. simpl.
    split; [left; reflexivity|]. split; [do 7 right; left; reflexivity|].
    vm_compute. reflexivity.
  - split; vm_compute; reflexivity.
  - exists 0x1.3333333333334p-2%float, 0x1.3333333333333p-2%float.
    unfold just_above_flat. simpl.
    split; [left; reflexivity|]. split; [right; left; reflexivity|].
    vm_compute. reflexivity.
  - repeat split; vm_compute; reflexivity.
Qed.

End PearsonProps.

(** ** The correlation and VWAP workers *)

Module WorkerProps.
Import History Correlation CorrelationSpec Magnitude HistoryProps DoubleFacts
       CorrelationProps.

Section Targets.
Variables (symbols : list (symbol_data float)) (src : list float) (i : Z).

Lemma target_inv_step (n : nat) (st : target_state (F := float)) :
  target_inv symbols src i n st ->
  target_inv symbols src i (S n) (target_step symbols src i st (Z.of_nat n)).
Proof.
  destruct st as [[[b ts] best_j] found]. unfold target_inv, target_step.
  fold (target_result symbols src i (Z.of_nat n)).
  destruct (target_result symbols src i (Z.of_nat n)) as [c cts] eqn:Hres.
  cbn [sc_isnan double_scalar].
  destruct (PrimFloat.is_nan c) eqn:Hnan; cbn [negb].
  - destruct found.
    + intros (Hj & Hr & Hn). split_ands; try assumption; lia.
    + intros Hall j Hj. destruct (Z.eq_dec j (Z.of_nat n)) as [->|Hne].
      * rewrite Hres. exact Hnan.
      * apply Hall. lia.
  - destruct found; cbn [negb orb].
    + intros (Hj & Hr & Hn).
      destruct (sc_gtb (sc_abs c) (sc_abs b)).
      * split_ands; try assumption; lia.
      * split_ands; try assumption; lia.
    + intros _. split_ands; try assumption; lia.
Qed.

Lemma target_inv_fold (n : nat) :
  target_inv symbols src i n
    (fold_left (target_step symbols src i) (for_range 0 n) (sc_of_int 0, 0, -1, false)).
Proof.
  induction n as [|n IH].
  - simpl. intros j Hj. lia.
  - rewrite for_range_S, fold_left_app. simpl. apply target_inv_step. exact IH.
Qed.

End Targets.

(** The row written for source [i], if any, carries the search result of the
    target [best_j] it names. *)
Lemma correlation_for_symbol_row (symbols : list (symbol_data float))
    (current_minute i best_j : Z) (row : correlation_row float) :
  correlation_for_symbol symbols current_minute i = Some (best_j, row) ->
  exists src_points,
    vwap_history_get_recent (sd_vwap_hist (symbol_at symbols i)) MOVING_AVG_POINTS
      = Some src_points /\
    0 <= best_j < NUM_SYMBOLS /\
    target_result symbols (map vwap src_points) i best_j
      = (row_corr row, row_lag_minute_ts_ms row) /\
    PrimFloat.is_nan (row_corr row) = false /\
    row_symbol_idx row = i /\ row_minute_ts_ms row = current_minute /\
    row_other_symbol row = sd_symbol (symbol_at symbols best_j).
Proof.
  unfold correlation_for_symbol.
  destruct (vwap_history_get_recent _ _) as [src_points|]; [|discriminate].
  pose proof (target_inv_fold symbols (map vwap src_points) i (Z.to_nat NUM_SYMBOLS))
    as Hinv.
  destruct (fold_left _ _ _) as [[[b ts] j] found]. unfold target_inv in Hinv.
  destruct found; [|discriminate].
  intros E. injection E as <- <-. destruct Hinv as (Hj & Hres & Hn).
  exists src_points. simpl. split_ands; try reflexivity; try assumption.
  - lia.
  - unfold NUM_SYMBOLS in *. lia.
Qed.

(** C5.  For the source symbol itself the worker searches with
    min_offset = P = 8; hence, on a history written by the minute-driven
    writer, a row whose best match is the source symbol itself carries the
    end timestamp of a window whose last point is at least P minutes before
    the current minute. *)
Theorem self_correlation_skips_overlap (symbols : list (symbol_data float))
    (current_minute i : Z) (row : correlation_row float) :
  vh_wf (sd_vwap_hist (symbol_at symbols i)) ->
  minute_driven current_minute (vh_live (sd_vwap_hist (symbol_at symbols i))) ->
  correlation_for_symbol symbols current_minute i = Some (i, row) ->
  self_min_offset i i = MOVING_AVG_POINTS /\ MOVING_AVG_POINTS = 8 /\
  row_lag_minute_ts_ms row
    <= current_minute - MOVING_AVG_POINTS * MS_PER_MINUTE.
Proof.
  intros Hwf Hdriven Hrow.
  assert (Hself : self_min_offset i i = MOVING_AVG_POINTS)
    by (unfold self_min_offset; rewrite Z.eqb_refl; reflexivity).
  split; [exact Hself|]. split; [reflexivity|].
  destruct (correlation_for_symbol_row _ _ _ _ _ Hrow)
    as (src_points & _ & _ & Hres & Hn & _).
  unfold target_result in Hres. rewrite Hself in Hres.
  set (h := sd_vwap_hist (symbol_at symbols i)) in *.
  pose proof Hwf as (_ & _ & _ & Hsz & _).
  destruct (Z.ltb_spec (vh_size h) (MOVING_AVG_POINTS + MOVING_AVG_POINTS))
    as [Hshort|Hfit].
  - unfold find_best_lagged_correlation in Hres.
    destruct (Z.ltb_spec (vh_size h) (MOVING_AVG_POINTS + MOVING_AVG_POINTS)); [|lia].
    injection Hres as Hc _. rewrite <- Hc in Hn. discriminate.
  - destruct (find_best_is_best_lag (map vwap src_points) h MOVING_AVG_POINTS
                MOVING_AVG_POINTS MAX_LAG_MINUTES Hfit)
      as [[_ E]|(o & Ho & _ & E & _)]; rewrite E in Hres.
    + injection Hres as Hc _. rewrite <- Hc in Hn. discriminate.
    + injection Hres as _ Hts. rewrite <- Hts.
      unfold MOVING_AVG_POINTS in *.
      rewrite lag_end_minute_nth by (assumption || lia).
      (* the end point of the window and the newest point of the history *)
      destruct (vh_live h !! Z.to_nat (vh_size h - o - 1)) as [p|] eqn:Hp;
        [|apply lookup_ge_None in Hp; rewrite vh_live_length in Hp; lia].
      destruct (vh_live h !! (Z.to_nat (vh_size h - o - 1) + Z.to_nat o)%nat)
        as [q|] eqn:Hq;
        [|apply lookup_ge_None in Hq; rewrite vh_live_length in Hq; lia].
      rewrite nth_lookup, Hp. simpl.
      pose proof (minute_driven_gap _ _ _ _ _ _ Hdriven Hp Hq) as Hgap.
      pose proof (minute_driven_bound _ _ _ _ Hdriven Hq) as Hle.
      unfold MS_PER_MINUTE in *. lia.
Qed.

Lemma self_correlation_skips_overlap_witness :
  self_min_offset 0 0 = MOVING_AVG_POINTS /\ MOVING_AVG_POINTS = 8 /\
  row_lag_minute_ts_ms self_only_row
    <= 16 * MS_PER_MINUTE - MOVING_AVG_POINTS * MS_PER_MINUTE.
Proof.
  apply (self_correlation_skips_overlap self_only_symbols (16 * MS_PER_MINUTE) 0
           self_only_row).
  - exact (proj1 sixteen_minutes_history).
  - change (sd_vwap_hist (symbol_at self_only_symbols 0))
      with (history_of (F := float) VWAP_HISTORY_SIZE_MINUTES (points_of sixteen_minutes)).
    rewrite (proj2 sixteen_minutes_history).
    unfold points_of, sixteen_minutes. simpl. unfold MS_PER_MINUTE.
    repeat split; try reflexivity; lia.
  - vm_compute. reflexivity.
Defined.

Lemma vwap_history_get_recent_length {F : Type} `{Scalar F} (h : vwap_history F)
    (n : Z) (out : list (vwap_point F)) :
  vwap_history_get_recent h n = Some out -> length out = Z.to_nat n.
Proof.
  unfold vwap_history_get_recent. destruct (vh_size h <? n); [discriminate|].
  intros E. injection E as <-. unfold for_range.
  rewrite !length_map, length_seq. reflexivity.
Qed.

(** A source vector with a NaN point writes no row. *)
Lemma correlation_for_symbol_nan_source (symbols : list (symbol_data float))
    (current_minute i : Z) (src_points : list (vwap_point float)) :
  vwap_history_get_recent (sd_vwap_hist (symbol_at symbols i)) MOVING_AVG_POINTS
    = Some src_points ->
  (exists p, In p src_points /\ PrimFloat.is_nan (vwap p) = true) ->
  correlation_for_symbol symbols current_minute i = None.
Proof.
  intros Hrecent (p & Hin & Hnan).
  destruct (correlation_for_symbol symbols current_minute i) as [[j row]|] eqn:E;
    [|reflexivity].
  exfalso.
  destruct (correlation_for_symbol_row _ _ _ _ _ E)
    as (src' & Hrecent' & _ & Hres & Hn & _).
  assert (src' = src_points) by congruence. subst src'.
  pose proof (vwap_history_get_recent_length _ _ _ Hrecent) as Hlen.
  destruct (in_nth_index zero_point _ _ Hin) as (k & Hk & Hp).
  unfold target_result in Hres.
  rewrite (find_best_nan_source _ _ _ _ _ (Z.of_nat k)) in Hres.
  - injection Hres as Hc _. rewrite <- Hc in Hn. discriminate.
  - unfold MOVING_AVG_POINTS in *. lia.
  - unfold vec_at. rewrite Nat2Z.id.
    rewrite (nth_indep _ _ (vwap zero_point)) by (rewrite length_map; lia).
    rewrite (map_nth vwap), Hp. exact Hnan.
Qed.

(** The VWAP worker appends the snapshot of an empty window, NaN, as the
    newest point of the history. *)
Lemma vwap_worker_tick_appends_nan (symbols : list (symbol_data float))
    (current_minute : Z) (k : nat) (s : symbol_data float) :
  symbols !! k = Some s -> vh_wf (sd_vwap_hist s) ->
  sc_gtb (sw_sum_volume (sd_trade_window s)) (sc_of_int 0) = false ->
  exists s', vwap_worker_tick symbols current_minute !! k = Some s' /\
             last (vh_live (sd_vwap_hist s'))
             = Some (mk_vwap_point current_minute PrimFloat.nan).
Proof.
  intros Hk Hwf Hempty. unfold vwap_worker_tick.
  eexists. split.
  - rewrite (list_lookup_fmap _ symbols k), Hk. reflexivity.
  - cbn [sd_vwap_hist].
    destruct (vwap_history_append_spec (sd_vwap_hist s) current_minute
                (Window.sliding_window_snapshot_vwap (sd_trade_window s)) Hwf)
      as (_ & _ & ->).
    rewrite last_snoc. unfold Window.sliding_window_snapshot_vwap.
    rewrite Hempty. reflexivity.
Qed.

(** C10.  A NaN VWAP point among the P points of the source vector or of a
    candidate window makes the Pearson correlation for that offset NaN and
    the offset is skipped by the search; a symbol whose latest P points
    include a NaN writes no correlation row; and the VWAP worker does append
    the NaN of a minute without trades to the history as it is. *)
Theorem nan_vwap_point_excluded :
  (forall (x y : list float) (n i : Z),
      0 <= i < n ->
      PrimFloat.is_nan (vec_at x i) = true \/ PrimFloat.is_nan (vec_at y i) = true ->
      PrimFloat.is_nan (pearson_correlation x y n) = true) /\
  (forall (src : list float) (h : vwap_history float) (P offset : Z)
          (st : lag_state),
      vh_wf h -> 0 <= offset -> 0 < P -> P + offset <= vh_size h ->
      window_has_nan (vh_live h) P offset ->
      lag_step src h P st offset = st) /\
  (forall (symbols : list (symbol_data float)) (current_minute i : Z)
          (src_points : list (vwap_point float)),
      vwap_history_get_recent (sd_vwap_hist (symbol_at symbols i)) MOVING_AVG_POINTS
        = Some src_points ->
      (exists p, In p src_points /\ PrimFloat.is_nan (vwap p) = true) ->
      correlation_for_symbol symbols current_minute i = None) /\
  (forall (symbols : list (symbol_data float)) (current_minute : Z) (k : nat)
          (s : symbol_data float),
      symbols !! k = Some s -> vh_wf (sd_vwap_hist s) ->
      sc_gtb (sw_sum_volume (sd_trade_window s)) (sc_of_int 0) = false ->
      exists s', vwap_worker_tick symbols current_minute !! k = Some s' /\
                 last (vh_live (sd_vwap_hist s'))
                 = Some (mk_vwap_point current_minute PrimFloat.nan)).
Proof.
  split; [exact pearson_correlation_nan|].
  split; [exact lag_step_nan_window|].
  split; [exact correlation_for_symbol_nan_source|].
  exact vwap_worker_tick_appends_nan.
Qed.

Lemma nan_vwap_point_excluded_witness :
  correlation_for_symbol gap_symbols (8 * MS_PER_MINUTE) 0 = None /\
  (exists s', vwap_worker_tick [idle_symbol] (3 * MS_PER_MINUTE) !! 0%nat = Some s' /\
              last (vh_live (sd_vwap_hist s'))
              = Some (mk_vwap_point (3 * MS_PER_MINUTE) PrimFloat.nan)).
Proof.
  destruct nan_vwap_point_excluded as (_ & _ & Hrow & Happend). split.
  - apply (Hrow gap_symbols (8 * MS_PER_MINUTE) 0
             (points_of [1; 3; 2; 5; PrimFloat.nan; 7; 6; 9]%float)).
    + vm_compute. reflexivity.
    + exists (mk_vwap_point (5 * MS_PER_MINUTE) PrimFloat.nan). split.
      * vm_compute. do 4 right. left. reflexivity.
      * reflexivity.
  - apply (Happend [idle_symbol] (3 * MS_PER_MINUTE) 0%nat idle_symbol).
    + reflexivity.
    + apply history_of_spec.
      * unfold VWAP_HISTORY_SIZE_MINUTES, MAX_LAG_MINUTES, MOVING_AVG_POINTS. lia.
      * vm_compute. discriminate.
    + vm_compute. reflexivity.
Defined.

(** C8 on the code.  A constant source vector does not always give NaN: the
    rounded sums of eight copies of 0.1 leave a small positive variance term,
    the denominator is not zero, and the worker writes a row for the symbol.
    A VWAP of 0.1 is what a window holding a single trade at price 0.1
    reports, minute after minute. *)
Theorem constant_source_emits_row :
  option_map Window.sliding_window_snapshot_vwap
    (Window.sliding_window_add_trade 0 Window.sliding_window_init
       1000 tenth 1%float) = Some tenth /\
  pearson_correlation [tenth; tenth; tenth; tenth; tenth; tenth; tenth; tenth]
                      [1; 2; 3; 4; 5; 6; 7; 9]%float 8
  = 0x1.9a1ceb13f2861p-27%float /\
  PrimFloat.is_nan
    (pearson_correlation [tenth; tenth; tenth; tenth; tenth; tenth; tenth; tenth]
                         [1; 2; 3; 4; 5; 6; 7; 9]%float 8) = false /\
  correlation_for_symbol flat_source_symbols (8 * MS_PER_MINUTE) 0
  = Some (1, mk_correlation_row 0 (8 * MS_PER_MINUTE) "ADA-USDT"
               0x1.9a1ceb13f2861p-27%float (8 * MS_PER_MINUTE)).
Proof. repeat split; vm_compute; reflexivity. Qed.

End WorkerProps.

(** ** C9: the trade parser's timestamp fallback *)

Module ParserProps.
Import Parser.

Section Libc.
Variable strtod : string -> float * string * bool.
Variable strtoll : string -> Z * string * bool.

Lemma find_symbol_range (inst_id : string) (syms : list string) (i idx : Z) :
  find_symbol inst_id syms i = Some idx ->
  i <= idx < i + Z.of_nat (length syms) /\
  nth_error syms (Z.to_nat (idx - i)) = Some inst_id.
Proof.
  revert i. induction syms as [|s syms IH]; intros i; simpl; [discriminate|].
  destruct (String.eqb_spec inst_id s) as [->|Hne].
  - intros E. injection E as <-. rewrite Z.sub_diag. split; [lia|reflexivity].
  - intros E. destruct (IH _ E) as [Hr Hn]. split; [lia|].
    replace (Z.to_nat (idx - i)) with (S (Z.to_nat (idx - (i + 1)))) by lia.
    exact Hn.
Qed.

(** What a successful first stage guarantees: a known symbol and a price and
    a size that are not [<= 0]. *)
Lemma parse_trade_head_ok (json : string) (idx : Z) (price size : float)
    (cursor : string) :
  parse_trade_head strtod json = Some (idx, price, size, cursor) ->
  0 <= idx < NUM_SYMBOLS /\
  PrimFloat.leb price 0 = false /\ PrimFloat.leb size 0 = false.
Proof.
  unfold parse_trade_head.
  destruct (strstr json _) as [p1|]; [|discriminate].
  destruct (strchr p1 _) as [p2|]; [|discriminate].
  destruct (strchr (advance p2) _) as [p3|]; [|discriminate].
  destruct (json_extract_string p3 _ _) as [[inst_id c1]|]; [|discriminate].
  destruct (find_symbol inst_id SYMBOLS 0) as [symbol_idx|] eqn:Hsym; [|discriminate].
  destruct (json_extract_string c1 _ _) as [[price_str c2]|]; [|discriminate].
  destruct (strtod price_str) as [[pv pe] perr].
  destruct (perr || not_at_end pe || PrimFloat.leb pv 0) eqn:Hp; [discriminate|].
  destruct (json_extract_string c2 _ _) as [[size_str c3]|]; [|discriminate].
  destruct (strtod size_str) as [[sv se] serr].
  destruct (serr || not_at_end se || PrimFloat.leb sv 0) eqn:Hs; [discriminate|].
  intros E. injection E as <- <- <- <-.
  apply find_symbol_range in Hsym. simpl in Hsym.
  apply orb_false_elim in Hp as [_ Hp]. apply orb_false_elim in Hs as [_ Hs].
  unfold NUM_SYMBOLS. split; [lia|]. split; assumption.
Qed.

Lemma parse_trade_timestamp_fallback (now : Z) (cursor : string) :
  ts_missing_or_invalid strtoll cursor ->
  parse_trade_timestamp strtoll now cursor = now.
Proof.
  unfold ts_missing_or_invalid, parse_trade_timestamp.
  destruct (json_extract_string cursor _ _) as [[ts_str rest]|]; [|reflexivity].
  destruct (strtoll ts_str) as [[v endp] err].
  intros [->|[->|Hle]].
  - reflexivity.
  - rewrite orb_true_r. reflexivity.
  - destruct (Z.leb_spec v 0); [|lia]. rewrite !orb_true_r. reflexivity.
Qed.

(** C9.  A trade message whose "ts" field is missing or fails the integer
    validation is not rejected: once instId maps to a known symbol and px and
    sz parse to positive numbers, parse_okx_trade returns 1 and the message
    carries the current wall-clock time now_ms() as exchange_ts_ms. *)
Theorem parse_okx_trade_ts_fallback (now : Z) (json : string)
    (msg : raw_trade_message) (idx : Z) (price size : float) (cursor : string) :
  parse_trade_head strtod json = Some (idx, price, size, cursor) ->
  ts_missing_or_invalid strtoll cursor ->
  parse_okx_trade strtod strtoll now json msg =
    Some {| msg_symbol_index := idx;
            msg_exchange_ts_ms := now;
            msg_price := price;
            msg_size := size;
            msg_raw_json := msg_raw_json msg;
            msg_receive_ts_ms := msg_receive_ts_ms msg |} /\
  0 <= idx < NUM_SYMBOLS /\
  PrimFloat.leb price 0 = false /\ PrimFloat.leb size 0 = false.
Proof.
  intros Hhead Hts. split; [|exact (parse_trade_head_ok _ _ _ _ _ Hhead)].
  unfold parse_okx_trade. rewrite Hhead.
  rewrite (parse_trade_timestamp_fallback now cursor Hts). reflexivity.
Qed.

End Libc.

Lemma parse_okx_trade_ts_fallback_witness :
  parse_okx_trade decimal_strtod decimal_strtoll 1700000000000
    (trade_json None) (received (trade_json None) 1699999999990)
  = Some {| msg_symbol_index := 0;
            msg_exchange_ts_ms := 1700000000000;
            msg_price := px_27340_8;
            msg_size := sz_0_0005;
            msg_raw_json := trade_json None;
            msg_receive_ts_ms := 1699999999990 |} /\
  0 <= 0 < NUM_SYMBOLS /\
  PrimFloat.leb px_27340_8 0 = false /\ PrimFloat.leb sz_0_0005 0 = false.
Proof.
  apply (parse_okx_trade_ts_fallback decimal_strtod decimal_strtoll 1700000000000
           (trade_json None) (received (trade_json None) 1699999999990)
           0 px_27340_8 sz_0_0005 after_size).
  - vm_compute. reflexivity.
  - vm_compute. exact I.
Defined.

End ParserProps.

(** ** The end-to-end scenarios of the specification, run on the code *)

Module Scenarios.
Import Window History Correlation CorrelationSpec.

(** S1: three trades (100, 1), (200, 1), (300, 2) give a VWAP of 225. *)
Example scenario_S1 :
  option_map sliding_window_snapshot_vwap
    (add_trades 3 sliding_window_init
       [mk_processed_trade 1000 100%float 1%float;
        mk_processed_trade 2000 200%float 1%float;
        mk_processed_trade 3000 300%float 2%float])
  = Some 225%float.
Proof. vm_compute. reflexivity. Qed.

(** S2: the trade at t = 0 expires when the trade at t = W + 1 arrives. *)
Example scenario_S2 :
  option_map (fun w => (sw_sum_volume w, sw_sum_price_volume w,
                        sliding_window_snapshot_vwap w, sw_size w))
    (add_trades 3 sliding_window_init
       [mk_processed_trade 0 100%float 1%float;
        mk_processed_trade WINDOW_MS 200%float 1%float;
        mk_processed_trade (WINDOW_MS + 1) 300%float 1%float])
  = Some (2%float, 500%float, 250%float, 2).
Proof. vm_compute. reflexivity. Qed.

(** S4: with sixteen minutes of history the same-symbol search compares the
    last eight points with the first eight, whose window ends at minute 8. *)
Example scenario_S4 :
  correlation_for_symbol self_only_symbols (16 * MS_PER_MINUTE) 0
    = Some (0, self_only_row) /\
  row_lag_minute_ts_ms self_only_row = 8 * MS_PER_MINUTE /\
  row_corr self_only_row
  = pearson_correlation (drop 8 sixteen_minutes) (take 8 sixteen_minutes) 8.
Proof. repeat split; vm_compute; reflexivity. Qed.

(** S6 with a constant vector whose sums are exact: every call returns NaN and
    no row is written. *)
Example scenario_S6_exact_sums :
  PrimFloat.is_nan
    (pearson_correlation [100; 100; 100; 100; 100; 100; 100; 100]%float
                         [1; 2; 3; 4; 5; 6; 7; 9]%float 8) = true /\
  correlation_for_symbol
    (symbol_with "BTC-USDT" [100; 100; 100; 100; 100; 100; 100; 100]%float
       :: tail flat_source_symbols)
    (8 * MS_PER_MINUTE) 0 = None.
Proof. split; vm_compute; reflexivity. Qed.

End Scenarios.
(** ** The ingress ring under bursts and drains *)

Section KeepLast.
Context {A : Type}.
Implicit Types (l : list A) (n : nat).

Lemma keep_last_short n l : (length l <= n)%nat -> keep_last n l = l.
Proof.
  intros Hn. unfold keep_last. replace (length l - n)%nat with 0%nat by lia.
  reflexivity.
Qed.

Lemma keep_last_cons n (a : A) l :
  (n <= length l)%nat -> keep_last n (a :: l) = keep_last n l.
Proof.
  intros Hn. unfold keep_last. simpl length.
  replace (S (length l) - n)%nat with (S (length l - n)) by lia. reflexivity.
Qed.

Lemma keep_last_length n l : length (keep_last n l) = Nat.min n (length l).
Proof. unfold keep_last. rewrite length_drop. lia. Qed.

Lemma keep_last_snoc n l (a : A) :
  keep_last (S n) (l ++ [a]) = keep_last n l ++ [a].
Proof.
  unfold keep_last. rewrite length_app. simpl length.
  replace (length l + 1 - S n)%nat with (length l - n)%nat by lia.
  rewrite drop_app_le by lia. reflexivity.
Qed.

End KeepLast.

Module QueueExtra.
Import Queue QueueDrain QueueProps.

Lemma rq_contents_length (queue : raw_trade_queue) :
  rq_wf queue ->
  Z.of_nat (length (rq_contents queue)) = rq_size queue /\
  rq_size queue <= rq_capacity queue - 1.
Proof.
  intros (Hc & _). unfold rq_contents. rewrite ring_slice_length.
  pose proof (Z.mod_pos_bound (rq_tail_idx queue - rq_head_idx queue)
                (rq_capacity queue) ltac:(lia)) as Hb.
  unfold rq_size. lia.
Qed.

Lemma raw_queue_init_wf (capacity : Z) :
  0 < capacity < 2 ^ 32 -> rq_wf (raw_queue_init capacity).
Proof.
  intros Hc. unfold rq_wf, raw_queue_init; simpl.
  rewrite length_replicate. lia.
Qed.

Lemma raw_queue_init_contents (capacity : Z) :
  0 < capacity -> rq_contents (raw_queue_init capacity) = [].
Proof.
  intros Hc. unfold rq_contents, rq_size, raw_queue_init; simpl.
  rewrite Z.mod_0_l by lia. reflexivity.
Qed.

Lemma push_all_spec (fuel : nat) (msgs : list raw_trade_message) :
  forall queue,
  rq_wf queue -> 2 <= rq_capacity queue -> (1 <= fuel)%nat ->
  exists queue',
    push_all fuel queue msgs = Some queue' /\
    rq_wf queue' /\
    rq_capacity queue' = rq_capacity queue /\
    rq_contents queue' =
      keep_last (Z.to_nat (rq_capacity queue - 1)) (rq_contents queue ++ msgs).
Proof.
  induction msgs as [|m rest IH]; intros queue Hwf H2 Hf.
  - exists queue. split_ands; try reflexivity; try assumption.
    rewrite app_nil_r, keep_last_short; [reflexivity|].
    pose proof (rq_contents_length queue Hwf). lia.
  - destruct (raw_queue_push_spec fuel queue m Hwf H2 Hf)
      as (q1 & Hpush & Hwf1 & Hcap1 & _ & _ & Hcont1).
    destruct (IH q1 Hwf1 ltac:(lia) Hf) as (q' & Hall & Hwf' & Hcap' & Hcont').
    exists q'. simpl. rewrite Hpush. split_ands; try assumption; try congruence.
    rewrite Hcont', Hcont1, Hcap1.
    pose proof (rq_contents_length queue Hwf) as [Hlen Hle].
    pose proof (rq_full_size queue Hwf) as Hfs.
    destruct (rq_full queue).
    + symmetry in Hfs. apply Z.eqb_eq in Hfs.
      destruct (rq_contents queue) as [|a c] eqn:Ec; [simpl in Hlen; lia|].
      simpl tail. rewrite <- !app_assoc. simpl.
      rewrite (keep_last_cons _ a); [reflexivity|].
      rewrite length_app. simpl in *. lia.
    + rewrite <- app_assoc. reflexivity.
Qed.

Lemma raw_queue_pop_capacity (shutdown : bool) (queue queue' : raw_trade_queue)
    (m : raw_trade_message) :
  raw_queue_pop shutdown queue = PopGot m queue' ->
  rq_capacity queue' = rq_capacity queue.
Proof.
  unfold raw_queue_pop.
  destruct (_ =? _); [destruct shutdown; discriminate|].
  intros [= _ <-]. reflexivity.
Qed.

Lemma pop_n_spec (n : nat) (shutdown : bool) :
  forall queue,
  rq_wf queue ->
  exists queue',
    pop_n n shutdown queue = (take n (rq_contents queue), queue') /\
    rq_wf queue' /\
    rq_capacity queue' = rq_capacity queue /\
    rq_contents queue' = drop n (rq_contents queue).
Proof.
  induction n as [|n IH]; intros queue Hwf.
  - exists queue. split_ands; try reflexivity; assumption.
  - pose proof (raw_queue_pop_spec shutdown queue Hwf) as Hpop.
    simpl pop_n. destruct (rq_contents queue) as [|m rest] eqn:Ec.
    + rewrite Hpop. exists queue.
      destruct shutdown; (split_ands; [reflexivity|assumption|reflexivity|]);
        rewrite Ec; reflexivity.
    + destruct Hpop as (q1 & Hp & Hwf1 & Hc1).
      rewrite Hp.
      destruct (IH q1 Hwf1) as (q' & Hn & Hwf' & Hcap' & Hcont').
      rewrite Hc1 in Hn, Hcont'.
      exists q'. rewrite Hn. split_ands; try reflexivity; try assumption.
      rewrite Hcap'. eapply raw_queue_pop_capacity; eassumption.
Qed.

(** X1.  A burst of pushes with no pop in between always completes and leaves in
    the ring exactly the newest [capacity - 1] of the messages that were queued
    or pushed, oldest first: whatever is lost is lost from the old end. *)
Theorem push_all_keeps_newest (fuel : nat) (queue : raw_trade_queue)
    (msgs : list raw_trade_message) :
  rq_wf queue -> 2 <= rq_capacity queue -> (1 <= fuel)%nat ->
  exists queue',
    push_all fuel queue msgs = Some queue' /\
    rq_wf queue' /\
    rq_capacity queue' = rq_capacity queue /\
    rq_contents queue' =
      keep_last (Z.to_nat (rq_capacity queue - 1)) (rq_contents queue ++ msgs) /\
    Z.of_nat (length (rq_contents queue')) =
      Z.min (rq_capacity queue - 1)
            (Z.of_nat (length (rq_contents queue) + length msgs)).
Proof.
  intros Hwf H2 Hf.
  destruct (push_all_spec fuel msgs queue Hwf H2 Hf) as (q' & Hp & Hwf' & Hc & Hk).
  exists q'. split_ands; try assumption.
  rewrite Hk, keep_last_length, length_app. lia.
Qed.

Lemma push_all_keeps_newest_witness :
  exists queue',
    push_all 1 (raw_queue_init 4)
      [numbered 1; numbered 2; numbered 3; numbered 4; numbered 5; numbered 6]
    = Some queue' /\
    rq_contents queue' = [numbered 4; numbered 5; numbered 6].
Proof.
  destruct (push_all_keeps_newest 1 (raw_queue_init 4)
              [numbered 1; numbered 2; numbered 3; numbered 4; numbered 5; numbered 6])
    as (q' & Hp & _ & _ & Hc & _).
  - unfold rq_wf; simpl; repeat split; lia.
  - simpl; lia.
  - lia.
  - exists q'. split; [exact Hp | exact Hc].
Defined.

(** X2.  The consumer side is first-in first-out: [n] pops return the [n] oldest
    queued messages in arrival order and leave the rest queued; once all queued
    messages are taken the next pop parks the caller, or returns 0 when
    shutdown was requested. *)
Theorem pop_n_fifo (n : nat) (shutdown : bool) (queue : raw_trade_queue) :
  rq_wf queue ->
  exists queue',
    pop_n n shutdown queue = (take n (rq_contents queue), queue') /\
    rq_wf queue' /\
    rq_contents queue' = drop n (rq_contents queue) /\
    ((length (rq_contents queue) <= n)%nat ->
     raw_queue_pop shutdown queue' =
       if shutdown then PopShutdownEmpty else PopWait).
Proof.
  intros Hwf.
  destruct (pop_n_spec n shutdown queue Hwf) as (q' & Hp & Hwf' & _ & Hc).
  exists q'. split_ands; try assumption.
  intros Hlen. pose proof (raw_queue_pop_spec shutdown q' Hwf') as Hpop.
  rewrite Hc, drop_ge in Hpop by lia. exact Hpop.
Qed.

Lemma pop_n_fifo_witness :
  exists queue',
    pop_n 2 false two_queued = ([numbered 1; numbered 2], queue') /\
    raw_queue_pop false queue' = PopWait.
Proof.
  destruct (pop_n_fifo 2 false two_queued) as (q' & Hp & _ & _ & He).
  - unfold rq_wf; simpl; repeat split; lia.
  - exists q'. split; [exact Hp | apply He; vm_compute; lia].
Defined.

(** X3.  A ring of a single slot counts as full whatever it holds, so the drop loop
    of raw_queue_push never exits: no amount of fuel makes the push return. *)
Theorem raw_queue_push_single_slot_never_returns (fuel : nat)
    (queue : raw_trade_queue) (msg : raw_trade_message) :
  rq_wf queue -> rq_capacity queue = 1 ->
  raw_queue_push fuel queue msg = None.
Proof.
  intros Hwf H1. unfold raw_queue_push.
  rewrite raw_queue_drop_oldest_capacity_one by assumption. reflexivity.
Qed.

Lemma raw_queue_push_single_slot_never_returns_witness :
  raw_queue_push 1000 (raw_queue_init 1) (numbered 1) = None.
Proof.
  apply raw_queue_push_single_slot_never_returns.
  - unfold rq_wf; simpl; repeat split; lia.
  - reflexivity.
Defined.

End QueueExtra.
(** ** The scheduler's timing arithmetic *)

Module TickProps.
Import Scheduler Tick History HistoryProps.

Lemma catch_up_steps (now_ns : Z) (k : nat) :
  forall (fuel : nat) (s : Z),
  in_int64 s -> now_ns <= INT64_MAX - PERIOD_NS ->
  (k <= fuel)%nat ->
  (forall j, 0 <= j < Z.of_nat k -> s + j * PERIOD_NS <= now_ns) ->
  now_ns < s + Z.of_nat k * PERIOD_NS ->
  catch_up fuel s now_ns = Some (s + Z.of_nat k * PERIOD_NS).
Proof.
  induction k as [|k IH]; intros fuel s Hs Hnow Hf Hle Hgt.
  - replace (s + Z.of_nat 0 * PERIOD_NS) with s in * by lia.
    destruct fuel; simpl; destruct (Z.leb_spec s now_ns); try lia; reflexivity.
  - destruct fuel as [|fuel]; [lia|]. simpl catch_up.
    pose proof (Hle 0 ltac:(lia)) as H0.
    destruct (Z.leb_spec s now_ns); [|lia].
    assert (Hw : wrap64s (s + PERIOD_NS) = s + PERIOD_NS).
    { apply wrap64s_small. unfold in_int64, INT64_MAX, INT64_MIN, PERIOD_NS, NS_PER_MS in *.
      lia. }
    rewrite Hw, IH.
    + f_equal. lia.
    + unfold in_int64, INT64_MAX, INT64_MIN, PERIOD_NS, NS_PER_MS in *. lia.
    + assumption.
    + lia.
    + intros j Hj. specialize (Hle (j + 1) ltac:(lia)). lia.
    + lia.
Qed.

Lemma periods_behind_bounds (s now_ns : Z) :
  0 <= periods_behind s now_ns /\
  now_ns < s + periods_behind s now_ns * PERIOD_NS /\
  (s <= now_ns -> s + periods_behind s now_ns * PERIOD_NS <= now_ns + PERIOD_NS).
Proof.
  unfold periods_behind. destruct (Z.leb_spec s now_ns) as [Hle|Hgt].
  - assert (HP : 0 < PERIOD_NS) by (unfold PERIOD_NS, NS_PER_MS; lia).
    pose proof (Z.div_mod (now_ns - s) PERIOD_NS ltac:(lia)) as Hdm.
    pose proof (Z.mod_pos_bound (now_ns - s) PERIOD_NS HP) as Hmb.
    pose proof (Z.div_pos (now_ns - s) PERIOD_NS ltac:(lia) HP) as Hdp.
    nia.
  - lia.
Qed.

Lemma multiple_between (P a b : Z) :
  0 < P -> a mod P = 0 -> b mod P = 0 -> a < b -> a + P <= b.
Proof.
  intros HP Ha Hb Hab.
  apply Z.mod_divide in Ha; [|lia]. apply Z.mod_divide in Hb; [|lia].
  destruct Ha as [x ->], Hb as [y ->].
  assert (x < y) by (apply Z.mul_lt_mono_pos_r with P; lia).
  assert ((x + 1) * P <= y * P) by (apply Z.mul_le_mono_nonneg_r; lia).
  lia.
Qed.

(** X18.  After a stall the schedule resumes on its own grid: the catch-up loop
    returns (a unit of fuel per missed period is enough) the first slot
    [scheduled + k * PERIOD_NS] that is strictly after the clock reading, so
    every missed period is skipped rather than run late; when the schedule is
    minute-aligned and not more than one period ahead, that slot is the first
    minute boundary after the reading. *)
Theorem catch_up_skips_missed_periods (fuel : nat) (scheduled_time_ns now_ns : Z) :
  in_int64 scheduled_time_ns -> now_ns <= INT64_MAX - PERIOD_NS ->
  (Z.to_nat (periods_behind scheduled_time_ns now_ns) <= fuel)%nat ->
  exists next,
    catch_up fuel scheduled_time_ns now_ns = Some next /\
    next = scheduled_time_ns + periods_behind scheduled_time_ns now_ns * PERIOD_NS /\
    now_ns < next /\
    (scheduled_time_ns <= now_ns -> next <= now_ns + PERIOD_NS) /\
    (now_ns < scheduled_time_ns -> next = scheduled_time_ns) /\
    (scheduled_time_ns mod PERIOD_NS = 0 ->
     scheduled_time_ns <= now_ns + PERIOD_NS ->
     next_multiple_gt now_ns next).
Proof.
  intros Hs Hnow Hf.
  destruct (periods_behind_bounds scheduled_time_ns now_ns) as (Hk0 & Hgt & Hle).
  assert (HP : 0 < PERIOD_NS) by (unfold PERIOD_NS, NS_PER_MS; lia).
  exists (scheduled_time_ns + periods_behind scheduled_time_ns now_ns * PERIOD_NS).
  split; [|split; [reflexivity|]].
  - rewrite <- (Z2Nat.id (periods_behind scheduled_time_ns now_ns)) by lia.
    apply catch_up_steps; try assumption.
    + intros j Hj. rewrite Z2Nat.id in Hj by lia.
      unfold periods_behind in *.
      destruct (Z.leb_spec scheduled_time_ns now_ns) as [Hle'|]; [|lia].
      pose proof (Z.div_mod (now_ns - scheduled_time_ns) PERIOD_NS ltac:(lia)) as Hdm.
      pose proof (Z.mod_pos_bound (now_ns - scheduled_time_ns) PERIOD_NS HP) as Hmb.
      nia.
    + rewrite Z2Nat.id by lia. assumption.
  - split_ands; try assumption.
    + intros Hlt. unfold periods_behind.
      destruct (Z.leb_spec scheduled_time_ns now_ns); lia.
    + intros Hal Hnear. unfold next_multiple_gt. split_ands.
      * rewrite Z_mod_plus_full. assumption.
      * assumption.
      * intros m Hm Hlt.
        destruct (Z.le_gt_cases
                    (scheduled_time_ns + periods_behind scheduled_time_ns now_ns * PERIOD_NS)
                    m) as [|Hbad]; [assumption|exfalso].
        assert (Hal' : (scheduled_time_ns
                        + periods_behind scheduled_time_ns now_ns * PERIOD_NS)
                         mod PERIOD_NS = 0)
          by (rewrite Z_mod_plus_full; assumption).
        pose proof (multiple_between PERIOD_NS _ _ HP Hm Hal' Hbad) as Hstep.
        destruct (Z.le_gt_cases scheduled_time_ns now_ns) as [Hc|Hc].
        -- specialize (Hle Hc). lia.
        -- unfold periods_behind in Hstep.
           destruct (Z.leb_spec scheduled_time_ns now_ns); lia.
Qed.

Lemma catch_up_skips_missed_periods_witness :
  catch_up 3 60000000000 200000000000 = Some 240000000000 /\
  next_multiple_gt 200000000000 240000000000.
Proof.
  destruct (catch_up_skips_missed_periods 3 60000000000 200000000000)
    as (next & Hc & Hn & _ & _ & _ & Hm).
  - unfold in_int64, INT64_MIN, INT64_MAX; lia.
  - unfold INT64_MAX, PERIOD_NS, NS_PER_MS; lia.
  - vm_compute; lia.
  - assert (E : next = 240000000000) by (rewrite Hn; reflexivity).
    rewrite E in Hc, Hm. split; [exact Hc|].
    apply Hm; [reflexivity | vm_compute; discriminate].
Defined.

(** X19.  The wake-up target is the later of the clock reading and the scheduled
    time less the predicted duration, so it lies between the two; the timespec
    handed to clock_nanosleep is normalised and denotes exactly that target. *)
Theorem target_wakeup_timespec (scheduled_time_ns now_ns predicted_duration_ns : Z) :
  0 <= now_ns -> now_ns < scheduled_time_ns -> scheduled_time_ns <= INT64_MAX ->
  0 <= predicted_duration_ns <= EMA_MAX_NS ->
  let target := target_wakeup_ns scheduled_time_ns now_ns predicted_duration_ns in
  target = Z.max now_ns (scheduled_time_ns - predicted_duration_ns) /\
  now_ns <= target <= scheduled_time_ns /\
  timespec_valid (wake_ts target) /\
  now_monotonic_ns_of (wake_ts target) = target.
Proof.
  intros H0 Hlt Hmax Hp target.
  assert (HS : 0 < NS_PER_SEC) by (unfold NS_PER_SEC; lia).
  assert (Ht : target = Z.max now_ns (scheduled_time_ns - predicted_duration_ns)).
  { unfold target, target_wakeup_ns.
    rewrite wrap64s_small
      by (unfold in_int64, INT64_MIN, INT64_MAX, EMA_MAX_NS, NS_PER_MS in *; lia).
    destruct (Z.leb_spec (scheduled_time_ns - predicted_duration_ns) now_ns); lia. }
  assert (Hr : now_ns <= target <= scheduled_time_ns) by lia.
  clearbody target.
  split; [assumption|]. split; [assumption|].
  assert (Hq : Z.quot target NS_PER_SEC = target / NS_PER_SEC)
    by (apply Z.quot_div_nonneg; lia).
  assert (Hm : Z.rem target NS_PER_SEC = target mod NS_PER_SEC)
    by (apply Z.rem_mod_nonneg; lia).
  pose proof (Z.div_mod target NS_PER_SEC ltac:(lia)) as Hdm.
  pose proof (Z.mod_pos_bound target NS_PER_SEC HS) as Hmb.
  pose proof (Z.div_pos target NS_PER_SEC ltac:(lia) HS) as Hdp.
  split.
  - unfold timespec_valid, wake_ts; simpl. rewrite Hq, Hm. lia.
  - unfold now_monotonic_ns_of, wake_ts; simpl. rewrite Hq, Hm.
    unfold NS_PER_SEC in *.
    rewrite (wrap64s_small (target / 1000000000 * 1000000000))
      by (unfold in_int64, INT64_MIN, INT64_MAX in *; lia).
    rewrite wrap64s_small by (unfold in_int64, INT64_MIN, INT64_MAX in *; lia).
    lia.
Qed.

Lemma target_wakeup_timespec_witness :
  target_wakeup_ns 120000000000 61500000000 250000 = 119999750000 /\
  wake_ts 119999750000 = mk_timespec 119 999750000.
Proof.
  destruct (target_wakeup_timespec 120000000000 61500000000 250000)
    as (Ht & _ & _ & _).
  - lia.
  - lia.
  - unfold INT64_MAX; lia.
  - unfold EMA_MAX_NS, NS_PER_MS; lia.
  - split; [exact Ht | reflexivity].
Defined.

Lemma minute_stamp_eq (now : Z) :
  0 <= now <= INT64_MAX ->
  minute_stamp now = now / MS_PER_MINUTE * MS_PER_MINUTE.
Proof.
  intros Hn. unfold minute_stamp.
  assert (HM : 0 < MS_PER_MINUTE) by (unfold MS_PER_MINUTE; lia).
  rewrite Z.quot_div_nonneg by lia.
  pose proof (Z.div_mod now MS_PER_MINUTE ltac:(lia)) as Hdm.
  pose proof (Z.mod_pos_bound now MS_PER_MINUTE HM) as Hmb.
  pose proof (Z.div_pos now MS_PER_MINUTE ltac:(lia) HM) as Hdp.
  apply wrap64s_small. unfold in_int64, INT64_MIN, INT64_MAX in *. nia.
Qed.

Lemma minute_stamp_bounds (now : Z) :
  0 <= now <= INT64_MAX ->
  minute_stamp now mod MS_PER_MINUTE = 0 /\
  minute_stamp now <= now < minute_stamp now + MS_PER_MINUTE.
Proof.
  intros Hn. rewrite minute_stamp_eq by assumption.
  assert (HM : 0 < MS_PER_MINUTE) by (unfold MS_PER_MINUTE; lia).
  pose proof (Z.div_mod now MS_PER_MINUTE ltac:(lia)) as Hdm.
  pose proof (Z.mod_pos_bound now MS_PER_MINUTE HM) as Hmb.
  split; [apply Z.mod_mul; lia | lia].
Qed.

(** X20.  The minute stamp of a tick is the wall-clock reading rounded down to a
    whole minute; it depends only on the seconds of the clock reading, and
    readings a minute or more apart get stamps a minute or more apart. *)
Theorem minute_stamp_floor (ts : timespec) (later : Z) :
  timespec_valid ts -> tv_sec ts <= 2 ^ 50 ->
  now_ms_of ts + MS_PER_MINUTE <= later <= INT64_MAX ->
  now_ms_of ts = tv_sec ts * 1000 + tv_nsec ts / 1000000 /\
  minute_stamp (now_ms_of ts) = tv_sec ts / 60 * MS_PER_MINUTE /\
  minute_stamp (now_ms_of ts) <= now_ms_of ts < minute_stamp (now_ms_of ts) + MS_PER_MINUTE /\
  minute_stamp (now_ms_of ts) + MS_PER_MINUTE <= minute_stamp later.
Proof.
  intros [Hs Hn] Hb Hl. unfold NS_PER_SEC in Hn.
  assert (Hms : now_ms_of ts = tv_sec ts * 1000 + tv_nsec ts / 1000000).
  { unfold now_ms_of. rewrite Z.quot_div_nonneg by lia.
    pose proof (Z.div_lt_upper_bound (tv_nsec ts) 1000000 1000 ltac:(lia) ltac:(lia)).
    pose proof (Z.div_pos (tv_nsec ts) 1000000 ltac:(lia) ltac:(lia)).
    rewrite (wrap64s_small (tv_sec ts * 1000))
      by (unfold in_int64, INT64_MIN, INT64_MAX; lia).
    apply wrap64s_small. unfold in_int64, INT64_MIN, INT64_MAX; lia. }
  pose proof (Z.div_lt_upper_bound (tv_nsec ts) 1000000 1000 ltac:(lia) ltac:(lia)) as Hu.
  pose proof (Z.div_pos (tv_nsec ts) 1000000 ltac:(lia) ltac:(lia)) as Hp.
  assert (Hin : 0 <= now_ms_of ts <= INT64_MAX) by (unfold INT64_MAX; lia).
  unfold MS_PER_MINUTE in *.
  destruct (minute_stamp_bounds (now_ms_of ts) Hin) as [Hmod Hrange].
  destruct (minute_stamp_bounds later ltac:(lia)) as [Hmod' Hrange'].
  unfold MS_PER_MINUTE in *.
  split; [assumption|]. split; [|split; [assumption|]].
  - rewrite minute_stamp_eq by assumption. unfold MS_PER_MINUTE. f_equal.
    rewrite Hms.
    pose proof (Z.div_mod (tv_sec ts) 60 ltac:(lia)) as Hdm.
    pose proof (Z.mod_pos_bound (tv_sec ts) 60 ltac:(lia)) as Hmb.
    symmetry. apply Z.div_unique with (r := tv_sec ts mod 60 * 1000 + tv_nsec ts / 1000000); lia.
  - apply multiple_between; try assumption; lia.
Qed.

Lemma minute_stamp_floor_witness :
  minute_stamp (now_ms_of (mk_timespec 1700000123 456789012)) = 1700000100000 /\
  1700000100000 + MS_PER_MINUTE <= minute_stamp 1700000183456.
Proof.
  destruct (minute_stamp_floor (mk_timespec 1700000123 456789012) 1700000183456)
    as (_ & Hs & _ & Hl).
  - unfold timespec_valid, NS_PER_SEC; simpl; lia.
  - simpl; lia.
  - unfold INT64_MAX; vm_compute; split; discriminate.
  - split; [exact Hs | exact Hl].
Defined.

Lemma vwap_worker_tick_driven (symbols : list (symbol_data float)) (cm cm' : Z) :
  histories_driven cm symbols -> cm < cm' -> cm' mod MS_PER_MINUTE = 0 ->
  histories_driven cm' (Correlation.vwap_worker_tick symbols cm').
Proof.
  unfold histories_driven, Correlation.vwap_worker_tick.
  intros Hd Hlt Hmod. apply Forall_map.
  eapply Forall_impl; [exact Hd|].
  intros s [Hwf Hmd]. simpl. split.
  - apply vwap_history_append_spec; assumption.
  - eapply minute_driven_append; eassumption.
Qed.

Lemma run_vwap_ticks_snoc (symbols : list (symbol_data float)) (nows : list Z) (now : Z) :
  run_vwap_ticks symbols (nows ++ [now]) =
  Correlation.vwap_worker_tick (run_vwap_ticks symbols nows) (minute_stamp now).
Proof. unfold run_vwap_ticks. rewrite fold_left_app. reflexivity. Qed.

Lemma vwap_worker_tick_frame (symbols : list (symbol_data float)) (cm : Z) :
  map sd_symbol (Correlation.vwap_worker_tick symbols cm) = map sd_symbol symbols /\
  map sd_trade_window (Correlation.vwap_worker_tick symbols cm)
    = map sd_trade_window symbols /\
  map sd_trade_log_fd (Correlation.vwap_worker_tick symbols cm)
    = map sd_trade_log_fd symbols.
Proof.
  unfold Correlation.vwap_worker_tick. rewrite !map_map. simpl. auto.
Qed.

(** X21.  The writer establishes what the correlation search relies on: as long as
    successive ticks fall in later and later wall-clock minutes, every history
    stays a well-formed ring of minute-stamped points in strictly increasing
    order, none stamped after the last tick's minute; the ticks touch neither
    the symbol names nor the trade windows. *)
Theorem run_vwap_ticks_minute_driven (symbols : list (symbol_data float))
    (cm : Z) (nows : list Z) :
  histories_driven cm symbols -> ticks_in_new_minutes cm nows ->
  histories_driven (default cm (minute_stamp <$> last nows))
                   (run_vwap_ticks symbols nows) /\
  map sd_symbol (run_vwap_ticks symbols nows) = map sd_symbol symbols /\
  map sd_trade_window (run_vwap_ticks symbols nows) = map sd_trade_window symbols.
Proof.
  revert symbols cm. induction nows as [|now rest IH]; intros symbols cm Hd Ht.
  - simpl. auto.
  - destruct Ht as (Hn & Hlt & Hrest).
    destruct (minute_stamp_bounds now Hn) as [Hmod _].
    pose proof (vwap_worker_tick_driven symbols cm (minute_stamp now) Hd Hlt Hmod) as Hd1.
    destruct (IH _ _ Hd1 Hrest) as (Hd' & Hs' & Hw').
    destruct (vwap_worker_tick_frame symbols (minute_stamp now)) as (Hs1 & Hw1 & _).
    change (run_vwap_ticks symbols (now :: rest))
      with (run_vwap_ticks (Correlation.vwap_worker_tick symbols (minute_stamp now)) rest).
    split; [|split; congruence].
    destruct rest as [|now2 rest']; [exact Hd1|].
    rewrite last_cons_cons.
    destruct (last (now2 :: rest')) as [x|] eqn:E; [exact Hd'|].
    apply last_None in E. discriminate.
Qed.

Lemma run_vwap_ticks_minute_driven_witness :
  histories_driven 240000
    (run_vwap_ticks [CorrelationSpec.idle_symbol] [185000; 250000]).
Proof.
  destruct (run_vwap_ticks_minute_driven [CorrelationSpec.idle_symbol] 120000
              [185000; 250000]) as (Hd & _ & _).
  - assert (Hh : vh_wf (history_of (F := float) VWAP_HISTORY_SIZE_MINUTES
                          (CorrelationSpec.points_of [1; 2]%float)) /\
                 vh_live (history_of (F := float) VWAP_HISTORY_SIZE_MINUTES
                            (CorrelationSpec.points_of [1; 2]%float))
                 = CorrelationSpec.points_of [1; 2]%float).
    { apply history_of_spec.
      - unfold VWAP_HISTORY_SIZE_MINUTES, MAX_LAG_MINUTES, MOVING_AVG_POINTS. lia.
      - vm_compute. discriminate. }
    constructor; [|constructor]. split; [exact (proj1 Hh)|].
    change (sd_vwap_hist CorrelationSpec.idle_symbol)
      with (history_of (F := float) VWAP_HISTORY_SIZE_MINUTES
              (CorrelationSpec.points_of [1; 2]%float)).
    rewrite (proj2 Hh). unfold CorrelationSpec.points_of. simpl.
    unfold MS_PER_MINUTE. repeat split; try reflexivity; lia.
  - simpl. unfold INT64_MAX. repeat split; try lia; vm_compute; reflexivity.
  - exact Hd.
Defined.

End TickProps.
(** ** Prefixes of strings *)

Module StringFacts.

Lemma substring_0_length (n : nat) :
  forall s, String.length (substring 0 n s) = Nat.min n (String.length s).
Proof.
  induction n as [|n IH]; intros [|c s]; simpl; try reflexivity.
  rewrite IH. reflexivity.
Qed.

Lemma substring_0_all (n : nat) :
  forall s, (String.length s <= n)%nat -> substring 0 n s = s.
Proof.
  induction n as [|n IH]; intros [|c s]; simpl; intros Hl; try reflexivity;
    try lia.
  rewrite IH by lia. reflexivity.
Qed.

Lemma substring_0_prefix (n : nat) :
  forall s, String.prefix (substring 0 n s) s = true.
Proof.
  induction n as [|n IH]; intros [|c s]; simpl; try reflexivity.
  destruct (ascii_dec c c) as [_|Hne]; [apply IH | congruence].
Qed.

End StringFacts.

(** ** The websocket client: frames and reconnection *)

Module WebsocketProps.
Import Queue QueueProps Websocket StringFacts.

(** X4.  A received frame reaches the queue as its newest message, stamped with the
    receive time; its text is the frame cut to at most 1023 characters, a
    frame that fits being stored whole, and the parsed fields start at zero. *)
Theorem on_client_receive_enqueues (fuel : nat) (recv_ts_ms : Z) (payload : string)
    (queue : raw_trade_queue) :
  rq_wf queue -> 2 <= rq_capacity queue -> (1 <= fuel)%nat ->
  let m := receive_message recv_ts_ms payload in
  (exists queue',
     on_client_receive fuel recv_ts_ms payload queue = Some queue' /\
     rq_wf queue' /\
     last (rq_contents queue') = Some m) /\
  msg_receive_ts_ms m = recv_ts_ms /\
  String.length (msg_raw_json m) = Nat.min 1023 (String.length payload) /\
  String.prefix (msg_raw_json m) payload = true /\
  ((String.length payload <= 1023)%nat -> msg_raw_json m = payload) /\
  msg_symbol_index m = 0 /\ msg_exchange_ts_ms m = 0.
Proof.
  intros Hwf H2 Hf m. split.
  - unfold on_client_receive.
    destruct (raw_queue_push_spec fuel queue m Hwf H2 Hf)
      as (q' & Hp & Hwf' & _ & _ & _ & Hc).
    exists q'. split; [exact Hp|]. split; [exact Hwf'|].
    rewrite Hc. apply last_snoc.
  - unfold m, receive_message, RAW_JSON_SIZE; simpl msg_raw_json;
      simpl msg_receive_ts_ms.
    change (1024 - 1)%nat with 1023%nat.
    split; [reflexivity|].
    destruct (Nat.ltb_spec (String.length payload) 1023) as [Hlt|Hge].
    + split; [rewrite substring_0_length; lia|].
      split; [apply substring_0_prefix|].
      split; [intros _; apply substring_0_all; lia|]. split; reflexivity.
    + split; [rewrite substring_0_length; lia|].
      split; [apply substring_0_prefix|].
      split; [intros Hl; apply substring_0_all; lia|]. split; reflexivity.
Qed.

Lemma on_client_receive_enqueues_witness :
  exists queue',
    on_client_receive 1 1700000000000 "{}" (raw_queue_init 4) = Some queue' /\
    last (rq_contents queue') = Some (Parser.received "{}" 1700000000000).
Proof.
  destruct (on_client_receive_enqueues 1 1700000000000 "{}" (raw_queue_init 4))
    as ((q' & Hp & _ & Hl) & _).
  - unfold rq_wf; simpl; repeat split; lia.
  - simpl; lia.
  - lia.
  - exists q'. split; [exact Hp | exact Hl].
Defined.

Lemma pow2_succ (i : nat) : 2 ^ Z.of_nat (S i) = 2 * 2 ^ Z.of_nat i.
Proof. rewrite Nat2Z.inj_succ, Z.pow_succ_r by lia. reflexivity. Qed.

Lemma total_sleep_s_app (l1 l2 : list reconnect_action) :
  total_sleep_s (l1 ++ l2) = total_sleep_s l1 + total_sleep_s l2.
Proof.
  induction l1 as [|[|s] l1 IH]; simpl; try rewrite IH; unfold total_sleep_s in *;
    simpl; lia.
Qed.

Lemma losses_until_give_up (n : nat) :
  forall st,
  reconnect_attempts st + Z.of_nat n = MAX_RETRY_ATTEMPTS ->
  losses (S n) st =
    map (fun i => RetryAfter (reconnect_backoff_s st * 2 ^ Z.of_nat i)) (seq 0 n)
    ++ [GiveUp] /\
  total_sleep_s (losses (S n) st) = reconnect_backoff_s st * (2 ^ Z.of_nat n - 1).
Proof.
  unfold MAX_RETRY_ATTEMPTS.
  induction n as [|n IH]; intros [a b]; simpl reconnect_attempts;
    simpl reconnect_backoff_s; intros Ha.
  - simpl. unfold on_connection_lost, MAX_RETRY_ATTEMPTS; simpl.
    destruct (Z.ltb_spec 8 (a + 1)); [|lia]. split; [reflexivity|].
    unfold total_sleep_s; simpl. lia.
  - change (losses (S (S n)) (mk_reconnect_state a b))
      with (let '(act, st') := on_connection_lost (mk_reconnect_state a b) in
            act :: losses (S n) st').
    unfold on_connection_lost, MAX_RETRY_ATTEMPTS; simpl reconnect_attempts;
      simpl reconnect_backoff_s.
    destruct (Z.ltb_spec 8 (a + 1)); [lia|].
    destruct (IH (mk_reconnect_state (a + 1) (b * 2)) ltac:(simpl; lia)) as [Hl Ht].
    simpl reconnect_backoff_s in Hl, Ht. split.
    + rewrite Hl. change (seq 0 (S n)) with (0%nat :: seq 1 n).
      rewrite <- (seq_shift n 0). cbn [map app]. rewrite map_map.
      f_equal; [f_equal; lia|]. f_equal.
      apply map_ext. intros i. rewrite pow2_succ. f_equal. lia.
    + change (total_sleep_s (RetryAfter b :: losses (S n) (mk_reconnect_state (a + 1) (b * 2))))
        with (b + total_sleep_s (losses (S n) (mk_reconnect_state (a + 1) (b * 2)))).
      rewrite Ht, pow2_succ. lia.
Qed.

(** X5.  Reconnection policy.  With [a] failures already counted, the client
    retries [8 - a] more times, sleeping its back-off before each retry and
    doubling it afterwards, and gives up on the failure after that.  After a
    connection that had been established the sleeps are 2, 4, ..., 256
    seconds, 510 seconds in all; when no connection was ever established the
    back-off is still 0 and the eight retries follow without any pause. *)
Theorem reconnect_backoff_policy (st : reconnect_state) (n : nat) :
  0 <= reconnect_attempts st ->
  reconnect_attempts st + Z.of_nat n = MAX_RETRY_ATTEMPTS ->
  0 <= reconnect_backoff_s st < 2 ^ 22 ->
  losses (S n) st =
    map (fun i => RetryAfter (reconnect_backoff_s st * 2 ^ Z.of_nat i)) (seq 0 n)
    ++ [GiveUp] /\
  total_sleep_s (losses (S n) st) = reconnect_backoff_s st * (2 ^ Z.of_nat n - 1) /\
  (forall i, (i < n)%nat -> 0 <= reconnect_backoff_s st * 2 ^ Z.of_nat i < 2 ^ 31) /\
  total_sleep_s (losses 9 on_established) = 510 /\
  losses 9 never_connected =
    [RetryAfter 0; RetryAfter 0; RetryAfter 0; RetryAfter 0;
     RetryAfter 0; RetryAfter 0; RetryAfter 0; RetryAfter 0; GiveUp].
Proof.
  intros Ha Hn Hb.
  destruct (losses_until_give_up n st Hn) as [Hl Ht].
  split; [exact Hl|]. split; [exact Ht|]. split; [|split; reflexivity].
  intros i Hi. unfold MAX_RETRY_ATTEMPTS in Hn.
  assert (Hp : 0 < 2 ^ Z.of_nat i <= 2 ^ 8).
  { split; [apply Z.pow_pos_nonneg; lia|]. apply Z.pow_le_mono_r; lia. }
  change (2 ^ 8) with 256 in Hp. change (2 ^ 22) with 4194304 in Hb.
  change (2 ^ 31) with 2147483648. nia.
Qed.

Lemma reconnect_backoff_policy_witness :
  losses 9 on_established =
    [RetryAfter 2; RetryAfter 4; RetryAfter 8; RetryAfter 16; RetryAfter 32;
     RetryAfter 64; RetryAfter 128; RetryAfter 256; GiveUp].
Proof.
  destruct (reconnect_backoff_policy on_established 8) as (Hl & _).
  - simpl; lia.
  - reflexivity.
  - simpl; lia.
  - exact Hl.
Defined.

End WebsocketProps.
(** ** The trade processor *)

Module ProcessorProps.
Import Parser ParserProps Window WindowProps Processor Correlation.

Lemma map_insert_same {A B} (f : A -> B) (l : list A) (i : nat) (x y : A) :
  l !! i = Some y -> f x = f y -> map f (<[i := x]> l) = map f l.
Proof.
  revert i. induction l as [|a l IH]; intros [|i]; simpl; try discriminate.
  - intros [= ->] ->. reflexivity.
  - intros Hl Hf. f_equal. apply IH; assumption.
Qed.

Lemma symbol_window_ready (fuel : nat) (symbols : list (symbol_data float)) (idx : Z) :
  length symbols = Z.to_nat NUM_SYMBOLS ->
  Forall (fun s => sw_wf (sd_trade_window s) /\
                   (Z.to_nat (sw_capacity (sd_trade_window s)) <= fuel)%nat)
         symbols ->
  0 <= idx < NUM_SYMBOLS ->
  symbols !! Z.to_nat idx = Some (symbol_at symbols idx) /\
  sw_wf (sd_trade_window (symbol_at symbols idx)) /\
  (Z.to_nat (sw_size (sd_trade_window (symbol_at symbols idx))) <= fuel)%nat.
Proof.
  intros Hlen Hall Hidx. unfold NUM_SYMBOLS in *.
  assert (Hlt : (Z.to_nat idx < length symbols)%nat) by lia.
  assert (Hs : symbols !! Z.to_nat idx = Some (symbol_at symbols idx)).
  { destruct (lookup_lt_is_Some_2 symbols _ Hlt) as [s Hs0].
    unfold symbol_at. erewrite nth_lookup_Some by exact Hs0. exact Hs0. }
  destruct (Forall_lookup_1 _ _ _ _ Hall Hs) as [Hwf Hfuel].
  split; [exact Hs|]. split; [exact Hwf|].
  destruct Hwf as (_ & _ & _ & Hsz & _). lia.
Qed.

Section Libc.
Variable strtod : string -> float * string * bool.
Variable strtoll : string -> Z * string * bool.

Lemma parse_okx_trade_inv (now : Z) (json : string) (msg m : raw_trade_message) :
  parse_okx_trade strtod strtoll now json msg = Some m ->
  0 <= msg_symbol_index m < NUM_SYMBOLS /\
  msg_raw_json m = msg_raw_json msg /\
  msg_receive_ts_ms m = msg_receive_ts_ms msg /\
  exists cursor,
    parse_trade_head strtod json
      = Some (msg_symbol_index m, msg_price m, msg_size m, cursor) /\
    msg_exchange_ts_ms m = parse_trade_timestamp strtoll now cursor.
Proof.
  unfold parse_okx_trade.
  destruct (parse_trade_head strtod json) as [[[[idx price] size] cursor]|] eqn:E;
    [|discriminate].
  intros [= <-]. simpl.
  destruct (parse_trade_head_ok strtod json idx price size cursor E) as (Hi & _).
  split; [exact Hi|]. split; [reflexivity|]. split; [reflexivity|].
  exists cursor. split; reflexivity.
Qed.

(** X10.  One iteration of the processor loop.  A message the parser rejects
    changes nothing and logs nothing.  An accepted message changes only the
    trade window of the symbol it names, where the trade (exchange timestamp,
    price, size) becomes the newest live entry; every other window, every
    history and every name stays as it was; and when that symbol's trade
    log is open (descriptor not negative) one line is written to it, the
    text of the received frame followed by a newline, and none when it is
    not open. *)
Theorem process_message_updates_one_window (fuel : nat)
    (now_parse now_process latency_log_fd : Z)
    (symbols : list (symbol_data float)) (msg : raw_trade_message) :
  length symbols = Z.to_nat NUM_SYMBOLS ->
  Forall (fun s => sw_wf (sd_trade_window s) /\
                   (Z.to_nat (sw_capacity (sd_trade_window s)) <= fuel)%nat)
         symbols ->
  exists r,
    process_message strtod strtoll fuel now_parse now_process latency_log_fd
                    symbols msg = Some r /\
    length (pr_symbols r) = length symbols /\
    map sd_symbol (pr_symbols r) = map sd_symbol symbols /\
    map sd_vwap_hist (pr_symbols r) = map sd_vwap_hist symbols /\
    match parse_okx_trade strtod strtoll now_parse (msg_raw_json msg) msg with
    | None =>
        pr_symbols r = symbols /\ pr_trade_line r = None /\ pr_latency r = None
    | Some m =>
        let idx := msg_symbol_index m in
        let w' := sd_trade_window (symbol_at (pr_symbols r) idx) in
        0 <= idx < NUM_SYMBOLS /\
        (forall j, 0 <= j -> j <> idx ->
                   symbol_at (pr_symbols r) j = symbol_at symbols j) /\
        sw_wf w' /\
        last (sw_live w') =
          Some (mk_processed_trade (msg_exchange_ts_ms m) (msg_price m) (msg_size m)) /\
        pr_trade_line r =
          (if sd_trade_log_fd (symbol_at symbols idx) <? 0 then None
           else Some (sd_trade_log_fd (symbol_at symbols idx),
                      String.append (msg_raw_json msg)
                                    (String "010"%char EmptyString)))
    end.
Proof.
  intros Hlen Hall. unfold process_message.
  destruct (parse_okx_trade strtod strtoll now_parse (msg_raw_json msg) msg)
    as [m|] eqn:Hparse.
  - destruct (parse_okx_trade_inv _ _ _ _ Hparse) as (Hidx & Hraw & _ & _).
    set (idx := msg_symbol_index m) in *.
    destruct (symbol_window_ready fuel symbols idx Hlen Hall Hidx)
      as (Hs & Hwf & Hfuel').
    assert (Hlt : (Z.to_nat idx < length symbols)%nat)
      by (unfold NUM_SYMBOLS in *; lia).
    destruct (sliding_window_add_trade_spec fuel
                (sd_trade_window (symbol_at symbols idx))
                (msg_exchange_ts_ms m) (msg_price m) (msg_size m) Hwf Hfuel')
      as (w' & Hadd & Hwf' & _ & Hlive & _).
    rewrite Hadd. eexists. split; [reflexivity|]. simpl pr_symbols.
    split; [apply length_insert|].
    split; [apply map_insert_same with (y := symbol_at symbols idx); [exact Hs|reflexivity]|].
    split; [apply map_insert_same with (y := symbol_at symbols idx); [exact Hs|reflexivity]|].
    simpl pr_trade_line.
    assert (Hnew : symbol_at
                     (<[Z.to_nat idx :=
                          mk_symbol_data (sd_symbol (symbol_at symbols idx)) w'
                            (sd_vwap_hist (symbol_at symbols idx))
                            (sd_trade_log_fd (symbol_at symbols idx))]> symbols) idx
                   = mk_symbol_data (sd_symbol (symbol_at symbols idx)) w'
                       (sd_vwap_hist (symbol_at symbols idx))
                       (sd_trade_log_fd (symbol_at symbols idx))).
    { unfold symbol_at at 1. apply nth_insert_eq. exact Hlt. }
    cbv zeta. rewrite Hnew. simpl sd_trade_window.
    split; [exact Hidx|].
    split.
    { intros j Hj Hne. unfold symbol_at. apply nth_insert_ne. lia. }
    split; [exact Hwf'|].
    split; [rewrite Hlive; apply last_snoc|].
    unfold trade_log_append. rewrite Hraw. reflexivity.
  - eexists. split; [reflexivity|]. simpl. repeat split; reflexivity.
Qed.

(** X11.  The latency row of a message whose exchange timestamp was missing or
    invalid.  The parser substitutes the clock, read after the frame was
    received, so the row records that reading as the exchange time, a network
    latency that is never positive, and a total that only covers the time from
    parsing to logging; the total is still the sum of the two parts. *)
Theorem fallback_latency_not_positive (fuel : nat)
    (now_parse now_process latency_log_fd : Z)
    (symbols : list (symbol_data float)) (msg : raw_trade_message)
    (idx : Z) (price size : float) (cursor : string) :
  length symbols = Z.to_nat NUM_SYMBOLS ->
  Forall (fun s => sw_wf (sd_trade_window s) /\
                   (Z.to_nat (sw_capacity (sd_trade_window s)) <= fuel)%nat)
         symbols ->
  parse_trade_head strtod (msg_raw_json msg) = Some (idx, price, size, cursor) ->
  ts_missing_or_invalid strtoll cursor ->
  0 <= latency_log_fd ->
  0 <= msg_receive_ts_ms msg <= now_parse ->
  now_parse <= now_process < 2 ^ 62 ->
  exists r row,
    process_message strtod strtoll fuel now_parse now_process latency_log_fd
                    symbols msg = Some r /\
    pr_latency r = Some row /\
    lat_symbol_index row = idx /\
    lat_exchange_ts_ms row = now_parse /\
    lat_network row = msg_receive_ts_ms msg - now_parse /\
    lat_network row <= 0 /\
    lat_total row = now_process - now_parse /\
    lat_total row = lat_network row + lat_processing row.
Proof.
  intros Hlen Hall Hhead Hts Hfd Hrecv Hnow. unfold process_message, parse_okx_trade.
  rewrite Hhead. cbn [msg_symbol_index msg_exchange_ts_ms msg_receive_ts_ms
                      msg_price msg_size].
  rewrite (parse_trade_timestamp_fallback strtoll now_parse cursor Hts).
  destruct (parse_trade_head_ok strtod _ idx price size cursor Hhead) as (Hidx & _).
  destruct (symbol_window_ready fuel symbols idx Hlen Hall Hidx)
    as (_ & Hwf & Hfuel').
  destruct (sliding_window_add_trade_spec fuel
              (sd_trade_window (symbol_at symbols idx))
              now_parse price size Hwf Hfuel') as (w' & Hadd & _).
  rewrite Hadd. unfold log_latency_metrics.
  destruct (Z.ltb_spec latency_log_fd 0); [lia|].
  do 2 eexists. split; [reflexivity|]. cbn [pr_latency].
  split; [reflexivity|]. simpl.
  change (2 ^ 62) with 4611686018427387904 in *.
  rewrite !wrap64s_small
    by (unfold in_int64, INT64_MIN, INT64_MAX;
        change (2 ^ 63) with 9223372036854775808; lia).
  repeat split; lia.
Qed.

End Libc.

Lemma process_message_updates_one_window_witness :
  exists r,
    process_message decimal_strtod decimal_strtoll (Z.to_nat WINDOW_CAPACITY)
      1700000000000 1700000000004 7 CorrelationSpec.self_only_symbols
      (received (trade_json None) 1699999999990) = Some r /\
    last (sw_live (sd_trade_window (symbol_at (pr_symbols r) 0))) =
      Some (mk_processed_trade 1700000000000 px_27340_8 sz_0_0005) /\
    pr_trade_line r =
      Some (3, String.append (trade_json None) (String "010"%char EmptyString)).
Proof.
  destruct (process_message_updates_one_window decimal_strtod decimal_strtoll
              (Z.to_nat WINDOW_CAPACITY) 1700000000000 1700000000004 7
              CorrelationSpec.self_only_symbols
              (received (trade_json None) 1699999999990))
    as (r & Hr & _ & _ & _ & Hm).
  - reflexivity.
  - unfold CorrelationSpec.self_only_symbols, CorrelationSpec.symbol_with.
    repeat constructor; try apply sliding_window_init_wf; apply Nat.le_refl.
  - exists r. split; [exact Hr|].
    assert (Hp : parse_okx_trade decimal_strtod decimal_strtoll 1700000000000
                   (msg_raw_json (received (trade_json None) 1699999999990))
                   (received (trade_json None) 1699999999990)
                 = Some {| msg_symbol_index := 0;
                           msg_exchange_ts_ms := 1700000000000;
                           msg_price := px_27340_8;
                           msg_size := sz_0_0005;
                           msg_raw_json := trade_json None;
                           msg_receive_ts_ms := 1699999999990 |})
      by (vm_compute; reflexivity).
    rewrite Hp in Hm. destruct Hm as (_ & _ & _ & Hlast & Hline).
    split; [exact Hlast | exact Hline].
Defined.

Lemma fallback_latency_not_positive_witness :
  exists r row,
    process_message decimal_strtod decimal_strtoll (Z.to_nat WINDOW_CAPACITY)
      1700000000000 1700000000004 7 CorrelationSpec.self_only_symbols
      (received (trade_json None) 1699999999990) = Some r /\
    pr_latency r = Some row /\ lat_network row = -10 /\ lat_total row = 4.
Proof.
  destruct (fallback_latency_not_positive decimal_strtod decimal_strtoll
              (Z.to_nat WINDOW_CAPACITY) 1700000000000 1700000000004 7
              CorrelationSpec.self_only_symbols
              (received (trade_json None) 1699999999990)
              0 px_27340_8 sz_0_0005 after_size)
    as (r & row & Hr & Hrow & _ & _ & Hn & _ & Ht & _).
  - reflexivity.
  - unfold CorrelationSpec.self_only_symbols, CorrelationSpec.symbol_with.
    repeat constructor; try apply sliding_window_init_wf; apply Nat.le_refl.
  - vm_compute. reflexivity.
  - vm_compute. exact I.
  - lia.
  - simpl. lia.
  - lia.
  - exists r, row. split; [exact Hr|]. split; [exact Hrow|].
    split; [exact Hn | exact Ht].
Defined.

End ProcessorProps.
(** ** The history ring: what is kept and what is read back *)

Module HistoryExtra.
Import History HistoryProps.

Lemma keep_last_keep_last {A} (n m : nat) (l : list A) :
  (n <= m)%nat -> keep_last n (keep_last m l) = keep_last n l.
Proof.
  intros Hnm. unfold keep_last. rewrite length_drop, drop_drop. f_equal. lia.
Qed.

Section Generic.
Context {F : Type} `{Scalar F}.
Implicit Types (h : vwap_history F) (pts : list (vwap_point F)).

Lemma append_all_keep_last pts :
  forall h, vh_wf h ->
  vh_wf (append_all h pts) /\
  vh_capacity (append_all h pts) = vh_capacity h /\
  vh_live (append_all h pts) =
    keep_last (Z.to_nat (vh_capacity h)) (vh_live h ++ pts).
Proof.
  induction pts as [|p rest IH]; intros h Hwf.
  - simpl. split; [assumption|]. split; [reflexivity|].
    rewrite app_nil_r, keep_last_short; [reflexivity|].
    rewrite vh_live_length. destruct Hwf as (_ & _ & _ & Hs & _). lia.
  - destruct (vwap_history_append_spec h (minute_ts_ms p) (vwap p) Hwf)
      as (Hwf1 & Hcap1 & Hlive1).
    destruct (IH _ Hwf1) as (Hwf' & Hcap' & Hlive').
    change (append_all h (p :: rest))
      with (append_all (vwap_history_append h (minute_ts_ms p) (vwap p)) rest).
    split; [assumption|]. split; [congruence|].
    rewrite Hlive', Hlive1, Hcap1.
    replace (mk_vwap_point (minute_ts_ms p) (vwap p)) with p by (destruct p; reflexivity).
    pose proof (vh_live_length h) as Hlen.
    destruct Hwf as (Hc & _ & _ & Hs & _).
    destruct (Z.eqb_spec (vh_size h) (vh_capacity h)) as [Hfull|Hroom].
    + destruct (vh_live h) as [|a c] eqn:El; [simpl in Hlen; lia|].
      simpl tail. rewrite <- !app_assoc. simpl.
      rewrite (keep_last_cons _ a); [reflexivity|].
      rewrite length_app. simpl in *. lia.
    + rewrite <- app_assoc. reflexivity.
Qed.

(** X16.  The history keeps the most recent [capacity] points, oldest first:
    appending any number of points to a well-formed history leaves exactly the
    last [capacity] of the points stored or appended, in order. *)
Theorem append_all_keeps_newest h pts :
  vh_wf h ->
  vh_wf (append_all h pts) /\
  vh_live (append_all h pts) =
    keep_last (Z.to_nat (vh_capacity h)) (vh_live h ++ pts) /\
  vh_size (append_all h pts) =
    Z.min (vh_capacity h) (vh_size h + Z.of_nat (length pts)).
Proof.
  intros Hwf. destruct (append_all_keep_last pts h Hwf) as (Hwf' & Hcap & Hlive).
  split; [assumption|]. split; [assumption|].
  pose proof (vh_live_length (append_all h pts)) as Hl'.
  pose proof (vh_live_length h) as Hl.
  rewrite Hlive, keep_last_length, length_app, Hl in Hl'.
  destruct Hwf as (Hc & _ & _ & Hs & _). destruct Hwf' as (_ & _ & _ & Hs' & _).
  lia.
Qed.

(** X17.  Reading back what was appended: after any appends, asking for the [n]
    most recent points fails exactly when fewer than [n] are stored, and
    otherwise returns the last [n] of the points stored or appended, oldest
    first. *)
Theorem get_recent_after_append h pts (n : Z) :
  vh_wf h -> 0 <= n ->
  vwap_history_get_recent (append_all h pts) n =
    if Z.min (vh_capacity h) (vh_size h + Z.of_nat (length pts)) <? n then None
    else Some (keep_last (Z.to_nat n) (vh_live h ++ pts)).
Proof.
  intros Hwf Hn. destruct (append_all_keep_last pts h Hwf) as (Hwf' & Hcap & Hlive).
  rewrite (vwap_history_get_recent_spec _ n Hwf' Hn).
  pose proof (vh_live_length (append_all h pts)) as Hl'.
  pose proof (vh_live_length h) as Hl.
  rewrite Hlive, keep_last_length, length_app, Hl in Hl'.
  assert (Hsz : vh_size (append_all h pts)
                = Z.min (vh_capacity h) (vh_size h + Z.of_nat (length pts))).
  { destruct Hwf as (Hc & _ & _ & Hs & _). destruct Hwf' as (_ & _ & _ & Hs' & _).
    lia. }
  rewrite Hsz.
  destruct (Z.ltb_spec (Z.min (vh_capacity h) (vh_size h + Z.of_nat (length pts))) n)
    as [|Hge]; [reflexivity|].
  f_equal. rewrite Hlive.
  rewrite <- (keep_last_keep_last (Z.to_nat n) (Z.to_nat (vh_capacity h))) by lia.
  unfold keep_last at 2. f_equal.
  rewrite keep_last_length, length_app, Hl. lia.
Qed.

End Generic.

Lemma append_all_keeps_newest_witness :
  vh_live (append_all (vwap_history_init (F := float) 2)
             (CorrelationSpec.points_of [1; 2; 3]%float))
  = drop 1 (CorrelationSpec.points_of [1; 2; 3]%float).
Proof.
  destruct (append_all_keeps_newest (vwap_history_init (F := float) 2)
              (CorrelationSpec.points_of [1; 2; 3]%float)) as (_ & Hl & _).
  - apply vwap_history_init_wf. lia.
  - exact Hl.
Defined.

Lemma get_recent_after_append_witness :
  vwap_history_get_recent
    (append_all (vwap_history_init (F := float) 2)
       (CorrelationSpec.points_of [1; 2; 3]%float)) 2
  = Some (drop 1 (CorrelationSpec.points_of [1; 2; 3]%float)).
Proof.
  apply (get_recent_after_append (vwap_history_init (F := float) 2)
           (CorrelationSpec.points_of [1; 2; 3]%float) 2).
  - apply vwap_history_init_wf. lia.
  - lia.
Defined.

End HistoryExtra.
(** ** The sliding window: what it holds *)

Module WindowExtra.
Import Window WindowProps Recent.

Section Generic.
Context {F : Type} `{Scalar F}.
Implicit Types (w : sliding_window F) (l : list (processed_trade F)).

Lemma evicted_count_le w (ts_ms : Z) :
  sw_wf w -> (evicted_count w ts_ms <= length (sw_live w))%nat.
Proof.
  intros (Hc & _ & _ & Hs & _). unfold evicted_count.
  pose proof (expired_prefix_le (wrap64s (ts_ms - WINDOW_MS)) (sw_live w)) as Hk.
  rewrite sw_live_length in *.
  destruct (Z.eqb_spec (sw_size w -
              Z.of_nat (expired_prefix (wrap64s (ts_ms - WINDOW_MS)) (sw_live w)))
              (sw_capacity w)); lia.
Qed.

Lemma add_trades_suffix_gen (fuel : nat) (trades : list (processed_trade F)) :
  forall w,
  sw_wf w -> (Z.to_nat (sw_capacity w) <= fuel)%nat ->
  exists w' (k : nat),
    add_trades fuel w trades = Some w' /\ sw_wf w' /\
    sw_capacity w' = sw_capacity w /\
    sw_live w' = drop k (sw_live w ++ trades) /\
    (trades <> [] -> last (sw_live w') = last trades).
Proof.
  induction trades as [|t rest IH]; intros w Hwf Hfuel.
  - exists w, 0%nat. simpl. rewrite app_nil_r.
    split_ands; try reflexivity; try assumption. congruence.
  - assert (Hf1 : (Z.to_nat (sw_size w) <= fuel)%nat)
      by (destruct Hwf as (_ & _ & _ & Hs & _); lia).
    destruct (sliding_window_add_trade_spec fuel w (trade_ts_ms t) (pt_price t)
                (pt_size t) Hwf Hf1) as (w1 & Hadd & Hwf1 & Hcap1 & Hlive1 & _).
    replace (mk_processed_trade (trade_ts_ms t) (pt_price t) (pt_size t)) with t
      in Hlive1 by (destruct t; reflexivity).
    destruct (IH w1 Hwf1 ltac:(lia)) as (w' & k & Hrest & Hwf' & Hcap' & Hlive' & Hlast).
    exists w', (evicted_count w (trade_ts_ms t) + k)%nat.
    simpl add_trades. rewrite Hadd.
    split_ands; try assumption; try congruence.
    + rewrite Hlive', Hlive1, <- drop_drop.
      rewrite (drop_app_le (sw_live w)) by (apply evicted_count_le; assumption).
      rewrite <- app_assoc. reflexivity.
    + intros _. destruct rest as [|t2 rest'].
      * simpl in Hrest. injection Hrest as <-. rewrite Hlive1. apply last_snoc.
      * rewrite Hlast by discriminate. rewrite last_cons_cons. reflexivity.
Qed.

(** X12.  Whatever the timestamps and values, and whether or not the ring
    overflows, feeding trades never reorders or invents entries: the live
    entries are always a suffix of the entries that were live followed by the
    trades fed, never more than the capacity, and the newest live entry is the
    last trade fed. *)
Theorem add_trades_live_suffix (fuel : nat) w (trades : list (processed_trade F)) :
  sw_wf w -> (Z.to_nat (sw_capacity w) <= fuel)%nat ->
  exists w' (k : nat),
    add_trades fuel w trades = Some w' /\ sw_wf w' /\
    sw_live w' = drop k (sw_live w ++ trades) /\
    Z.of_nat (length (sw_live w')) <= sw_capacity w /\
    (trades <> [] -> last (sw_live w') = last trades).
Proof.
  intros Hwf Hfuel.
  destruct (add_trades_suffix_gen fuel trades w Hwf Hfuel)
    as (w' & k & Hadd & Hwf' & Hcap & Hlive & Hlast).
  exists w', k. split_ands; try assumption.
  rewrite sw_live_length. destruct Hwf' as (_ & _ & _ & Hs & _). lia.
Qed.

(** X13.  A full ring makes room by discarding its oldest entry even when that entry
    is still inside the time window: the live entries lose exactly their
    first element, gain the new trade as the last, and the running sums have
    the discarded entry subtracted. *)
Theorem sliding_window_overflow_drops_oldest (fuel : nat) w (ts_ms : Z)
    (price size : F) :
  sw_wf w -> (Z.to_nat (sw_capacity w) <= fuel)%nat ->
  sw_size w = sw_capacity w ->
  wrap64s (ts_ms - WINDOW_MS) <= trade_ts_ms (sw_head w) ->
  exists w',
    sliding_window_add_trade fuel w ts_ms price size = Some w' /\
    sw_wf w' /\ sw_size w' = sw_capacity w /\
    sw_live w' = tail (sw_live w) ++ [mk_processed_trade ts_ms price size] /\
    sw_sum_price_volume w' =
      sc_add (sc_sub (sw_sum_price_volume w) (trade_pv (sw_head w)))
             (sc_mul price size) /\
    sw_sum_volume w' =
      sc_add (sc_sub (sw_sum_volume w) (pt_size (sw_head w))) size.
Proof.
  intros Hwf Hfuel Hfull Hfresh.
  assert (Hf1 : (Z.to_nat (sw_size w) <= fuel)%nat) by lia.
  destruct (sliding_window_add_trade_spec fuel w ts_ms price size Hwf Hf1)
    as (w' & Hadd & Hwf' & Hcap & Hlive & Hpv & Hv).
  assert (Hpos : 0 < sw_size w) by (destruct Hwf as (Hc & _); lia).
  destruct (sw_evict_head_spec w Hwf Hpos) as (_ & Hl & _).
  assert (Hk : expired_prefix (wrap64s (ts_ms - WINDOW_MS)) (sw_live w) = 0%nat).
  { rewrite Hl. simpl. destruct (Z.ltb_spec (trade_ts_ms (sw_head w))
                                   (wrap64s (ts_ms - WINDOW_MS))); [lia|reflexivity]. }
  assert (He : evicted_count w ts_ms = 1%nat).
  { unfold evicted_count. rewrite Hk. simpl Z.of_nat. rewrite Z.sub_0_r.
    destruct (Z.eqb_spec (sw_size w) (sw_capacity w)); [reflexivity|lia]. }
  rewrite He in Hlive, Hpv, Hv. rewrite Hl in Hpv, Hv. simpl in Hpv, Hv.
  exists w'. split_ands; try assumption.
  - pose proof (sw_live_length w') as Hlen. rewrite Hlive in Hlen.
    rewrite length_app, length_drop, sw_live_length in Hlen. simpl in Hlen.
    destruct Hwf' as (_ & _ & _ & Hs & _). lia.
Qed.

(** *** In-order feeds that fit the ring *)

Lemma filter_idem_weaker (c0 c : Z) l :
  c0 <= c ->
  List.filter (fun t => c <=? trade_ts_ms t)
    (List.filter (fun t => c0 <=? trade_ts_ms t) l)
  = List.filter (fun t => c <=? trade_ts_ms t) l.
Proof.
  intros Hc. induction l as [|a l IH]; [reflexivity|]. simpl.
  destruct (Z.leb_spec c0 (trade_ts_ms a)); simpl.
  - rewrite IH. reflexivity.
  - destruct (Z.leb_spec c (trade_ts_ms a)); [lia|]. exact IH.
Qed.

Lemma filter_all_ge (c : Z) l :
  Forall (fun t => c <= trade_ts_ms t) l ->
  List.filter (fun t => c <=? trade_ts_ms t) l = l.
Proof.
  induction 1 as [|a l Ha _ IH]; [reflexivity|]. simpl.
  destruct (Z.leb_spec c (trade_ts_ms a)); [|lia]. rewrite IH. reflexivity.
Qed.

Lemma drop_expired_filter (c : Z) l :
  ts_sorted l ->
  drop (expired_prefix c l) l = List.filter (fun t => c <=? trade_ts_ms t) l.
Proof.
  induction l as [|a l IH]; [reflexivity|]. intros [Hall Hs]. simpl.
  destruct (Z.ltb_spec (trade_ts_ms a) c) as [Hlt|Hge].
  - destruct (Z.leb_spec c (trade_ts_ms a)); [lia|]. simpl. apply IH, Hs.
  - destruct (Z.leb_spec c (trade_ts_ms a)); [|lia]. simpl. f_equal.
    symmetry. apply filter_all_ge.
    eapply Forall_impl; [exact Hall|]. simpl. intros; lia.
Qed.

Lemma ts_sorted_filter (c : Z) l :
  ts_sorted l -> ts_sorted (List.filter (fun t => c <=? trade_ts_ms t) l).
Proof.
  induction l as [|a l IH]; [auto|]. intros [Hall Hs]. simpl.
  destruct (c <=? trade_ts_ms a); [|auto]. simpl. split; [|auto].
  apply Forall_forall. intros u Hu. apply list_elem_of_In, filter_In in Hu as [Hu _].
  rewrite Forall_forall in Hall. apply Hall.
  apply list_elem_of_In. exact Hu.
Qed.

Lemma filter_length_le (c : Z) l :
  (length (List.filter (fun t => (c <=? trade_ts_ms t)%Z) l) <= length l)%nat.
Proof.
  induction l as [|a l IH]; simpl; [lia|].
  destruct (c <=? trade_ts_ms a); simpl; lia.
Qed.

Lemma add_trades_recent_gen (fuel : nat) (trades : list (processed_trade F)) :
  forall w (seen : list (processed_trade F)) (prev : Z),
  sw_wf w -> (Z.to_nat (sw_capacity w) <= fuel)%nat ->
  ts_sorted seen -> Forall (fun t => trade_ts_ms t <= prev) seen ->
  sw_live w = recent_trades prev seen ->
  time_ordered prev trades -> INT64_MIN + WINDOW_MS <= prev ->
  Z.of_nat (length seen + length trades) <= sw_capacity w ->
  exists w',
    add_trades fuel w trades = Some w' /\ sw_wf w' /\
    sw_capacity w' = sw_capacity w /\
    sw_live w' = recent_trades (newest_ts prev trades) (seen ++ trades).
Proof.
  induction trades as [|t rest IH];
    intros w seen prev Hwf Hfuel Hsorted Hle Hlive Hord Hprev Hfit.
  - exists w. simpl. rewrite app_nil_r.
    split_ands; try reflexivity; assumption.
  - destruct Hord as (Hpt & Hin & Hord').
    assert (Hf1 : (Z.to_nat (sw_size w) <= fuel)%nat)
      by (destruct Hwf as (_ & _ & _ & Hs & _); lia).
    destruct (sliding_window_add_trade_spec fuel w (trade_ts_ms t) (pt_price t)
                (pt_size t) Hwf Hf1) as (w1 & Hadd & Hwf1 & Hcap1 & Hlive1 & _).
    replace (mk_processed_trade (trade_ts_ms t) (pt_price t) (pt_size t)) with t
      in Hlive1 by (destruct t; reflexivity).
    assert (Hcut : wrap64s (trade_ts_ms t - WINDOW_MS) = trade_ts_ms t - WINDOW_MS).
    { apply wrap64s_small.
      unfold in_int64, INT64_MIN, INT64_MAX, WINDOW_MS, WINDOW_MINUTES in *. lia. }
    assert (Hsize : Z.of_nat (length (sw_live w)) < sw_capacity w).
    { rewrite Hlive. unfold recent_trades.
      pose proof (filter_length_le (prev - WINDOW_MS) seen).
      simpl length in Hfit. lia. }
    assert (He : evicted_count w (trade_ts_ms t)
                 = expired_prefix (trade_ts_ms t - WINDOW_MS) (sw_live w)).
    { unfold evicted_count. rewrite Hcut. rewrite sw_live_length in Hsize.
      destruct (Z.eqb_spec (sw_size w -
                  Z.of_nat (expired_prefix (trade_ts_ms t - WINDOW_MS) (sw_live w)))
                  (sw_capacity w)); [|reflexivity].
      destruct Hwf as (_ & _ & _ & Hs & _). lia. }
    assert (Hlive1' : sw_live w1 = recent_trades (trade_ts_ms t) (seen ++ [t])).
    { rewrite Hlive1, He, Hlive. unfold recent_trades.
      rewrite drop_expired_filter by (apply ts_sorted_filter; assumption).
      rewrite filter_idem_weaker by lia.
      rewrite List.filter_app. simpl.
      destruct (Z.leb_spec (trade_ts_ms t - WINDOW_MS) (trade_ts_ms t));
        [reflexivity|unfold WINDOW_MS, WINDOW_MINUTES in *; lia]. }
    destruct (IH w1 (seen ++ [t]) (trade_ts_ms t)) as (w' & Hrest & Hwf' & Hcap' & Hlive');
      try assumption.
    + lia.
    + apply ts_sorted_snoc; [assumption|].
      eapply Forall_impl; [exact Hle|]. simpl. intros; lia.
    + apply Forall_app. split.
      * eapply Forall_impl; [exact Hle|]. simpl. intros; lia.
      * repeat constructor. lia.
    + unfold in_int64, INT64_MIN, INT64_MAX in *. lia.
    + rewrite length_app. simpl length in *. lia.
    + exists w'. simpl add_trades. rewrite Hadd.
      split_ands; try assumption; try congruence.
      rewrite Hlive', <- app_assoc. simpl.
      f_equal. unfold newest_ts.
      destruct rest as [|t2 rest']; [reflexivity|].
      rewrite last_cons_cons.
      destruct (last (t2 :: rest')) eqn:E; [reflexivity|].
      apply last_None in E. discriminate.
Qed.

(** X14.  Trades fed in timestamp order to a fresh window, no more of them than the
    ring has slots: the live entries are then exactly the trades fed whose
    timestamp is within 15 minutes of the newest one, in arrival order;
    nothing recent is lost and nothing older is kept. *)
Theorem add_trades_live_is_recent (fuel : nat) (prev : Z)
    (trades : list (processed_trade F)) :
  time_ordered prev trades -> INT64_MIN + WINDOW_MS <= prev ->
  Z.of_nat (length trades) <= WINDOW_CAPACITY ->
  (Z.to_nat WINDOW_CAPACITY <= fuel)%nat ->
  exists w',
    add_trades fuel sliding_window_init trades = Some w' /\ sw_wf w' /\
    sw_live w' = recent_trades (newest_ts prev trades) trades.
Proof.
  intros Hord Hprev Hfit Hfuel.
  destruct (add_trades_recent_gen fuel trades sliding_window_init [] prev)
    as (w' & Hadd & Hwf' & _ & Hlive); try assumption.
  - apply sliding_window_init_wf.
  - exact I.
  - constructor.
  - apply sliding_window_init_live.
  - exists w'. split_ands; assumption.
Qed.

End Generic.

Lemma add_trades_live_suffix_witness :
  exists w',
    add_trades (Z.to_nat WINDOW_CAPACITY) sliding_window_init late_print_trades
      = Some w' /\
    last (sw_live w') = Some (mk_processed_trade (WINDOW_MS + 50) 1%float 1%float).
Proof.
  destruct (add_trades_live_suffix (Z.to_nat WINDOW_CAPACITY) sliding_window_init
              late_print_trades) as (w' & k & Hadd & _ & _ & _ & Hlast).
  - apply sliding_window_init_wf.
  - apply Nat.le_refl.
  - exists w'. split; [exact Hadd|]. apply Hlast. discriminate.
Defined.

Lemma sliding_window_overflow_drops_oldest_witness :
  exists w',
    sliding_window_add_trade 2 full_window 2 3%float 1%float = Some w' /\
    sw_live w' = [mk_processed_trade 1 2%float 1%float;
                  mk_processed_trade 2 3%float 1%float].
Proof.
  destruct (sliding_window_overflow_drops_oldest 2 full_window 2 3%float 1%float)
    as (w' & Hadd & _ & _ & Hlive & _).
  - unfold sw_wf; simpl; repeat split; lia.
  - simpl; lia.
  - reflexivity.
  - vm_compute; discriminate.
  - exists w'. split; [exact Hadd | exact Hlive].
Defined.

Lemma add_trades_live_is_recent_witness :
  exists w',
    add_trades (Z.to_nat WINDOW_CAPACITY) sliding_window_init cancelling_trades
      = Some w' /\
    sw_live w' = drop 1 cancelling_trades.
Proof.
  destruct (add_trades_live_is_recent (Z.to_nat WINDOW_CAPACITY) 0 cancelling_trades)
    as (w' & Hadd & _ & Hlive).
  - unfold cancelling_trades; simpl.
    unfold in_int64, INT64_MIN, INT64_MAX, WINDOW_MS, WINDOW_MINUTES.
    repeat split; lia.
  - unfold INT64_MIN, WINDOW_MS, WINDOW_MINUTES; lia.
  - unfold WINDOW_CAPACITY; simpl; lia.
  - apply Nat.le_refl.
  - exists w'. split; [exact Hadd | exact Hlive].
Defined.

(** *** The snapshot while nothing is evicted *)

(** X15.  In the program's double arithmetic (and any other put behind the
    same operations): for trades fed to a fresh window, no more of them than
    the ring holds and with timestamps so close that no call evicts an entry,
    the window holds exactly these trades and the snapshot is the very double
    that recomputing from scratch gives: the sum of price times size over the
    sum of sizes, both accumulated from 0 in arrival order, NaN when the
    volume is not positive. *)
Theorem snapshot_vwap_is_window_average {F : Type} `{Scalar F} (fuel : nat)
    (lo : Z) (trades : list (processed_trade F)) :
  within_span lo trades ->
  Z.of_nat (length trades) <= WINDOW_CAPACITY ->
  (Z.to_nat WINDOW_CAPACITY <= fuel)%nat ->
  exists w',
    add_trades fuel sliding_window_init trades = Some w' /\
    sw_live w' = trades /\
    sliding_window_snapshot_vwap w' = arrival_vwap trades.
Proof.
  intros Hspan Hfit Hfuel.
  destruct (no_eviction_add_trades fuel lo trades sliding_window_init)
    as (w' & Hadd & _ & Hlive & Hpv & Hv); try assumption.
  - apply sliding_window_init_wf.
  - apply sliding_window_init_sums_exact.
  - rewrite sliding_window_init_live. constructor.
  - rewrite sliding_window_init_live in Hlive. simpl in Hlive.
    exists w'. split; [exact Hadd|]. split; [exact Hlive|].
    unfold sliding_window_snapshot_vwap, arrival_vwap.
    rewrite Hpv, Hv. unfold naive_sum_price_volume, naive_sum_volume.
    rewrite Hlive. reflexivity.
Qed.

Lemma snapshot_vwap_is_window_average_witness :
  exists w',
    add_trades (Z.to_nat WINDOW_CAPACITY) sliding_window_init three_close_trades
      = Some w' /\
    sw_live w' = three_close_trades /\
    sliding_window_snapshot_vwap w' = arrival_vwap three_close_trades.
Proof.
  apply (snapshot_vwap_is_window_average (Z.to_nat WINDOW_CAPACITY) 1000
           three_close_trades).
  - unfold within_span, three_close_trades.
    repeat constructor; vm_compute; discriminate.
  - vm_compute; discriminate.
  - apply Nat.le_refl.
Defined.

End WindowExtra.
(** ** The correlation worker: what a tick writes *)

Module WorkerExtra.
Import History Correlation CorrelationSpec HistoryProps DoubleFacts CorrelationProps
       WorkerProps Magnitude Strongest.

(** The rows of one source symbol: none or one. *)
Lemma rows_of_symbol (symbols : list (symbol_data float)) (cm i : Z) :
  match correlation_for_symbol symbols cm i with
  | Some (_, row) =>
      row_symbol_idx row = i /\ row_minute_ts_ms row = cm /\
      PrimFloat.is_nan (row_corr row) = false /\
      exists j, 0 <= j < NUM_SYMBOLS /\
                row_other_symbol row = sd_symbol (symbol_at symbols j)
  | None => True
  end.
Proof.
  destruct (correlation_for_symbol symbols cm i) as [[j row]|] eqn:E; [|exact I].
  destruct (correlation_for_symbol_row symbols cm i j row E)
    as (_ & _ & Hj & _ & Hnan & Hi & Hm & Ho).
  split; [exact Hi|]. split; [exact Hm|]. split; [exact Hnan|].
  exists j. split; assumption.
Qed.

Lemma tick_rows_upto (symbols : list (symbol_data float)) (cm : Z) (n : nat) :
  let rows :=
    flat_map (fun i => match correlation_for_symbol symbols cm i with
                       | Some (_, row) => [row]
                       | None => []
                       end) (for_range 0 n) in
  (length rows <= n)%nat /\
  Forall (fun row =>
            0 <= row_symbol_idx row < Z.of_nat n /\ row_minute_ts_ms row = cm /\
            PrimFloat.is_nan (row_corr row) = false /\
            exists j, 0 <= j < NUM_SYMBOLS /\
                      row_other_symbol row = sd_symbol (symbol_at symbols j)) rows /\
  (forall (a b : nat) r1 r2, (a < b)%nat -> rows !! a = Some r1 -> rows !! b = Some r2 ->
                             row_symbol_idx r1 < row_symbol_idx r2).
Proof.
  induction n as [|n IH]; cbv zeta.
  - simpl. split; [lia|]. split; [constructor|]. intros a b r1 r2 _ Ha. discriminate.
  - cbv zeta in IH. destruct IH as (Hlen & Hall & Hord).
    rewrite for_range_S, flat_map_app. simpl flat_map. rewrite app_nil_r.
    pose proof (rows_of_symbol symbols cm (0 + Z.of_nat n)) as Hrow.
    set (rows := flat_map _ (for_range 0 n)) in *.
    assert (Hall' : Forall (fun row =>
              0 <= row_symbol_idx row < Z.of_nat (S n) /\ row_minute_ts_ms row = cm /\
              PrimFloat.is_nan (row_corr row) = false /\
              exists j, 0 <= j < NUM_SYMBOLS /\
                        row_other_symbol row = sd_symbol (symbol_at symbols j)) rows).
    { eapply Forall_impl; [exact Hall|]. simpl. intros row (Hi & Hrest).
      split; [lia | exact Hrest]. }
    destruct (correlation_for_symbol symbols cm (0 + Z.of_nat n)) as [[j row]|].
    + destruct Hrow as (Hi & Hm & Hnan & Hj).
      split; [rewrite length_app; simpl; lia|]. split.
      * apply Forall_app. split; [exact Hall'|]. constructor; [|constructor].
        split; [lia|]. split; [exact Hm|]. split; [exact Hnan | exact Hj].
      * intros a b r1 r2 Hab Ha Hb.
        apply lookup_app_Some in Ha, Hb.
        destruct Ha as [Ha|[Hla Ha]], Hb as [Hb|[Hlb Hb]].
        -- eapply Hord; eassumption.
        -- destruct (b - length rows)%nat as [|b'] eqn:Eb; [|discriminate].
           injection Hb as <-.
           rewrite Forall_forall in Hall.
           destruct (Hall r1 (list_elem_of_lookup_2 _ _ _ Ha)) as (Hr1 & _). lia.
        -- apply lookup_lt_Some in Hb. lia.
        -- destruct (a - length rows)%nat as [|a'] eqn:Ea; [|discriminate].
           destruct (b - length rows)%nat as [|b'] eqn:Eb; [lia|discriminate].
    + rewrite app_nil_r. split; [lia|]. split; [exact Hall' | exact Hord].
Qed.

(** X22.  What one tick of the correlation worker writes: at most one row per source
    symbol and never more than eight, in increasing order of the source index;
    every row carries the tick's minute, a correlation that is not NaN, and
    the name of one of the eight symbols as the best match. *)
Theorem correlation_worker_tick_rows (symbols : list (symbol_data float)) (cm : Z) :
  let rows := correlation_worker_tick symbols cm in
  (length rows <= 8)%nat /\
  Forall (fun row =>
            0 <= row_symbol_idx row < NUM_SYMBOLS /\ row_minute_ts_ms row = cm /\
            PrimFloat.is_nan (row_corr row) = false /\
            exists j, 0 <= j < NUM_SYMBOLS /\
                      row_other_symbol row = sd_symbol (symbol_at symbols j)) rows /\
  (forall (a b : nat) r1 r2, (a < b)%nat -> rows !! a = Some r1 -> rows !! b = Some r2 ->
                             row_symbol_idx r1 < row_symbol_idx r2).
Proof.
  exact (tick_rows_upto symbols cm (Z.to_nat NUM_SYMBOLS)).
Qed.

(** X23.  Warm-up.  A symbol with fewer than 8 stored points gets no row; a symbol
    with fewer than 16 stored points is never reported as its own best match;
    and while every history holds fewer than 8 points a tick writes nothing. *)
Theorem correlation_warm_up (symbols : list (symbol_data float)) (cm : Z) :
  (forall i, vh_size (sd_vwap_hist (symbol_at symbols i)) < MOVING_AVG_POINTS ->
             correlation_for_symbol symbols cm i = None) /\
  (forall i row,
      vh_size (sd_vwap_hist (symbol_at symbols i)) < 2 * MOVING_AVG_POINTS ->
      correlation_for_symbol symbols cm i <> Some (i, row)) /\
  ((forall i, 0 <= i < NUM_SYMBOLS ->
              vh_size (sd_vwap_hist (symbol_at symbols i)) < MOVING_AVG_POINTS) ->
   correlation_worker_tick symbols cm = []).
Proof.
  assert (Hnone : forall i,
             vh_size (sd_vwap_hist (symbol_at symbols i)) < MOVING_AVG_POINTS ->
             correlation_for_symbol symbols cm i = None).
  { intros i Hlt. unfold correlation_for_symbol, vwap_history_get_recent.
    destruct (Z.ltb_spec (vh_size (sd_vwap_hist (symbol_at symbols i)))
                MOVING_AVG_POINTS); [reflexivity|lia]. }
  split; [exact Hnone|]. split.
  - intros i row Hlt E.
    destruct (correlation_for_symbol_row symbols cm i i row E)
      as (src & _ & _ & Hres & Hnan & _).
    unfold target_result, find_best_lagged_correlation, self_min_offset in Hres.
    rewrite Z.eqb_refl in Hres.
    destruct (Z.ltb_spec (vh_size (sd_vwap_hist (symbol_at symbols i)))
                (MOVING_AVG_POINTS + MOVING_AVG_POINTS)); [|lia].
    injection Hres as Hc _. rewrite <- Hc in Hnan. discriminate.
  - intros Hall. unfold correlation_worker_tick.
    assert (Hgen : forall l, Forall (fun i => 0 <= i < NUM_SYMBOLS) l ->
              flat_map (fun i => match correlation_for_symbol symbols cm i with
                                 | Some (_, row) => [row]
                                 | None => []
                                 end) l = []).
    { induction 1 as [|i l Hi _ IH]; [reflexivity|]. simpl.
      rewrite (Hnone i (Hall i Hi)). exact IH. }
    apply Hgen. apply Forall_forall. intros i Hi.
    apply list_elem_of_In, in_for_range in Hi. unfold NUM_SYMBOLS in *. simpl in Hi. lia.
Qed.

Section Targets.
Variables (symbols : list (symbol_data float)) (src : list float) (i : Z).

Lemma strongest_inv_step (n : nat) (st : target_state (F := float)) :
  strongest_inv symbols src i n st ->
  strongest_inv symbols src i (S n) (target_step symbols src i st (Z.of_nat n)).
Proof.
  destruct st as [[[b ts] best_j] found]. unfold strongest_inv, target_step.
  fold (target_result symbols src i (Z.of_nat n)).
  assert (Hcn : target_corr symbols src i (Z.of_nat n)
                = fst (target_result symbols src i (Z.of_nat n))) by reflexivity.
  destruct (target_result symbols src i (Z.of_nat n)) as [c cts] eqn:Hres.
  simpl fst in Hcn.
  cbn [sc_isnan sc_abs double_scalar]. unfold sc_gtb. cbn [sc_ltb double_scalar].
  destruct (PrimFloat.is_nan c) eqn:Hnan; cbn [negb].
  - destruct found.
    + intros (Hj & Hbn & Hr & Hmax & Hfirst).
      split_ands; try assumption; try lia.
      intros j Hj' Hn'. destruct (Z.eq_dec j (Z.of_nat n)) as [->|Hne].
      * congruence.
      * apply Hmax; [lia|assumption].
    + intros Hall j Hj. destruct (Z.eq_dec j (Z.of_nat n)) as [->|Hne].
      * congruence.
      * apply Hall. lia.
  - destruct found; cbn [negb orb].
    + intros (Hj & Hbn & Hr & Hmax & Hfirst).
      assert (Hb : target_corr symbols src i best_j = b)
        by (unfold target_corr; rewrite Hr; reflexivity).
      rewrite Hb in *.
      destruct (PrimFloat.ltb (PrimFloat.abs b) (PrimFloat.abs c)) eqn:Hgt.
      * rewrite Hcn.
        split_ands; try assumption; try lia.
        -- intros j Hj' Hn'. destruct (Z.eq_dec j (Z.of_nat n)) as [->|Hne].
           ++ rewrite Hcn. apply abs_le_refl. assumption.
           ++ apply abs_lt_le; try assumption.
              apply (abs_le_lt_trans _ b); try assumption.
              apply Hmax; [lia|assumption].
        -- intros j Hj' Hn'.
           apply (abs_le_lt_trans _ b); try assumption.
           apply Hmax; [lia|assumption].
      * rewrite Hb.
        split_ands; try assumption; try lia.
        intros j Hj' Hn'. destruct (Z.eq_dec j (Z.of_nat n)) as [->|Hne].
        -- rewrite Hcn. apply abs_gt_false_le; assumption.
        -- apply Hmax; [lia|assumption].
    + intros Hall. rewrite Hcn.
      split_ands; try assumption; try lia.
      * intros j Hj' Hn'. destruct (Z.eq_dec j (Z.of_nat n)) as [->|Hne].
        -- rewrite Hcn. apply abs_le_refl. assumption.
        -- rewrite Hall in Hn' by lia. discriminate.
      * intros j Hj' Hn'. rewrite Hall in Hn' by lia. discriminate.
Qed.

Lemma strongest_inv_fold (n : nat) :
  strongest_inv symbols src i n
    (fold_left (target_step symbols src i) (for_range 0 n) (sc_of_int 0, 0, -1, false)).
Proof.
  induction n as [|n IH].
  - simpl. intros j Hj. lia.
  - rewrite for_range_S, fold_left_app. simpl. apply strongest_inv_step. exact IH.
Qed.

End Targets.

(** X24.  The row of a source symbol names its strongest match: among the eight
    targets whose lagged search found a correlation, the one of largest
    magnitude, the lowest index winning ties; the row carries that target's
    correlation and lag timestamp.  When the source vector is available and no
    row is written, no target produced a correlation at all. *)
Theorem correlation_for_symbol_picks_strongest (symbols : list (symbol_data float))
    (current_minute i : Z) (src_points : list (vwap_point float)) :
  vwap_history_get_recent (sd_vwap_hist (symbol_at symbols i)) MOVING_AVG_POINTS
    = Some src_points ->
  match correlation_for_symbol symbols current_minute i with
  | Some (best_j, row) =>
      0 <= best_j < NUM_SYMBOLS /\
      target_result symbols (map vwap src_points) i best_j
        = (row_corr row, row_lag_minute_ts_ms row) /\
      PrimFloat.is_nan (row_corr row) = false /\
      (forall j, 0 <= j < NUM_SYMBOLS ->
                 PrimFloat.is_nan (target_corr symbols (map vwap src_points) i j) = false ->
                 abs_le (target_corr symbols (map vwap src_points) i j) (row_corr row)) /\
      (forall j, 0 <= j < best_j ->
                 PrimFloat.is_nan (target_corr symbols (map vwap src_points) i j) = false ->
                 abs_lt (target_corr symbols (map vwap src_points) i j) (row_corr row))
  | None =>
      forall j, 0 <= j < NUM_SYMBOLS ->
                PrimFloat.is_nan (target_corr symbols (map vwap src_points) i j) = true
  end.
Proof.
  intros Hsrc. unfold correlation_for_symbol. rewrite Hsrc.
  pose proof (strongest_inv_fold symbols (map vwap src_points) i (Z.to_nat NUM_SYMBOLS))
    as Hinv.
  destruct (fold_left _ _ _) as [[[b ts] best_j] found].
  unfold strongest_inv in Hinv. destruct found.
  - destruct Hinv as (Hj & Hbn & Hr & Hmax & Hfirst).
    assert (Hb : target_corr symbols (map vwap src_points) i best_j = b)
      by (unfold target_corr; rewrite Hr; reflexivity).
    rewrite Hb in *. cbn [row_corr row_lag_minute_ts_ms].
    unfold NUM_SYMBOLS in *.
    split_ands; try assumption; try lia.
  - intros j Hj'. apply Hinv. unfold NUM_SYMBOLS in *. lia.
Qed.

Lemma correlation_for_symbol_picks_strongest_witness :
  target_result self_only_symbols (map vwap (drop 8 (points_of sixteen_minutes))) 0 0
  = (row_corr self_only_row, row_lag_minute_ts_ms self_only_row).
Proof.
  pose proof (correlation_for_symbol_picks_strongest self_only_symbols
                (16 * MS_PER_MINUTE) 0 (drop 8 (points_of sixteen_minutes))) as Hw.
  assert (Hsrc : vwap_history_get_recent
                   (sd_vwap_hist (symbol_at self_only_symbols 0)) MOVING_AVG_POINTS
                 = Some (drop 8 (points_of sixteen_minutes)))
    by (vm_compute; reflexivity).
  specialize (Hw Hsrc).
  assert (Hrow : correlation_for_symbol self_only_symbols (16 * MS_PER_MINUTE) 0
                 = Some (0, self_only_row)) by (vm_compute; reflexivity).
  rewrite Hrow in Hw. destruct Hw as (_ & Hres & _). exact Hres.
Defined.

Lemma correlation_warm_up_witness :
  correlation_worker_tick [idle_symbol] (3 * MS_PER_MINUTE) = [].
Proof.
  destruct (correlation_warm_up [idle_symbol] (3 * MS_PER_MINUTE)) as (_ & _ & Hquiet).
  apply Hquiet. intros i Hi. unfold NUM_SYMBOLS in Hi.
  assert (Hcases : i = 0 \/ i = 1 \/ i = 2 \/ i = 3 \/ i = 4 \/ i = 5 \/ i = 6 \/ i = 7)
    by lia.
  repeat (destruct Hcases as [->|Hcases]; [vm_compute; reflexivity|]).
  subst i. vm_compute. reflexivity.
Defined.

End WorkerExtra.
(** ** The parser: field extraction and whole messages *)

Module ParserExtra.
Import Parser ParserProps Wire.
Local Open Scope string_scope.

Lemma append_assoc (a b c : string) : (a ++ b) ++ c = a ++ (b ++ c).
Proof. induction a as [|x a IH]; simpl; [reflexivity|]. rewrite IH. reflexivity. Qed.

Lemma length_append (a b : string) :
  String.length (a ++ b) = (String.length a + String.length b)%nat.
Proof. induction a as [|x a IH]; simpl; [reflexivity|]. rewrite IH. reflexivity. Qed.

Lemma prefix_append (a b : string) : String.prefix a (a ++ b) = true.
Proof.
  induction a as [|x a IH]; simpl; [destruct b; reflexivity|].
  destruct (ascii_dec x x); [exact IH|congruence].
Qed.

Lemma prefix_cons_ne (a b : ascii) (s1 s2 : string) :
  a <> b -> String.prefix (String a s1) (String b s2) = false.
Proof. intros Hne. simpl. destruct (ascii_dec a b); [congruence|reflexivity]. Qed.

Lemma strstr_cons (c : ascii) (s needle : string) :
  strstr (String c s) needle =
  if String.prefix needle (String c s) then Some (String c s) else strstr s needle.
Proof. reflexivity. Qed.

Lemma strstr_skip (pre s k : string) :
  contains dquote pre = false ->
  strstr (pre ++ s) (quoted k) = strstr s (quoted k).
Proof.
  induction pre as [|c pre IH]; [reflexivity|].
  intros Hc. simpl in Hc. apply orb_false_iff in Hc as [Hc Hpre].
  change (String c pre ++ s) with (String c (pre ++ s)).
  rewrite strstr_cons. unfold quoted at 1.
  rewrite prefix_cons_ne.
  - apply IH, Hpre.
  - intros <-. rewrite Ascii.eqb_refl in Hc. discriminate.
Qed.

Lemma strstr_here (c : ascii) (n s : string) :
  strstr (String c n ++ s) (String c n) = Some (String c n ++ s).
Proof.
  change (String c n ++ s) with (String c (n ++ s)). rewrite strstr_cons.
  change (String c (n ++ s)) with (String c n ++ s).
  rewrite prefix_append. reflexivity.
Qed.

Lemma strchr_first (c : ascii) (a r : string) :
  contains c a = false -> strchr (a ++ String c r) c = Some (String c r).
Proof.
  induction a as [|x a IH]; simpl.
  - intros _. rewrite Ascii.eqb_refl. reflexivity.
  - intros Hc. apply orb_false_iff in Hc as [Hx Ha]. rewrite Hx. apply IH, Ha.
Qed.

Lemma skip_spaces_append (ws r : string) :
  all_json_space ws = true -> skip_spaces (ws ++ String dquote r) = String dquote r.
Proof.
  induction ws as [|x ws IH]; simpl; [reflexivity|].
  intros Hs. apply andb_true_iff in Hs as [Hx Hws]. rewrite Hx. apply IH, Hws.
Qed.

Lemma substring_0_append (n : nat) :
  forall a b, (n <= String.length a)%nat -> substring 0 n (a ++ b) = substring 0 n a.
Proof.
  induction n as [|n IH]; intros [|x a] b Hn; simpl in *; try reflexivity; try lia.
  - destruct b; reflexivity.
  - rewrite IH by lia. reflexivity.
Qed.

Lemma contains_append (c : ascii) (a b : string) :
  contains c (a ++ b) = contains c a || contains c b.
Proof.
  induction a as [|x a IH]; simpl; [reflexivity|].
  rewrite IH, orb_assoc. reflexivity.
Qed.

Lemma quoted_append (v rest : string) :
  quoted v ++ rest = String dquote (v ++ String dquote rest).
Proof. unfold quoted. simpl. rewrite append_assoc. reflexivity. Qed.

Lemma json_extract_string_found (json k ws v rest : string) (outsz : nat) :
  strstr json (quoted k) = Some (quoted k ++ ":" ++ ws ++ quoted v ++ rest) ->
  contains ":" k = false ->
  all_json_space ws = true -> contains dquote v = false ->
  json_extract_string json (quoted k) outsz
  = Some (substring 0 (if (outsz <=? String.length v)%nat then (outsz - 1)%nat
                       else String.length v) v,
          rest).
Proof.
  intros Hs Hk Hws Hv. unfold json_extract_string. rewrite Hs.
  assert (Hc : strchr (quoted k ++ ":" ++ ws ++ quoted v ++ rest) ":"
               = Some (String ":" (ws ++ quoted v ++ rest))).
  { change (":" ++ ws ++ quoted v ++ rest) with (String ":" (ws ++ quoted v ++ rest)).
    apply strchr_first. unfold quoted. simpl contains.
    rewrite contains_append, Hk. reflexivity. }
  rewrite Hc. cbn [advance].
  rewrite quoted_append, skip_spaces_append by assumption.
  rewrite Ascii.eqb_refl. cbn [negb].
  rewrite strchr_first by assumption.
  rewrite length_append. cbn [String.length].
  replace (String.length v + S (String.length rest) - S (String.length rest))%nat
    with (String.length v) by lia.
  cbn [advance]. f_equal. f_equal.
  apply substring_0_append.
  destruct (Nat.leb_spec outsz (String.length v)); lia.
Qed.

Lemma json_extract_string_at (pre k ws v rest : string) (outsz : nat) :
  contains dquote pre = false -> contains ":" k = false ->
  all_json_space ws = true -> contains dquote v = false ->
  json_extract_string (pre ++ quoted k ++ ":" ++ ws ++ quoted v ++ rest)
                      (quoted k) outsz
  = Some (substring 0 (if (outsz <=? String.length v)%nat then (outsz - 1)%nat
                       else String.length v) v,
          rest).
Proof.
  intros Hpre Hk Hws Hv. apply (json_extract_string_found _ k ws v rest); try assumption.
  rewrite strstr_skip by assumption.
  unfold quoted at 1 3 4. apply strstr_here.
Qed.

Lemma json_extract_string_fits (json k v rest : string) :
  strstr json (quoted k) = Some (quoted k ++ ":" ++ quoted v ++ rest) ->
  contains ":" k = false -> contains dquote v = false ->
  (String.length v < 32)%nat ->
  json_extract_string json (quoted k) 32 = Some (v, rest).
Proof.
  intros Hs Hk Hv Hl.
  rewrite (json_extract_string_found json k EmptyString v rest 32 Hs Hk eq_refl Hv).
  destruct (Nat.leb_spec 32 (String.length v)); [lia|].
  rewrite StringFacts.substring_0_all by lia. reflexivity.
Qed.

(** X6.  Extracting a field that is there: for a key without a colon followed by a
    colon, optional blanks and a quoted value without quotes, preceded by text
    without quotes, the extractor returns the value, cut to [outsz - 1]
    characters when it does not fit, and the cursor just after the closing
    quote. *)
Theorem json_extract_string_round_trip (pre k ws v rest : string) (outsz : nat) :
  contains dquote pre = false -> contains ":" k = false ->
  all_json_space ws = true -> contains dquote v = false ->
  (1 <= outsz)%nat ->
  exists out,
    json_extract_string (pre ++ quoted k ++ ":" ++ ws ++ quoted v ++ rest)
                        (quoted k) outsz = Some (out, rest) /\
    String.prefix out v = true /\
    String.length out = Nat.min (String.length v) (outsz - 1) /\
    ((String.length v < outsz)%nat -> out = v).
Proof.
  intros Hpre Hk Hws Hv Hsz.
  rewrite json_extract_string_at by assumption.
  eexists. split; [reflexivity|].
  split; [apply StringFacts.substring_0_prefix|].
  split.
  - rewrite StringFacts.substring_0_length.
    destruct (Nat.leb_spec outsz (String.length v)); lia.
  - intros Hlt. destruct (Nat.leb_spec outsz (String.length v)); [lia|].
    apply StringFacts.substring_0_all. lia.
Qed.

Lemma json_extract_string_round_trip_witness :
  json_extract_string (",  " ++ quoted "px" ++ ":" ++ " " ++ quoted "27340.8" ++ "}")
                      (quoted "px") 32
  = Some ("27340.8", "}").
Proof.
  destruct (json_extract_string_round_trip ",  " "px" " " "27340.8" "}" 32)
    as (out & He & _ & _ & Hout).
  - reflexivity.
  - reflexivity.
  - reflexivity.
  - reflexivity.
  - lia.
  - rewrite He. rewrite Hout by (simpl; lia). reflexivity.
Defined.

Lemma strstr_length (needle : string) :
  forall s p, strstr s needle = Some p -> (String.length p <= String.length s)%nat.
Proof.
  induction s as [|c s IH]; intros p.
  - destruct needle; simpl; [intros [= <-]; simpl; lia | discriminate].
  - rewrite strstr_cons.
    destruct (String.prefix needle (String c s)).
    + intros [= <-]. simpl. lia.
    + intros Hp. apply IH in Hp. simpl. lia.
Qed.

Lemma strchr_split (c : ascii) :
  forall s e, strchr s c = Some e ->
  exists a r, s = a ++ String c r /\ e = String c r /\ contains c a = false.
Proof.
  induction s as [|x s IH]; intros e; simpl; [discriminate|].
  destruct (Ascii.eqb x c) eqn:Ex.
  - intros [= <-]. apply Ascii.eqb_eq in Ex as ->.
    exists "", s. repeat split; reflexivity.
  - intros He. destruct (IH e He) as (a & r & -> & -> & Ha).
    exists (String x a), r. simpl. rewrite Ex, Ha. repeat split; reflexivity.
Qed.

Lemma skip_spaces_length (p : string) :
  (String.length (skip_spaces p) <= String.length p)%nat.
Proof.
  induction p as [|a p IH]; simpl; [lia|].
  destruct (is_json_space a); simpl; lia.
Qed.

Lemma contains_substring (c : ascii) (n : nat) :
  forall a, contains c a = false -> contains c (substring 0 n a) = false.
Proof.
  induction n as [|n IH]; intros [|x a]; simpl; try reflexivity.
  intros Hc. apply orb_false_iff in Hc as [Hx Ha]. rewrite Hx. apply IH, Ha.
Qed.

(** X7.  Whatever the input, a successful extraction never overruns the output
    buffer and never copies a quote: the value has at most [outsz - 1]
    characters, none of them a double quote, and the returned cursor lies
    strictly inside the input. *)
Theorem json_extract_string_bounds (json key out cursor : string) (outsz : nat) :
  (1 <= outsz)%nat ->
  json_extract_string json key outsz = Some (out, cursor) ->
  (String.length out <= outsz - 1)%nat /\
  contains dquote out = false /\
  (String.length cursor < String.length json)%nat.
Proof.
  intros Hsz. unfold json_extract_string.
  destruct (strstr json key) as [p0|] eqn:E0; [|discriminate].
  destruct (strchr p0 ":") as [p1|] eqn:E1; [|discriminate].
  destruct (skip_spaces (advance p1)) as [|a p] eqn:E2; [discriminate|].
  destruct (Ascii.eqb a dquote); [|discriminate]. cbn [negb].
  destruct (strchr p dquote) as [end_|] eqn:E3; [|discriminate].
  intros [= <- <-].
  apply strstr_length in E0.
  destruct (strchr_split _ _ _ E1) as (a1 & r1 & -> & -> & _).
  destruct (strchr_split _ _ _ E3) as (v & r & -> & -> & Hv).
  pose proof (skip_spaces_length (advance (String ":" r1))) as Hsk.
  rewrite E2 in Hsk. cbn [advance] in *.
  rewrite !length_append in *. cbn [String.length] in *.
  rewrite length_append in Hsk. cbn [String.length] in Hsk.
  replace (String.length v + S (String.length r) - S (String.length r))%nat
    with (String.length v) by lia.
  assert (Hn : ((if (outsz <=? String.length v)%nat then (outsz - 1)%nat
                 else String.length v) <= String.length v)%nat)
    by (destruct (Nat.leb_spec outsz (String.length v)); lia).
  rewrite substring_0_append by exact Hn.
  split; [|split].
  - rewrite StringFacts.substring_0_length.
    destruct (Nat.leb_spec outsz (String.length v)); lia.
  - apply contains_substring, Hv.
  - lia.
Qed.

Lemma json_extract_string_bounds_witness :
  (String.length "BTC-USDT-SWAP-PERPETUAL-2024-12" <= 32 - 1)%nat /\
  contains dquote "BTC-USDT-SWAP-PERPETUAL-2024-12" = false.
Proof.
  destruct (json_extract_string_bounds
              (field "instId" "BTC-USDT-SWAP-PERPETUAL-2024-12-27-LONG" ++ "}")
              (quoted "instId") "BTC-USDT-SWAP-PERPETUAL-2024-12" "}" 32)
    as (Hl & Hc & _).
  - lia.
  - reflexivity.
  - split; [exact Hl | exact Hc].
Defined.

(** *** Whole messages *)

Section Libc.
Variable strtod : string -> float * string * bool.
Variable strtoll : string -> Z * string * bool.

Lemma parse_trade_head_message (idx : nat) (inst px sz ts : string) :
  SYMBOLS !! idx = Some inst ->
  contains dquote px = false -> contains dquote sz = false ->
  (String.length px < 32)%nat -> (String.length sz < 32)%nat ->
  parse_trade_head strtod (okx_trade_message inst px sz ts) =
    let '(price, endp, err) := strtod px in
    if err || not_at_end endp || PrimFloat.leb price 0 then None
    else
      let '(size, endp, err) := strtod sz in
      if err || not_at_end endp || PrimFloat.leb size 0 then None
      else Some (Z.of_nat idx, price, size,
                 "," ++ field "side" "sell" ++ "," ++ field "ts" ts ++ "}]}").
Proof.
  intros Hsym Hpx Hsz Lpx Lsz. unfold parse_trade_head.
  destruct idx as [|[|[|[|[|[|[|[|idx]]]]]]]]; [..|discriminate];
    injection Hsym as <-.
  all: match goal with
       | |- context [okx_trade_message ?inst ?px ?sz ?ts] =>
           set (rest3 := "," ++ field "side" "sell" ++ "," ++ field "ts" ts ++ "}]}");
           set (rest2 := "," ++ field "sz" sz ++ rest3);
           set (rest1 := "," ++ field "px" px ++ rest2);
           set (obj := "{" ++ field "instId" inst ++ rest1);
           assert (E1 : strstr (okx_trade_message inst px sz ts) (quoted "data")
                        = Some (quoted "data" ++ ":[" ++ obj)) by reflexivity;
           rewrite E1;
           assert (E2 : strchr (quoted "data" ++ ":[" ++ obj) "["
                        = Some ("[" ++ obj)) by reflexivity;
           rewrite E2;
           assert (E3 : strchr (advance ("[" ++ obj)) "{" = Some obj) by reflexivity;
           rewrite E3;
           rewrite (json_extract_string_fits obj "instId" inst rest1)
             by (reflexivity || (simpl; lia));
           simpl find_symbol;
           rewrite (json_extract_string_fits rest1 "px" px rest2)
             by (reflexivity || assumption);
           destruct (strtod px) as [[price endp] err];
           destruct (err || not_at_end endp || PrimFloat.leb price 0);
             [reflexivity|];
           rewrite (json_extract_string_fits rest2 "sz" sz rest3)
             by (reflexivity || assumption);
           reflexivity
       end.
Qed.

Lemma parse_trade_timestamp_message (now : Z) (ts : string) :
  contains dquote ts = false -> (String.length ts < 32)%nat ->
  parse_trade_timestamp strtoll now
    ("," ++ field "side" "sell" ++ "," ++ field "ts" ts ++ "}]}") =
    let '(t, endp, err) := strtoll ts in
    if err || not_at_end endp || (t <=? 0)%Z then now else t.
Proof.
  intros Hts Lts. unfold parse_trade_timestamp.
  rewrite (json_extract_string_fits _ "ts" ts "}]}")
    by (reflexivity || assumption).
  reflexivity.
Qed.

(** X8.  A message in the documented layout parses to what it says: for any of the
    eight subscribed instruments and any price, size and timestamp texts that
    the C library accepts (price and size not [<= 0]), the parser returns the
    instrument's index, the converted price and size and the message's own
    timestamp, the clock being used only when that timestamp is not positive;
    the raw text and the receive time of the slot are left as they were. *)
Theorem parse_okx_trade_round_trip (now : Z) (idx : nat) (inst px sz ts : string)
    (price size : float) (t : Z) (msg : raw_trade_message) :
  SYMBOLS !! idx = Some inst ->
  contains dquote px = false -> contains dquote sz = false ->
  contains dquote ts = false ->
  (String.length px < 32)%nat -> (String.length sz < 32)%nat ->
  (String.length ts < 32)%nat ->
  strtod px = (price, EmptyString, false) -> PrimFloat.leb price 0 = false ->
  strtod sz = (size, EmptyString, false) -> PrimFloat.leb size 0 = false ->
  strtoll ts = (t, EmptyString, false) ->
  parse_okx_trade strtod strtoll now (okx_trade_message inst px sz ts) msg =
    Some {| msg_symbol_index := Z.of_nat idx;
            msg_exchange_ts_ms := if (t <=? 0)%Z then now else t;
            msg_price := price;
            msg_size := size;
            msg_raw_json := msg_raw_json msg;
            msg_receive_ts_ms := msg_receive_ts_ms msg |}.
Proof.
  intros Hsym Hpx Hsz Hts Lpx Lsz Lts Dpx Ppx Dsz Psz Dts.
  unfold parse_okx_trade.
  rewrite (parse_trade_head_message idx inst px sz ts) by assumption.
  rewrite Dpx, Ppx, Dsz, Psz. cbn [orb not_at_end].
  rewrite parse_trade_timestamp_message by assumption.
  rewrite Dts. reflexivity.
Qed.

(** X9.  A message whose price or size does not pass the numeric checks is
    dropped: whenever strtod reports an error, leaves characters unread or
    yields a value [<= 0] for the price or for the size, the parser returns 0,
    whatever the rest of the message says. *)
Theorem parse_okx_trade_rejects_bad_number (now : Z) (idx : nat)
    (inst px sz ts : string) (msg : raw_trade_message) :
  SYMBOLS !! idx = Some inst ->
  contains dquote px = false -> contains dquote sz = false ->
  (String.length px < 32)%nat -> (String.length sz < 32)%nat ->
  (let '(price, endp, err) := strtod px in
   err || not_at_end endp || PrimFloat.leb price 0 = true) \/
  (let '(size, endp, err) := strtod sz in
   err || not_at_end endp || PrimFloat.leb size 0 = true) ->
  parse_okx_trade strtod strtoll now (okx_trade_message inst px sz ts) msg = None.
Proof.
  intros Hsym Hpx Hsz Lpx Lsz Hbad. unfold parse_okx_trade.
  rewrite (parse_trade_head_message idx inst px sz ts) by assumption.
  destruct (strtod px) as [[price endp] err].
  destruct (strtod sz) as [[size endp'] err'].
  destruct (err || not_at_end endp || PrimFloat.leb price 0); [reflexivity|].
  destruct Hbad as [Hbad|Hbad]; [discriminate|]. rewrite Hbad. reflexivity.
Qed.

End Libc.

Lemma parse_okx_trade_round_trip_witness :
  parse_okx_trade decimal_strtod decimal_strtoll 1700000000000
    (trade_json (Some "1694464949239"))
    (received (trade_json (Some "1694464949239")) 1694464949301)
  = Some {| msg_symbol_index := 0;
            msg_exchange_ts_ms := 1694464949239;
            msg_price := px_27340_8;
            msg_size := sz_0_0005;
            msg_raw_json := trade_json (Some "1694464949239");
            msg_receive_ts_ms := 1694464949301 |}.
Proof.
  apply (parse_okx_trade_round_trip decimal_strtod decimal_strtoll 1700000000000
           0%nat "BTC-USDT" "27340.8" "0.0005" "1694464949239"
           px_27340_8 sz_0_0005 1694464949239
           (received (trade_json (Some "1694464949239")) 1694464949301)).
  - reflexivity.
  - reflexivity.
  - reflexivity.
  - reflexivity.
  - simpl; lia.
  - simpl; lia.
  - simpl; lia.
  - vm_compute; reflexivity.
  - vm_compute; reflexivity.
  - vm_compute; reflexivity.
  - vm_compute; reflexivity.
  - vm_compute; reflexivity.
Defined.

Lemma parse_okx_trade_rejects_bad_number_witness :
  parse_okx_trade decimal_strtod decimal_strtoll 1700000000000
    (okx_trade_message "ETH-USDT" "0.00" "1.5" "1694464949239")
    (received EmptyString 1694464949301) = None.
Proof.
  apply (parse_okx_trade_rejects_bad_number decimal_strtod decimal_strtoll
           1700000000000 2%nat "ETH-USDT" "0.00" "1.5" "1694464949239").
  - reflexivity.
  - reflexivity.
  - reflexivity.
  - simpl; lia.
  - simpl; lia.
  - left. vm_compute. reflexivity.
Defined.

End ParserExtra.
